(** * forecast-discussion-alerts: the section extractor of [main.go]

    A shallow embedding of [main.go] (package [main]) and of the parts of
    Go's [strings] and [regexp] packages it calls, followed by the
    properties of the section extractor, the normalizer, the subscriber
    resolver and the batch loop.

    Strings.  A Go string is a byte sequence, read by [strings] and [regexp]
    one rune (UTF-8 code point) at a time.  Every string this program handles
    is decoded by [encoding/json], which yields valid UTF-8, so a string is
    modelled as the list of its code points. *)

From Stdlib Require Import List NArith Arith Bool Ascii String Lia.
Import ListNotations.

(* ================================================================== *)
(** * Runes and strings *)

Definition rune := N.
Definition gostring := list rune.

Definition ch (a : ascii) : rune := N_of_ascii a.

(** An ASCII literal of the source, as a Go string. *)
Definition str (s : string) : gostring := map N_of_ascii (list_ascii_of_string s).

Definition rune_eqb (a b : rune) : bool := N.eqb a b.

Definition in_range (lo hi r : rune) : bool := (N.leb lo r) && (N.leb r hi).

(** [s[i:j]] *)
Definition slice (s : gostring) (i j : nat) : gostring := firstn (j - i) (skipn i s).

Fixpoint gostring_eqb (a b : gostring) : bool :=
  match a, b with
  | [], [] => true
  | x :: a', y :: b' => rune_eqb x y && gostring_eqb a' b'
  | _, _ => false
  end.

(* ================================================================== *)
(** * Unicode case tables

    [unicode.ToUpper], [unicode.ToLower] and [unicode.SimpleFold] answer for
    ASCII by arithmetic and a small table, and consult the Unicode case
    tables above U+007F.  Those tables are data of the Go distribution; they
    are a parameter of the development. *)

Record CaseTables : Type := {
  uni_upper : rune -> rune;          (* unicode.ToUpper above U+007F *)
  uni_lower : rune -> rune;          (* unicode.ToLower above U+007F *)
  uni_orbit : rune -> rune -> bool   (* [uni_orbit r0 r]: r is reached from r0
                                        by iterating unicode.SimpleFold *)
}.

Definition MaxASCII : rune := 127%N.

Definition is_ascii_lower (r : rune) : bool := in_range (ch "a") (ch "z") r.
Definition is_ascii_upper (r : rune) : bool := in_range (ch "A") (ch "Z") r.

(** [unicode.ToUpper] *)
Definition unicode_ToUpper (U : CaseTables) (r : rune) : rune :=
  if N.leb r MaxASCII then
    if is_ascii_lower r then (r - 32)%N else r
  else uni_upper U r.

(** [unicode.ToLower] *)
Definition unicode_ToLower (U : CaseTables) (r : rune) : rune :=
  if N.leb r MaxASCII then
    if is_ascii_upper r then (r + 32)%N else r
  else uni_lower U r.

(** [strings.ToUpper], [strings.ToLower]: the mapping of every rune. *)
Definition ToUpper (U : CaseTables) (s : gostring) : gostring := map (unicode_ToUpper U) s.
Definition ToLower (U : CaseTables) (s : gostring) : gostring := map (unicode_ToLower U) s.

(** The runes other than [r0] on the [unicode.SimpleFold] orbit of an ASCII
    rune [r0]: the other case of a letter, and for [K k] and [S s] the
    Kelvin sign U+212A and the long s U+017F. *)
Definition ascii_orbit (r0 r : rune) : bool :=
  if is_ascii_upper r0 || is_ascii_lower r0 then
    let up := if is_ascii_lower r0 then (r0 - 32)%N else r0 in
    rune_eqb r up || rune_eqb r (up + 32)%N
    || (rune_eqb up (ch "K") && rune_eqb r 8490%N)
    || (rune_eqb up (ch "S") && rune_eqb r 383%N)
  else false.

(** A literal rune [r0] of a pattern against a rune [r] of the text
    ([regexp/syntax.Inst.MatchRunePos]): equal, or with the fold flag on the
    same fold orbit. *)
Definition lit_match (U : CaseTables) (fold : bool) (r0 r : rune) : bool :=
  rune_eqb r r0
  || (fold && (if N.leb r0 MaxASCII then ascii_orbit r0 r else uni_orbit U r0 r)).

(* ================================================================== *)
(** * Regular expressions: the fragment of RE2 syntax the program uses *)

(** Items of a bracket expression. *)
Inductive citem : Type :=
| CRange (lo hi : rune)    (* a single rune is [CRange r r] *)
| CPerlSpace               (* \s  =  [\t\n\f\r ] *)
| CZs.                     (* \p{Zs}, the Unicode space separators *)

(** [unicode.Zs] *)
Definition is_Zs (r : rune) : bool :=
  rune_eqb r 32%N || rune_eqb r 160%N || rune_eqb r 5760%N
  || in_range 8192%N 8202%N r
  || rune_eqb r 8239%N || rune_eqb r 8287%N || rune_eqb r 12288%N.

Definition is_perl_space (r : rune) : bool :=
  rune_eqb r 9%N || rune_eqb r 10%N || rune_eqb r 12%N || rune_eqb r 13%N || rune_eqb r 32%N.

Definition citem_match (i : citem) (r : rune) : bool :=
  match i with
  | CRange lo hi => in_range lo hi r
  | CPerlSpace => is_perl_space r
  | CZs => is_Zs r
  end.

(** One-rune operators. *)
Inductive atom : Type :=
| ALit (fold : bool) (r : rune)            (* OpLiteral, with FoldCase or not *)
| AAny (nl : bool)                         (* OpAnyChar / OpAnyCharNotNL *)
| AClass (neg : bool) (items : list citem) (* OpCharClass *).

Definition newline : rune := 10%N.

Definition atom_match (U : CaseTables) (a : atom) (r : rune) : bool :=
  match a with
  | ALit fold r0 => lit_match U fold r0 r
  | AAny nl => nl || negb (rune_eqb r newline)
  | AClass neg items => xorb neg (existsb (fun i => citem_match i r) items)
  end.

Inductive regex : Type :=
| REmpty                                   (* OpEmptyMatch *)
| RAtom (a : atom)
| RBeginText                               (* ^ without (?m) *)
| REndText                                 (* $ without (?m) *)
| RCat (r1 r2 : regex)                     (* OpConcat *)
| RAlt (r1 r2 : regex)                     (* OpAlternate *)
| RRep (greedy : bool) (lo : nat) (hi : option nat) (a : atom)
                                           (* OpStar, OpPlus, OpQuest, OpRepeat
                                              of a one-rune operator *)
| RGroup (n : nat) (r : regex)             (* OpCapture *).

(* ------------------------------------------------------------------ *)
(** ** Matching: leftmost-first, as a backtracking search *)

(** Submatch positions, [caps[n] = Some (start, end)] (group 0 is the whole
    match). *)
Definition caps := list (option (nat * nat)).

Fixpoint set_cap (n : nat) (v : nat * nat) (c : caps) : caps :=
  match c, n with
  | [], _ => []
  | _ :: c', O => Some v :: c'
  | x :: c', S n' => x :: set_cap n' v c'
  end.

Definition hi_allows (hi : option nat) : bool :=
  match hi with Some O => false | _ => true end.

Definition hi_pred (hi : option nat) : option nat :=
  match hi with Some n => Some (pred n) | None => None end.

Section Matcher.

Variable U : CaseTables.

(** Repetition of a one-rune operator from position [p], text [s] ahead.
    Greedy prefers one more rune, lazy prefers to stop. *)
Fixpoint rep (a : atom) (greedy : bool) (lo : nat) (hi : option nat)
         (p : nat) (s : gostring) (k : nat -> gostring -> option caps)
         {struct s} : option caps :=
  let stop (_ : unit) := match lo with O => k p s | S _ => None end in
  let more (_ : unit) :=
    match s with
    | x :: s' =>
        if atom_match U a x && hi_allows hi
        then rep a greedy (pred lo) (hi_pred hi) (S p) s' k
        else None
    | [] => None
    end in
  if greedy
  then match more tt with Some c => Some c | None => stop tt end
  else match stop tt with Some c => Some c | None => more tt end.

(** [m r p s c k]: match [r] at position [p] with [s] ahead and submatches
    [c], then continue with [k]; alternatives are tried in priority order. *)
Fixpoint m (r : regex) (p : nat) (s : gostring) (c : caps)
         (k : nat -> gostring -> caps -> option caps) {struct r} : option caps :=
  match r with
  | REmpty => k p s c
  | RAtom a =>
      match s with
      | x :: s' => if atom_match U a x then k (S p) s' c else None
      | [] => None
      end
  | RBeginText => match p with O => k p s c | S _ => None end
  | REndText => match s with [] => k p s c | _ :: _ => None end
  | RCat r1 r2 => m r1 p s c (fun p' s' c' => m r2 p' s' c' k)
  | RAlt r1 r2 =>
      match m r1 p s c k with
      | Some c' => Some c'
      | None => m r2 p s c k
      end
  | RRep g lo hi a => rep a g lo hi p s (fun p' s' => k p' s' c)
  | RGroup n r1 => m r1 p s c (fun p' s' c' => k p' s' (set_cap n (p, p') c'))
  end.

(** A compiled expression: the tree and the number of capture groups. *)
Record Regexp : Type := { re_tree : regex; re_ncap : nat }.

(** A match starting exactly at [p]. *)
Definition match_here (re : Regexp) (p : nat) (s : gostring) : option caps :=
  m (re_tree re) p s (repeat None (S (re_ncap re)))
    (fun p' _ c => Some (set_cap 0 (p, p') c)).

(** The leftmost match starting at [p] or later. *)
Fixpoint find_from (re : Regexp) (p : nat) (s : gostring) : option caps :=
  match match_here re p s with
  | Some c => Some c
  | None =>
      match s with
      | [] => None
      | _ :: s' => find_from re (S p) s'
      end
  end.

(** [Regexp.doExecute] on the whole of [src], searching from [pos]. *)
Definition doExecute (re : Regexp) (src : gostring) (pos : nat) : option caps :=
  find_from re pos (skipn pos src).

Definition cap_text (src : gostring) (o : option (nat * nat)) : gostring :=
  match o with
  | Some (i, j) => slice src i j
  | None => []
  end.

(** [Regexp.FindStringSubmatch]: [None] is the nil slice. *)
Definition FindStringSubmatch (re : Regexp) (src : gostring) : option (list gostring) :=
  match doExecute re src 0 with
  | Some c => Some (map (cap_text src) c)
  | None => None
  end.

End Matcher.

(* ================================================================== *)
(** * Pattern syntax: [regexp.MustCompile]

    The patterns of [main.go] are written in RE2 syntax and, in
    [GetDiscussionSection], built at run time from the section name.  The
    parser below reads the fragment of the syntax that the program's patterns
    use: literals, [.], escaped punctuation, [\s], [\t \n \r \f], [\p{Zs}],
    bracket expressions, capture groups, alternation, the flags [(?i)],
    [(?s)], [(?m)], [^] and [$], and the repetitions [* + ? {n} {n,} {n,m}]
    (greedy or lazy) of a one-rune operator.  A pattern outside the fragment
    is reported as [Unsupported]; inside it, a malformed pattern is a
    [SyntaxError], on which [MustCompile] panics. *)

Inductive token : Type :=
| TLit (r : rune)
| TDot
| TClass (neg : bool) (items : list citem)
| TLParen
| TRParen
| TBar
| TCaret
| TDollar
| TFlags (i s mflag : bool)                (* (?ism) *)
| TRep (greedy : bool) (lo : nat) (hi : option nat)
| TSyntaxError
| TUnsupported.

Definition is_digit (r : rune) : bool := in_range (ch "0") (ch "9") r.
Definition is_word_char (r : rune) : bool :=
  is_digit r || is_ascii_lower r || is_ascii_upper r || rune_eqb r (ch "_").

(** An ASCII rune that is no letter and no digit: a backslash before it
    gives the rune itself ([parser.parseEscape]). *)
Definition is_punct (r : rune) : bool :=
  N.leb r MaxASCII && negb (is_digit r || is_ascii_lower r || is_ascii_upper r).

Definition digit_val (r : rune) : nat := N.to_nat (r - ch "0")%N.

(** Decimal digits at the head of [s]: value, number of digits, the rest. *)
Fixpoint scan_int (s : gostring) (acc : nat) (n : nat) : nat * nat * gostring :=
  match s with
  | d :: s' => if is_digit d then scan_int s' (10 * acc + digit_val d) (S n) else (acc, n, s)
  | [] => (acc, n, s)
  end.

(** [parser.parseInt]: no digit, or a leading zero before another digit, is
    not a number. *)
Definition parse_int (s : gostring) : option (nat * nat * gostring) :=
  match s with
  | z :: d :: _ =>
      if rune_eqb z (ch "0") && is_digit d then None
      else match scan_int s 0 0 with (_, O, _) => None | r => Some r end
  | _ => match scan_int s 0 0 with (_, O, _) => None | r => Some r end
  end.

(** After [{]: [n}], [n,}] or [n,m}] ([parser.parseRepeat]).  The result is
    [(min, max, runes read)]. *)
Definition scan_repeat (s : gostring) : option (nat * option nat * nat) :=
  match parse_int s with
  | None => None
  | Some (lo, n1, s1) =>
      match s1 with
      | c :: s2 =>
          if rune_eqb c (ch "}") then Some (lo, Some lo, n1 + 1)
          else if rune_eqb c (ch ",") then
            match s2 with
            | c2 :: _ =>
                if rune_eqb c2 (ch "}") then Some (lo, None, n1 + 2)
                else
                  match parse_int s2 with
                  | None => None
                  | Some (hi, n2, s3) =>
                      match s3 with
                      | c3 :: _ => if rune_eqb c3 (ch "}") then Some (lo, Some hi, n1 + 1 + n2 + 1) else None
                      | [] => None
                      end
                  end
            | [] => None
            end
          else None
      | [] => None
      end
  end.

(** After [(?]: flag letters up to the closing parenthesis. *)
Fixpoint scan_flags (s : gostring) (i sf mf : bool) (any : bool) (n : nat)
  : option (bool * bool * bool * nat) :=
  match s with
  | c :: s' =>
      if rune_eqb c (ch "i") then scan_flags s' true sf mf true (S n)
      else if rune_eqb c (ch "s") then scan_flags s' i true mf true (S n)
      else if rune_eqb c (ch "m") then scan_flags s' i sf true true (S n)
      else if rune_eqb c (ch ")") && any then Some (i, sf, mf, S n)
      else None
  | [] => None
  end.

(** An escape after the backslash, outside or inside brackets: the items it
    stands for and the number of runes read after the backslash. *)
Inductive escape_result : Type :=
| EscItems (items : list citem) (n : nat)
| EscBad                                   (* trailing backslash *)
| EscUnsupported.

Definition scan_escape (s : gostring) : escape_result :=
  match s with
  | [] => EscBad
  | c :: s' =>
      if rune_eqb c (ch "s") then EscItems [CPerlSpace] 1
      else if rune_eqb c (ch "n") then EscItems [CRange 10%N 10%N] 1
      else if rune_eqb c (ch "t") then EscItems [CRange 9%N 9%N] 1
      else if rune_eqb c (ch "r") then EscItems [CRange 13%N 13%N] 1
      else if rune_eqb c (ch "f") then EscItems [CRange 12%N 12%N] 1
      else if rune_eqb c (ch "p") then
        if gostring_eqb (firstn 4 s') (str "{Zs}") then EscItems [CZs] 5 else EscUnsupported
      else if is_punct c then EscItems [CRange c c] 1
      else EscUnsupported
  end.

Inductive class_result : Type :=
| ClassOk (items : list citem) (n : nat)
| ClassError                               (* missing bracket, bad range *)
| ClassUnsupported.

(** The items of a bracket expression up to the closing bracket; [skip]
    runes at the head belong to an item already read, [first] tells that no
    item was read yet (a closing bracket there is a literal). *)
Fixpoint scan_class (s : gostring) (skip : nat) (first : bool)
         (acc : list citem) (n : nat) : class_result :=
  match s with
  | [] => ClassError
  | c :: s' =>
      match skip with
      | S k => scan_class s' k first acc (S n)
      | O =>
          if rune_eqb c (ch "]") && negb first then ClassOk (rev acc) (S n)
          else if rune_eqb c (ch "[") then ClassUnsupported
          else if rune_eqb c (ch "\") then
            match scan_escape s' with
            | EscItems items k => scan_class s' k false (rev items ++ acc) (S n)
            | EscBad => ClassError
            | EscUnsupported => ClassUnsupported
            end
          else
            match s' with
            | d :: h :: _ =>
                if rune_eqb d (ch "-") && negb (rune_eqb h (ch "]")) then
                  if rune_eqb h (ch "\") || rune_eqb h (ch "[") then ClassUnsupported
                  else if N.ltb h c then ClassError
                  else scan_class s' 2 false (CRange c h :: acc) (S n)
                else scan_class s' 0 false (CRange c c :: acc) (S n)
            | _ => scan_class s' 0 false (CRange c c :: acc) (S n)
            end
      end
  end.

(** An optional [?] after a repetition operator makes it lazy. *)
Definition rep_token (lo : nat) (hi : option nat) (n : nat) (after : gostring) : token * nat :=
  match after with
  | q :: _ => if rune_eqb q (ch "?") then (TRep false lo hi, S n) else (TRep true lo hi, n)
  | [] => (TRep true lo hi, n)
  end.

(** The token at the head of [c :: t] and the number of runes it spans. *)
Definition next_token (c : rune) (t : gostring) : token * nat :=
  if rune_eqb c (ch "(") then
    match t with
    | q :: t' =>
        if rune_eqb q (ch "?") then
          match scan_flags t' false false false false 0 with
          | Some (i, sf, mf, n) => (TFlags i sf mf, n + 2)
          | None => (TUnsupported, 1)
          end
        else (TLParen, 1)
    | [] => (TLParen, 1)
    end
  else if rune_eqb c (ch ")") then (TRParen, 1)
  else if rune_eqb c (ch "|") then (TBar, 1)
  else if rune_eqb c (ch "*") then rep_token 0 None 1 t
  else if rune_eqb c (ch "+") then rep_token 1 None 1 t
  else if rune_eqb c (ch "?") then rep_token 0 (Some 1) 1 t
  else if rune_eqb c (ch "{") then
    match scan_repeat t with
    | Some (lo, hi, n) =>
        if (1000 <? lo) || (match hi with Some h => (1000 <? h) || (h <? lo) | None => false end)
        then (TSyntaxError, 1)
        else rep_token lo hi (S n) (skipn n t)
    | None => (TLit c, 1)
    end
  else if rune_eqb c (ch "[") then
    match t with
    | x :: t' =>
        if rune_eqb x (ch "^") then
          match scan_class t' 0 true [] 0 with
          | ClassOk items n => (TClass true items, n + 2)
          | ClassError => (TSyntaxError, 1)
          | ClassUnsupported => (TUnsupported, 1)
          end
        else
          match scan_class t 0 true [] 0 with
          | ClassOk items n => (TClass false items, n + 1)
          | ClassError => (TSyntaxError, 1)
          | ClassUnsupported => (TUnsupported, 1)
          end
    | [] => (TSyntaxError, 1)
    end
  else if rune_eqb c (ch "\") then
    match scan_escape t with
    | EscItems [CRange lo hi] n =>
        if rune_eqb lo hi then (TLit lo, S n) else (TClass false [CRange lo hi], S n)
    | EscItems items n => (TClass false items, S n)
    | EscBad => (TSyntaxError, 1)
    | EscUnsupported => (TUnsupported, 1)
    end
  else if rune_eqb c (ch ".") then (TDot, 1)
  else if rune_eqb c (ch "^") then (TCaret, 1)
  else if rune_eqb c (ch "$") then (TDollar, 1)
  else (TLit c, 1).

(** The tokens of a pattern; [skip] runes at the head belong to the token
    before. *)
Fixpoint lex (skip : nat) (s : gostring) : list token :=
  match s with
  | [] => []
  | c :: s' =>
      match skip with
      | S k => lex k s'
      | O => let (tok, n) := next_token c s' in tok :: lex (pred n) s'
      end
  end.

(* ------------------------------------------------------------------ *)
(** ** From tokens to the tree

    As in [regexp/syntax.parser]: a stack of open groups, each with the
    alternatives closed so far and the concatenation being read; the flags in
    force are saved when a group opens and restored when it closes. *)

Record pflags : Type := { fl_fold : bool; fl_dotnl : bool; fl_multi : bool }.

Record frame : Type := {
  f_alts : list regex;       (* alternatives closed by a bar, last first *)
  f_seq : list regex;        (* the concatenation being read, last first *)
  f_cap : nat;               (* the number of this group *)
  f_saved : pflags           (* flags when the group opened *)
}.

Inductive pstatus : Type := POk | PSyntaxError | PUnsupported.

Record pstate : Type := {
  p_status : pstatus;
  p_cur : frame;
  p_stack : list frame;
  p_flags : pflags;
  p_ncap : nat
}.

Definition cat_list (l : list regex) : regex := fold_right RCat REmpty l.

Fixpoint alt_list (l : list regex) : regex :=
  match l with
  | [] => REmpty
  | [r] => r
  | r :: l' => RAlt r (alt_list l')
  end.

(** The tree of a frame: its alternatives in the order read. *)
Definition frame_tree (f : frame) : regex :=
  alt_list (rev (cat_list (rev (f_seq f)) :: f_alts f)).

Definition push (st : pstate) (r : regex) : pstate :=
  let f := p_cur st in
  {| p_status := p_status st;
     p_cur := {| f_alts := f_alts f; f_seq := r :: f_seq f; f_cap := f_cap f; f_saved := f_saved f |};
     p_stack := p_stack st; p_flags := p_flags st; p_ncap := p_ncap st |}.

Definition fail (st : pstate) (e : pstatus) : pstate :=
  {| p_status := e; p_cur := p_cur st; p_stack := p_stack st;
     p_flags := p_flags st; p_ncap := p_ncap st |}.

(** Bracket items that a fold flag leaves as they are: ASCII and no letter. *)
Definition citem_caseless (i : citem) : bool :=
  match i with
  | CRange lo hi =>
      N.leb hi MaxASCII
      && (N.ltb hi (ch "A") || (N.ltb (ch "Z") lo && N.ltb hi (ch "a")) || N.ltb (ch "z") lo)
  | CPerlSpace => true
  | CZs => false
  end.

Definition parse_token (st : pstate) (t : token) : pstate :=
  match p_status st with
  | POk =>
      let fl := p_flags st in
      let f := p_cur st in
      match t with
      | TLit r => push st (RAtom (ALit (fl_fold fl) r))
      | TDot => push st (RAtom (AAny (fl_dotnl fl)))
      | TClass neg items =>
          if fl_fold fl && negb (forallb citem_caseless items)
          then fail st PUnsupported
          else push st (RAtom (AClass neg items))
      | TCaret => if fl_multi fl then fail st PUnsupported else push st RBeginText
      | TDollar => if fl_multi fl then fail st PUnsupported else push st REndText
      | TFlags i s mf =>
          {| p_status := POk; p_cur := f; p_stack := p_stack st;
             p_flags := {| fl_fold := fl_fold fl || i; fl_dotnl := fl_dotnl fl || s;
                           fl_multi := fl_multi fl || mf |};
             p_ncap := p_ncap st |}
      | TLParen =>
          {| p_status := POk;
             p_cur := {| f_alts := []; f_seq := []; f_cap := S (p_ncap st); f_saved := fl |};
             p_stack := f :: p_stack st;
             p_flags := fl;
             p_ncap := S (p_ncap st) |}
      | TRParen =>
          match p_stack st with
          | [] => fail st PSyntaxError            (* unexpected ) *)
          | parent :: rest =>
              {| p_status := POk;
                 p_cur := {| f_alts := f_alts parent;
                             f_seq := RGroup (f_cap f) (frame_tree f) :: f_seq parent;
                             f_cap := f_cap parent; f_saved := f_saved parent |};
                 p_stack := rest;
                 p_flags := f_saved f;
                 p_ncap := p_ncap st |}
          end
      | TBar =>
          {| p_status := POk;
             p_cur := {| f_alts := cat_list (rev (f_seq f)) :: f_alts f; f_seq := [];
                         f_cap := f_cap f; f_saved := f_saved f |};
             p_stack := p_stack st; p_flags := fl; p_ncap := p_ncap st |}
      | TRep g lo hi =>
          match f_seq f with
          | [] => fail st PSyntaxError            (* missing argument *)
          | RAtom a :: seq' =>
              {| p_status := POk;
                 p_cur := {| f_alts := f_alts f; f_seq := RRep g lo hi a :: seq';
                             f_cap := f_cap f; f_saved := f_saved f |};
                 p_stack := p_stack st; p_flags := fl; p_ncap := p_ncap st |}
          | RRep _ _ _ _ :: _ => fail st PSyntaxError   (* nested repetition operator *)
          | _ :: _ => fail st PUnsupported
          end
      | TSyntaxError => fail st PSyntaxError
      | TUnsupported => fail st PUnsupported
      end
  | _ => st
  end.

Definition pstate0 : pstate :=
  let fl := {| fl_fold := false; fl_dotnl := false; fl_multi := false |} in
  {| p_status := POk;
     p_cur := {| f_alts := []; f_seq := []; f_cap := 0; f_saved := fl |};
     p_stack := []; p_flags := fl; p_ncap := 0 |}.

Inductive compile_result : Type :=
| Compiled (re : Regexp)
| SyntaxError
| Unsupported.

Definition finish (st : pstate) : compile_result :=
  match p_status st with
  | POk =>
      match p_stack st with
      | [] => Compiled {| re_tree := frame_tree (p_cur st); re_ncap := p_ncap st |}
      | _ :: _ => SyntaxError                     (* missing closing ) *)
      end
  | PSyntaxError => SyntaxError
  | PUnsupported => Unsupported
  end.

(** [regexp.Compile] *)
Definition Compile (pattern : gostring) : compile_result :=
  finish (fold_left parse_token (lex 0 pattern) pstate0).

(* ================================================================== *)
(** * [Regexp.ReplaceAllString] *)

Fixpoint span_word (s : gostring) : gostring :=
  match s with
  | c :: s' => if is_word_char c then c :: span_word s' else []
  | [] => []
  end.

(** The group a name stands for when it is a number without leading zero. *)
Definition name_num (name : gostring) : option nat :=
  match name with
  | [] => None
  | z :: rest =>
      if forallb is_digit name && negb (rune_eqb z (ch "0") && negb (Nat.eqb (List.length rest) 0))
      then Some (fst (fst (scan_int name 0 0)))
      else None
  end.

(** [regexp.extract] after a dollar sign: the name, and the runes read. *)
Definition extract (s : gostring) : option (gostring * nat) :=
  match s with
  | [] => None
  | c :: s' =>
      if rune_eqb c (ch "{") then
        match span_word s' with
        | [] => None
        | name =>
            match skipn (List.length name) s' with
            | b :: _ => if rune_eqb b (ch "}") then Some (name, List.length name + 2) else None
            | [] => None
            end
        end
      else
        match span_word s with
        | [] => None
        | name => Some (name, List.length name)
        end
  end.

(** The text a reference expands to; the fragment has no named group. *)
Definition ref_text (src : gostring) (c : caps) (name : gostring) : gostring :=
  match name_num name with
  | Some n => cap_text src (nth n c None)
  | None => []
  end.

(** [Regexp.expand] for a template of ASCII runes. *)
Fixpoint expand (template : gostring) (skip : nat) (src : gostring) (c : caps) : gostring :=
  match template with
  | [] => []
  | x :: t =>
      match skip with
      | S k => expand t k src c
      | O =>
          if rune_eqb x (ch "$") then
            match t with
            | d :: _ =>
                if rune_eqb d (ch "$") then ch "$" :: expand t 1 src c
                else
                  match extract t with
                  | Some (name, n) => ref_text src c name ++ expand t n src c
                  | None => ch "$" :: expand t 0 src c
                  end
            | [] => [ch "$"]
            end
          else x :: expand t 0 src c
      end
  end.

Section Replace.

Variable U : CaseTables.

(** The loop of [Regexp.replaceAll]; [fuel] bounds the number of rounds,
    each of which moves [searchPos] forward. *)
Fixpoint replaceAll_loop (fuel : nat) (re : Regexp) (src repl : gostring)
         (lastMatchEnd searchPos : nat) (buf : gostring) : gostring :=
  match fuel with
  | O => buf ++ skipn lastMatchEnd src
  | S fuel' =>
      if List.length src <? searchPos then buf ++ skipn lastMatchEnd src
      else
        match doExecute U re src searchPos with
        | None => buf ++ skipn lastMatchEnd src
        | Some a =>
            match nth 0 a None with
            | None => buf ++ skipn lastMatchEnd src
            | Some (a0, a1) =>
                let buf1 := buf ++ slice src lastMatchEnd a0 in
                let buf2 :=
                  if (lastMatchEnd <? a1) || (a0 =? 0)
                  then buf1 ++ expand repl 0 src a
                  else buf1 in
                let searchPos' := if a1 <? searchPos + 1 then searchPos + 1 else a1 in
                replaceAll_loop fuel' re src repl a1 searchPos' buf2
            end
        end
  end.

Definition ReplaceAllString (re : Regexp) (src repl : gostring) : gostring :=
  replaceAll_loop (S (S (List.length src))) re src repl 0 0 [].

End Replace.

(* ================================================================== *)
(** * Outcomes of Go code *)

(** How a call ends: it returns, it panics, it ends the process through
    [log.Fatal], or it leaves the modelled fragment of [regexp]. *)
Inductive outcome (A : Type) : Type :=
| Ret (a : A)
| Panic
| Fatal (msg : gostring)
| Unmodelled.

Arguments Ret {A} a.
Arguments Panic {A}.
Arguments Fatal {A} msg.
Arguments Unmodelled {A}.

Definition obind {A B : Type} (x : outcome A) (f : A -> outcome B) : outcome B :=
  match x with
  | Ret a => f a
  | Panic => Panic
  | Fatal msg => Fatal msg
  | Unmodelled => Unmodelled
  end.

Notation "x <- c1 ;; c2" := (obind c1 (fun x => c2))
  (at level 61, c1 at next level, right associativity).

(** A Go result pair [(T, error)]: the value with a nil error, or an error
    (the value is then the zero value and is not used apart from that). *)
Inductive res (A : Type) : Type :=
| Good (a : A)
| Bad (err : gostring).

Arguments Good {A} a.
Arguments Bad {A} err.

(** [regexp.MustCompile] *)
Definition MustCompile (pattern : gostring) : outcome Regexp :=
  match Compile pattern with
  | Compiled re => Ret re
  | SyntaxError => Panic
  | Unsupported => Unmodelled
  end.

(* ================================================================== *)
(** * [main.go]: data *)

Record User : Type := {
  ID : N;
  FirstName : gostring;
  LastName : gostring;
  LocationID : gostring;
  Phone : gostring;
  Subscriptions : list gostring
}.

Record Config : Type := {
  TwillioAccountSID : gostring;
  TwillioAuthToken : gostring;
  TwillioFromPhone : gostring
}.

Record Product : Type := {
  ProductID : gostring;
  WmoCollectiveID : gostring;
  IssuingOffice : gostring;
  IssuanceTime : gostring;
  ProductCode : gostring;
  ProductName : gostring;
  ProductText : gostring
}.

Record NWSClient : Type := {
  ClientLocationID : gostring;
  BaseURI : gostring
}.

(* ================================================================== *)
(** * [main.go]: helpers and the section extractor *)

Section Extractor.

Variable U : CaseTables.

(** [sanitizeString] *)
Definition sanitizeString (s : gostring) : outcome gostring :=
  leadingTrailingWhitespaceRe <- MustCompile (str "^[\s\p{Zs}]+|[\s\p{Zs}]+$") ;;
  multipleNewlineRe <- MustCompile (str "([^\n])(\n)([^\n])") ;;
  multipleSpacesRe <- MustCompile (str "(?m) {2,}") ;;
  tabRe <- MustCompile (str "[\t\r]") ;;
  let output := ReplaceAllString U leadingTrailingWhitespaceRe s (str "") in
  let output := ReplaceAllString U multipleNewlineRe output (str "$1$3") in
  let output := ReplaceAllString U multipleSpacesRe output (str "") in
  let output := ReplaceAllString U tabRe output (str "") in
  Ret output.

(** [formatDiscussionItem] *)
Definition formatDiscussionItem (discussionType discussionItem : gostring) : gostring :=
  ToUpper U discussionType ++ (ch ":" :: newline :: newline :: nil) ++ discussionItem.

Definition section_pattern (sectionName : gostring) : gostring :=
  str "(?is)\." ++ sectionName ++ str "[.\s]+(.+?)&&".

Definition not_found_message (sectionName : gostring) : gostring :=
  str "No section of type " ++ sectionName ++ str " found".

(** [(s *Product) GetDiscussionSection] *)
Definition GetDiscussionSection (s : Product) (sectionName : gostring) : outcome (res gostring) :=
  let sectionName := ToLower U sectionName in
  let sectionName := ToUpper U sectionName in
  re <- MustCompile (section_pattern sectionName) ;;
  let result := FindStringSubmatch U re (ProductText s) in
  match result with
  | None => Ret (Bad (not_found_message sectionName))
  | Some l =>
      if List.length l <? 2 then Ret (Bad (not_found_message sectionName))
      else
        section <- sanitizeString (nth 1 l []) ;;
        Ret (Good (formatDiscussionItem sectionName section))
  end.

End Extractor.

(* ================================================================== *)
(** * [main.go]: the forecast client, the subscriber resolver, the batch

    The outside world (the weather service, the messaging provider, the
    files) is a state [net] threaded through the calls, together with what
    the process printed and the messages it handed to the provider. *)

Inductive http_reply : Type :=
| DoError (err : gostring)                     (* client.Do failed *)
| ReadError (err : gostring)                   (* ioutil.ReadAll failed *)
| Reply (status : N) (body : gostring).

Section Program.

Variable U : CaseTables.
Variable net : Type.
(** [http.NewRequest] accepts the URI. *)
Variable url_ok : gostring -> bool.
(** A GET of the URI with the Accept header of the program. *)
Variable roundTrip : gostring -> net -> http_reply * net.
(** [json.Unmarshal] into a [Response] (its products) and into a [Product]. *)
Variable unmarshalResponse : gostring -> res (list Product).
Variable unmarshalProduct : gostring -> res Product.
(** [twilio.SendSMS from to body]: the error it returns, if any. *)
Variable sendSMS : gostring -> gostring -> gostring -> net -> option gostring * net.

Record world : Type := {
  w_net : net;
  w_stdout : list gostring;                          (* lines printed *)
  w_sent : list (gostring * gostring * gostring)     (* SendSMS calls: from, to, body *)
}.

Definition M (A : Type) : Type := world -> outcome A * world.

Definition mret {A : Type} (a : A) : M A := fun w => (Ret a, w).

Definition mbind {A B : Type} (x : M A) (f : A -> M B) : M B :=
  fun w =>
    match x w with
    | (Ret a, w') => f a w'
    | (Panic, w') => (Panic, w')
    | (Fatal msg, w') => (Fatal msg, w')
    | (Unmodelled, w') => (Unmodelled, w')
    end.

Definition lift {A : Type} (x : outcome A) : M A := fun w => (x, w).

Definition Println (line : gostring) : M unit :=
  fun w => (Ret tt, {| w_net := w_net w; w_stdout := w_stdout w ++ [line]; w_sent := w_sent w |}).

(** [log.Fatal]: the message is logged and the process exits. *)
Definition log_Fatal {A : Type} (msg : gostring) : M A := fun w => (Fatal msg, w).

(** [NewNWSClient] *)
Definition NewNWSClient (locationID : gostring) : NWSClient :=
  {| ClientLocationID := locationID; BaseURI := str "https://api.weather.gov" |}.

(** [http.NewRequest] followed by [req.Header.Set]: when the URI is refused
    the request is nil and setting the header panics, before the error is
    looked at. *)
Definition newRequest (uri : gostring) : M gostring :=
  if url_ok uri then mret uri else lift Panic.

(** [doRequest] *)
Definition doRequest (s : NWSClient) (req : gostring) : M (res gostring) :=
  fun w =>
    let (reply, n') := roundTrip req (w_net w) in
    let w' := {| w_net := n'; w_stdout := w_stdout w; w_sent := w_sent w |} in
    match reply with
    | DoError err => (Ret (Bad err), w')
    | ReadError err => (Ret (Bad err), w')
    | Reply status body =>
        if negb (N.eqb status 200) then (Ret (Bad body), w')
        else (Ret (Good body), w')
    end.

(** [GetProducts] *)
Definition GetProducts (s : NWSClient) (productType : gostring) : M (res (list Product)) :=
  let uri := BaseURI s ++ str "/products/types/" ++ productType ++ str "/locations/"
             ++ ClientLocationID s in
  mbind (newRequest uri) (fun req =>
  mbind (doRequest s req) (fun r =>
  match r with
  | Bad err => mret (Bad err)
  | Good bytes => mret (unmarshalResponse bytes)
  end)).

(** [GetProduct] *)
Definition GetProduct (s : NWSClient) (productID : gostring) : M (res Product) :=
  let uri := BaseURI s ++ str "/products/" ++ productID in
  mbind (newRequest uri) (fun req =>
  mbind (doRequest s req) (fun r =>
  match r with
  | Bad err => mret (Bad err)
  | Good bytes => mret (unmarshalProduct bytes)
  end)).

(** [GetAFD] *)
Definition GetAFD (s : NWSClient) : M (res Product) :=
  mbind (GetProducts s (str "afd")) (fun r =>
  match r with
  | Bad err => mret (Bad err)
  | Good products =>
      if List.length products <? 1 then mret (Bad (str "Couldn't find AFD"))
      else
        let latestID := ProductID (nth 0 products
                          {| ProductID := []; WmoCollectiveID := []; IssuingOffice := [];
                             IssuanceTime := []; ProductCode := []; ProductName := [];
                             ProductText := [] |}) in
        mbind (GetProduct s latestID) (fun r2 =>
        match r2 with
        | Bad err => mret (Bad err)
        | Good afd => mret (Good afd)
        end)
  end).

(** The loop of [GetSubscribedSections] over the subscriptions. *)
Fixpoint sections_loop (afd : Product) (subscriptions : list gostring)
         (sections : list gostring) : M (list gostring) :=
  match subscriptions with
  | [] => mret sections
  | subscription :: rest =>
      mbind (lift (GetDiscussionSection U afd subscription)) (fun r =>
      match r with
      | Bad _ =>
          mbind (Println (str "Missing section")) (fun _ =>
          sections_loop afd rest (sections ++ [[]]))
      | Good section => sections_loop afd rest (sections ++ [section])
      end)
  end.

(** [(s User) GetSubscribedSections] *)
Definition GetSubscribedSections (s : User) : M (list gostring) :=
  let client := NewNWSClient (LocationID s) in
  mbind (GetAFD client) (fun r =>
  match r with
  | Bad err => log_Fatal err
  | Good afd =>
      let sections := repeat [] (List.length (Subscriptions s)) in   (* make([]string, len) *)
      sections_loop afd (Subscriptions s) sections
  end).

Definition SendSMS (from to body : gostring) : M (option gostring) :=
  fun w =>
    let (err, n') := sendSMS from to body (w_net w) in
    (Ret err, {| w_net := n'; w_stdout := w_stdout w; w_sent := w_sent w ++ [(from, to, body)] |}).

(** The inner loop of [main]: one message per section. *)
Fixpoint send_loop (config : Config) (user : User) (sections : list gostring) : M unit :=
  match sections with
  | [] => mret tt
  | section :: rest =>
      mbind (SendSMS (TwillioFromPhone config) (Phone user) section) (fun err =>
      match err with
      | Some e =>
          mbind (Println (str "ERROR")) (fun _ =>
          mbind (Println e) (fun _ => send_loop config user rest))
      | None => send_loop config user rest
      end)
  end.

(** The outer loop of [main]: the subscribers in turn. *)
Fixpoint users_loop (config : Config) (users : list User) : M unit :=
  match users with
  | [] => mret tt
  | user :: rest =>
      mbind (GetSubscribedSections user) (fun discussionSections =>
      mbind (send_loop config user discussionSections) (fun _ =>
      users_loop config rest))
  end.

(** [main], from the contents of the two files: [os.Open] fails or gives
    the value the decoder leaves in [users] and in [config]. *)
Definition main (usersFile : res (list User)) (configFile : res Config) : M unit :=
  match usersFile with
  | Bad err => log_Fatal err
  | Good users =>
      match configFile with
      | Bad err => log_Fatal err
      | Good config => users_loop config users
      end
  end.

End Program.

Arguments w_net {net} w.
Arguments w_stdout {net} w.
Arguments w_sent {net} w.
Arguments mret {net A} a _.
Arguments mbind {net A B} x f _.
Arguments lift {net A} x _.
Arguments Println {net} line _.
Arguments log_Fatal {net A} msg _.
Arguments newRequest {net} url_ok uri _.
Arguments doRequest {net} roundTrip s req _.
Arguments GetProducts {net} url_ok roundTrip unmarshalResponse s productType _.
Arguments GetProduct {net} url_ok roundTrip unmarshalProduct s productID _.
Arguments GetAFD {net} url_ok roundTrip unmarshalResponse unmarshalProduct s _.
Arguments sections_loop U {net} afd subscriptions sections _.
Arguments GetSubscribedSections U {net} url_ok roundTrip unmarshalResponse unmarshalProduct s _.
Arguments SendSMS {net} sendSMS from to body _.
Arguments send_loop {net} sendSMS config user sections _.
Arguments users_loop U {net} url_ok roundTrip unmarshalResponse unmarshalProduct sendSMS
  config users _.
Arguments main U {net} url_ok roundTrip unmarshalResponse unmarshalProduct sendSMS
  usersFile configFile _.

(* ================================================================== *)
(** * The earlier revisions of the program

    [src/unnamed/part_000] is the first [main], which prints the text of the
    latest forecast discussion of one office; [src/unnamed/part_001] has
    [GetDiscussionSection] and [sanitizeString] as they were before the
    pattern was built from the section name, and a [main] that prints the
    sections of the first subscriber.  The forecast client and
    [formatDiscussionItem] are the same in the three revisions. *)

From Stdlib Require Import ZArith.

Module Part000.

Section Program.

Variable net : Type.
Variable url_ok : gostring -> bool.
Variable roundTrip : gostring -> net -> http_reply * net.
Variable unmarshalResponse : gostring -> res (list Product).
Variable unmarshalProduct : gostring -> res Product.

(** [main] *)
Definition main : M net unit :=
  let client := NewNWSClient (str "PHI") in
  mbind (GetAFD url_ok roundTrip unmarshalResponse unmarshalProduct client) (fun r =>
  match r with
  | Bad err => log_Fatal err
  | Good afd => Println (ProductText afd)
  end).

End Program.

Arguments main {net} url_ok roundTrip unmarshalResponse unmarshalProduct _.

End Part000.

Module Part001.

Section Extractor.

Variable U : CaseTables.

(** [sanitizeString] *)
Definition sanitizeString (s : gostring) : outcome gostring :=
  leadingTrailingWhitespaceRe <- MustCompile (str "^[\s\p{Zs}]+|[\s\p{Zs}]+$") ;;
  insideWhitespaceRe <- MustCompile (str "[\s\p{Zs}]{2,}") ;;
  newlineWhitespaceRe <- MustCompile (str "[\n\t\r]") ;;
  let output := ReplaceAllString U leadingTrailingWhitespaceRe s (str "") in
  let output := ReplaceAllString U insideWhitespaceRe output (str " ") in
  let output := ReplaceAllString U newlineWhitespaceRe output (str "") in
  Ret output.

(** The [switch] of [GetDiscussionSection] on the lower-cased name; without
    a matching case [reTerm] keeps its zero value. *)
Definition reTerm_of (sectionName : gostring) : gostring :=
  if gostring_eqb sectionName (str "synopsis") then str "SYNOPSIS"
  else if gostring_eqb sectionName (str "marine") then str "MARINE"
  else if gostring_eqb sectionName (str "aviation") then str "AVIATION"
  else [].

Definition section_pattern (reTerm : gostring) : gostring :=
  str "(\." ++ reTerm ++ str "\.\.\.)\s?([^&&]*)".

(** [(s *Product) GetDiscussionSection] *)
Definition GetDiscussionSection (s : Product) (sectionName : gostring) : outcome (res gostring) :=
  let sectionName := ToLower U sectionName in
  let reTerm := reTerm_of sectionName in
  re <- MustCompile (section_pattern reTerm) ;;
  let result := FindStringSubmatch U re (ProductText s) in
  match result with
  | None => Ret (Bad (not_found_message sectionName))
  | Some l =>
      if List.length l <? 3 then Ret (Bad (not_found_message sectionName))
      else
        section <- sanitizeString (nth 2 l []) ;;
        Ret (Good (formatDiscussionItem U sectionName section))
  end.

End Extractor.

(** [User], whose [Phone] is a number in this revision. *)
Record User : Type := {
  ID : Z;
  FirstName : gostring;
  LastName : gostring;
  LocationID : gostring;
  Phone : Z;
  Subscriptions : list gostring
}.

Section Program.

Variable U : CaseTables.
Variable net : Type.
Variable url_ok : gostring -> bool.
Variable roundTrip : gostring -> net -> http_reply * net.
Variable unmarshalResponse : gostring -> res (list Product).
Variable unmarshalProduct : gostring -> res Product.

(** The loop of [GetSubscribedSections] over the subscriptions. *)
Fixpoint sections_loop (afd : Product) (subscriptions : list gostring)
         (sections : list gostring) : M net (list gostring) :=
  match subscriptions with
  | [] => mret sections
  | subscription :: rest =>
      mbind (lift (GetDiscussionSection U afd subscription)) (fun r =>
      match r with
      | Bad _ =>
          mbind (Println (str "Missing section")) (fun _ =>
          sections_loop afd rest (sections ++ [[]]))
      | Good section => sections_loop afd rest (sections ++ [section])
      end)
  end.

(** [(s User) GetSubscribedSections] *)
Definition GetSubscribedSections (s : User) : M net (list gostring) :=
  let client := NewNWSClient (LocationID s) in
  mbind (GetAFD url_ok roundTrip unmarshalResponse unmarshalProduct client) (fun r =>
  match r with
  | Bad err => log_Fatal err
  | Good afd =>
      let sections := repeat [] (List.length (Subscriptions s)) in   (* make([]string, len) *)
      sections_loop afd (Subscriptions s) sections
  end).

(** [fmt.Println] of a slice of strings: the elements between brackets,
    with one space between two of them. *)
Fixpoint join_strings (l : list gostring) : gostring :=
  match l with
  | [] => []
  | x :: l' =>
      match l' with
      | [] => x
      | _ :: _ => x ++ ch " " :: join_strings l'
      end
  end.

Definition format_strings (l : list gostring) : gostring :=
  ch "[" :: join_strings l ++ [ch "]"].

(** [main], from the contents of [users.json]: the first subscriber only;
    indexing an empty list panics. *)
Definition main (usersFile : res (list User)) : M net unit :=
  match usersFile with
  | Bad err => log_Fatal err
  | Good users =>
      match users with
      | [] => lift Panic
      | user1 :: _ =>
          mbind (GetSubscribedSections user1) (fun discussionSections =>
          Println (format_strings discussionSections))
      end
  end.

End Program.

Arguments sections_loop U {net} afd subscriptions sections _.
Arguments GetSubscribedSections U {net} url_ok roundTrip unmarshalResponse unmarshalProduct s _.
Arguments main U {net} url_ok roundTrip unmarshalResponse unmarshalProduct usersFile _.

End Part001.

(* ================================================================== *)
(** * Vocabulary of the properties

    The compiled patterns of the program, what each replacement of
    [sanitizeString] computes, and the notions the properties below are
    stated with. *)

(** ** The four patterns of [sanitizeString], compiled *)

Definition ws_class : atom := AClass false [CPerlSpace; CZs].

Definition not_nl_class : atom := AClass true [CRange 10%N 10%N].

Definition leadingTrailingWhitespaceRe : Regexp :=
  {| re_tree := RAlt (RCat RBeginText (RCat (RRep true 1 None ws_class) REmpty))
                     (RCat (RRep true 1 None ws_class) (RCat REndText REmpty));
     re_ncap := 0 |}.

Definition multipleNewlineRe : Regexp :=
  {| re_tree := RCat (RGroup 1 (RCat (RAtom not_nl_class) REmpty))
                  (RCat (RGroup 2 (RCat (RAtom (ALit false 10%N)) REmpty))
                     (RCat (RGroup 3 (RCat (RAtom not_nl_class) REmpty)) REmpty));
     re_ncap := 3 |}.

Definition multipleSpacesRe : Regexp :=
  {| re_tree := RCat (RRep true 2 None (ALit false 32%N)) REmpty; re_ncap := 0 |}.

Definition tabRe : Regexp :=
  {| re_tree := RCat (RAtom (AClass false [CRange 9%N 9%N; CRange 13%N 13%N])) REmpty;
     re_ncap := 0 |}.

(** ** What each replacement computes *)

Definition space : rune := 32%N.

Definition is_nl (r : rune) : bool := rune_eqb r newline.

Definition is_space (r : rune) : bool := rune_eqb r space.

Definition is_tab_cr (r : rune) : bool := rune_eqb r 9%N || rune_eqb r 13%N.

(** The class [[\s\p{Zs}]]. *)
Definition is_space_sep (r : rune) : bool := is_perl_space r || is_Zs r.

(** Leading runes of the class dropped. *)
Fixpoint ltrim (s : gostring) : gostring :=
  match s with
  | x :: s' => if is_space_sep x then ltrim s' else s
  | [] => []
  end.

(** The trailing run of the class dropped. *)
Fixpoint rtrim (s : gostring) : gostring :=
  match s with
  | x :: s' => if forallb is_space_sep s then [] else x :: rtrim s'
  | [] => []
  end.

Definition trim (s : gostring) : gostring := rtrim (ltrim s).

(** Left to right: a newline between two runes that are not newlines is
    dropped and the search resumes after the rune that followed it. *)
Fixpoint join_lines (s : gostring) : gostring :=
  match s with
  | a :: s1 =>
      match s1 with
      | b :: c :: t =>
          if negb (is_nl a) && is_nl b && negb (is_nl c)
          then a :: c :: join_lines t
          else a :: join_lines s1
      | _ => a :: join_lines s1
      end
  | [] => []
  end.

(** Every maximal run of two or more spaces dropped; [in_run] tells that
    the runes before belong to such a run. *)
Fixpoint del_runs (in_run : bool) (s : gostring) : gostring :=
  match s with
  | x :: s' =>
      if is_space x then
        if in_run then del_runs true s'
        else
          match s' with
          | y :: _ => if is_space y then del_runs true s' else x :: del_runs false s'
          | [] => [x]
          end
      else x :: del_runs false s'
  | [] => []
  end.

(** The length of the longest prefix of runes satisfying [f]. *)
Fixpoint run_len (f : rune -> bool) (s : gostring) : nat :=
  match s with
  | x :: s' => if f x then S (run_len f s') else 0
  | [] => 0
  end.

Definition strip_tabs (s : gostring) : gostring := filter (fun r => negb (is_tab_cr r)) s.

(** The four replacements of [sanitizeString], one after the other. *)
Definition sanitize (s : gostring) : gostring :=
  strip_tabs (del_runs false (join_lines (trim s))).

(** ** The pattern of [GetDiscussionSection] *)

(** The runes with a meaning of their own in a pattern. *)
Definition is_meta (c : rune) : bool :=
  rune_eqb c (ch "(") || rune_eqb c (ch ")") || rune_eqb c (ch "|")
  || rune_eqb c (ch "*") || rune_eqb c (ch "+") || rune_eqb c (ch "?")
  || rune_eqb c (ch "{") || rune_eqb c (ch "[") || rune_eqb c (ch "\")
  || rune_eqb c (ch ".") || rune_eqb c (ch "^") || rune_eqb c (ch "$").

(** A name made of runes that stand for themselves. *)
Definition plain (name : gostring) : bool := forallb (fun c => negb (is_meta c)) name.

Definition dot : rune := 46%N.

Definition amp : rune := 38%N.

Definition is_delim (r : rune) : bool := rune_eqb r dot || is_perl_space r.

Definition delim_class : atom := AClass false [CRange 46%N 46%N; CPerlSpace].

Definition fold_lit (r : rune) : regex := RAtom (ALit true r).

Definition section_tail : list regex :=
  [RRep true 1 None delim_class;
   RGroup 1 (RCat (RRep false 1 None (AAny true)) REmpty);
   fold_lit amp; fold_lit amp].

(** The compiled pattern for a plain upper-cased name. *)
Definition section_re (NAME : gostring) : Regexp :=
  {| re_tree := cat_list (fold_lit dot :: map fold_lit NAME ++ section_tail);
     re_ncap := 1 |}.

(** ** Steps of the search *)

(** A repetition that stops: allowed once the minimum is reached. *)
Definition stop_here (lo p : nat) (s : gostring) (k : nat -> gostring -> option caps) : option caps :=
  match lo with O => k p s | S _ => None end.

(** The first alternative that succeeds. *)
Definition or_else (x y : option caps) : option caps :=
  match x with Some c => Some c | None => y end.

(** [s] starts with two ampersands. *)
Definition amp2 (s : gostring) : bool :=
  match s with
  | a :: b :: _ => rune_eqb a amp && rune_eqb b amp
  | _ => false
  end.

(** After the body: the two ampersands close the match that began at [p0]
    with the body from [p2] to [p3]. *)
Definition k_body (p0 p2 : nat) (p3 : nat) (s3 : gostring) : option caps :=
  if amp2 s3 then Some [Some (p0, p3 + 2); Some (p2, p3)] else None.

(** Two ampersands somewhere in [s]. *)
Fixpoint has_amp2 (s : gostring) : bool :=
  match s with
  | _ :: s' => amp2 s || has_amp2 s'
  | [] => false
  end.

(** A body that the pattern captures whole: it begins with a rune that is
    no delimiter, and no two ampersands begin after its first rune, its last
    rune and the terminator included. *)
Definition body_ok (body : gostring) : bool :=
  match body with
  | x :: t => negb (is_delim x) && negb (has_amp2 (t ++ [amp]))
  | [] => false
  end.

(** A product with the given text. *)
Definition product_of_text (text : gostring) : Product :=
  {| ProductID := []; WmoCollectiveID := []; IssuingOffice := []; IssuanceTime := [];
     ProductCode := []; ProductName := []; ProductText := text |}.

(** ** Shapes of a text *)

Definition no_tab_cr (s : gostring) : bool := forallb (fun r => negb (is_tab_cr r)) s.

(** The second step as the specification words it: every newline that sits
    between two runes that are not newlines is dropped; [prev] is the rune
    before [s] in the text. *)
Fixpoint drop_lone_newlines (prev : option rune) (s : gostring) : gostring :=
  match s with
  | b :: s' =>
      let lone :=
        is_nl b
        && match prev with Some a => negb (is_nl a) | None => false end
        && match s' with c :: _ => negb (is_nl c) | [] => false end in
      if lone then drop_lone_newlines (Some b) s' else b :: drop_lone_newlines (Some b) s'
  | [] => []
  end.

(** The normalizer as the specification words it: trim, drop every lone
    newline, delete the runs of two or more spaces, remove tabs and carriage
    returns. *)
Definition normalize_spec (s : gostring) : gostring :=
  strip_tabs (del_runs false (drop_lone_newlines None (trim s))).

Definition three_lines : gostring := str "a" ++ newline :: str "b" ++ newline :: str "c".

(** No newline of [s] sits between two runes that are not newlines;
    [prev] tells that the rune before [s] is there and is not a newline. *)
Fixpoint lone_free_from (prev : bool) (s : gostring) : bool :=
  match s with
  | b :: s' =>
      negb (is_nl b && prev && match s' with c :: _ => negb (is_nl c) | [] => false end)
      && lone_free_from (negb (is_nl b)) s'
  | [] => true
  end.

Definition lone_free (s : gostring) : bool := lone_free_from false s.

(** No two spaces in a row. *)
Fixpoint no_double_space (s : gostring) : bool :=
  match s with
  | x :: s' =>
      negb (is_space x && match s' with y :: _ => is_space y | [] => false end)
      && no_double_space s'
  | [] => true
  end.

(** No nonempty tail of [s] is made of white space only. *)
Fixpoint no_space_tail (s : gostring) : bool :=
  match s with
  | x :: s' => negb (forallb is_space_sep s) && no_space_tail s'
  | [] => true
  end.

Definition head_not_space_sep (s : gostring) : bool :=
  match s with x :: _ => negb (is_space_sep x) | [] => true end.

Definition next_not_nl (s : gostring) : bool :=
  match s with c :: _ => negb (is_nl c) | [] => false end.

(** No two newlines that each sit between two runes that are not newlines
    are two runes apart: [s] has no five runes in a row of which the second
    and the fourth are newlines and the three others are not. *)
Fixpoint no_lone_pair (s : gostring) : bool :=
  match s with
  | a :: s1 =>
      negb (match s1 with
            | b :: c :: d :: e :: _ =>
                negb (is_nl a) && is_nl b && negb (is_nl c) && is_nl d && negb (is_nl e)
            | _ => false
            end)
      && no_lone_pair s1
  | [] => true
  end.

(** With [prev] telling that the rune before [s] is there and is not a
    newline: [s] does not begin with a newline that sits between two runes
    that are not newlines. *)
Definition head_not_lone (prev : bool) (s : gostring) : bool :=
  negb (prev && match s with b :: c :: _ => is_nl b && negb (is_nl c) | _ => false end).

Section Vocabulary.

Variable U : CaseTables.

(** The first [n] runes of [s] exist and match the operator. *)
Fixpoint prefix_ok (a : atom) (n : nat) (s : gostring) : bool :=
  match n with
  | O => true
  | S n' =>
      match s with
      | x :: s' => atom_match U a x && prefix_ok a n' s'
      | [] => false
      end
  end.

(** A pattern whose matches are never empty. *)
Definition nonempty_matches (re : Regexp) : Prop :=
  forall p s a, match_here U re p s = Some a ->
  exists n, 0 < n /\ nth 0 a None = Some (p, p + n).

(** The loop at a point where everything before [rest] has been copied or
    replaced. *)
Definition loop_at (fuel : nat) (re : Regexp) (repl pre rest buf : gostring) : gostring :=
  replaceAll_loop U fuel re (pre ++ rest) repl (List.length pre) (List.length pre) buf.

(** The head of [s] matches the literals of [name] under the fold flag. *)
Fixpoint fold_prefix (name s : gostring) : bool :=
  match name with
  | [] => true
  | r0 :: name' =>
      match s with
      | x :: s' => lit_match U true r0 x && fold_prefix name' s'
      | [] => false
      end
  end.

(** After the delimiter: the lazy body. *)
Definition k_delim (p0 : nat) (p2 : nat) (s2 : gostring) : option caps :=
  rep U (AAny true) false 1 None p2 s2 (k_body p0 p2).

End Vocabulary.

(** ** Sections of a product text *)

(** A section header begins [s]: the dot, the name under the fold flag, and
    at least one delimiter rune. *)
Definition header_at (U : CaseTables) (NAME s : gostring) : bool :=
  fold_prefix U (dot :: NAME) s
  && match skipn (S (List.length NAME)) s with
     | x :: _ => is_delim x
     | [] => false
     end.

Definition no_header_before (U : CaseTables) (NAME text : gostring) (n : nat) : bool :=
  forallb (fun i => negb (header_at U NAME (skipn i text))) (seq 0 n).

(** Case tables that leave every rune above U+007F alone, for examples
    written in ASCII (on which the tables are not consulted). *)
Definition ascii_tables : CaseTables :=
  {| uni_upper := fun r => r; uni_lower := fun r => r; uni_orbit := fun _ _ => false |}.

(** A raw text with a section [.SYNOPSIS...<body>&&] in it. *)
Definition synopsis_text (pre body post : gostring) : gostring :=
  pre ++ str ".SYNOPSIS..." ++ body ++ str "&&" ++ post.


(** A section of the text as the pattern reads it: a header (the dot and
    the name, under the fold flag), one or more delimiter runes, a body of at
    least one rune, two ampersands. *)
Definition section_at (U : CaseTables) (NAME text pre hdr delim body rest : gostring) : Prop :=
  text = pre ++ hdr ++ delim ++ body ++ amp :: amp :: rest
  /\ fold_prefix U (dot :: NAME) hdr = true
  /\ List.length hdr = S (List.length NAME)
  /\ delim <> []
  /\ forallb is_delim delim = true
  /\ body <> [].

Definition has_section (U : CaseTables) (NAME text : gostring) : Prop :=
  exists pre hdr delim body rest, section_at U NAME text pre hdr delim body rest.



(** The header of the section, followed somewhere by the terminator. *)
Definition header_then_terminator (U : CaseTables) (NAME text : gostring) : Prop :=
  exists pre hdr delim mid rest,
    text = pre ++ hdr ++ delim ++ mid ++ amp :: amp :: rest
    /\ fold_prefix U (dot :: NAME) hdr = true
    /\ List.length hdr = S (List.length NAME)
    /\ delim <> [] /\ forallb is_delim delim = true.

(** The extractor fails with the error that names the section exactly when
    [present] does not hold, and succeeds otherwise. *)
Definition not_found_unless (present : Prop) (U : CaseTables) (text sectionName : gostring) : Prop :=
  let NAME := ToUpper U (ToLower U sectionName) in
  (present -> exists out,
      GetDiscussionSection U (product_of_text text) sectionName = Ret (Good out))
  /\ (~ present ->
      GetDiscussionSection U (product_of_text text) sectionName
      = Ret (Bad (not_found_message NAME))).

(** ** The properties as the specification states them *)

(** The text after the heading has no terminator, no tab and no carriage
    return in it. *)
Definition clean_section_text (U : CaseTables) (text sectionName : gostring) : Prop :=
  forall body,
    GetDiscussionSection U (product_of_text text) sectionName
    = Ret (Good (formatDiscussionItem U (ToUpper U (ToLower U sectionName)) body)) ->
    has_amp2 body = false /\ no_tab_cr body = true.

Definition sanitize_twice_same (U : CaseTables) (x : gostring) : Prop :=
  (y <- sanitizeString U x ;; sanitizeString U y) = sanitizeString U x.

Section ProgramVocabulary.

Variable U : CaseTables.
Variable net : Type.
Variable url_ok : gostring -> bool.
Variable roundTrip : gostring -> net -> http_reply * net.
Variable unmarshalResponse : gostring -> res (list Product).
Variable unmarshalProduct : gostring -> res Product.
Variable sendSMS : gostring -> gostring -> gostring -> net -> option gostring * net.

(** What the process printed and sent, apart from the state of the network. *)
Definition same_output (w w' : world net) : Prop :=
  w_stdout w' = w_stdout w /\ w_sent w' = w_sent w.

(** The entry of a subscription: the section text, or the empty string of a
    miss. *)
Definition entry (afd : Product) (subscription : gostring) : gostring :=
  match GetDiscussionSection U afd subscription with
  | Ret (Good section) => section
  | _ => []
  end.

(** After a fetch that fails for one subscriber the batch goes on with the
    subscribers after it: what is printed and sent is what the rest of the
    batch prints and sends. *)
Definition batch_continues : Prop :=
  forall (config : Config) (user : User) (rest : list User) (w w1 : world net) (err : gostring),
    GetAFD url_ok roundTrip unmarshalResponse unmarshalProduct
      (NewNWSClient (LocationID user)) w = (Ret (Bad err), w1) ->
    snd (users_loop U url_ok roundTrip unmarshalResponse unmarshalProduct sendSMS
           config (user :: rest) w)
    = snd (users_loop U url_ok roundTrip unmarshalResponse unmarshalProduct sendSMS
             config rest w1).

End ProgramVocabulary.

Arguments same_output {net} w w'.

(* ------------------------------------------------------------------ *)
(** ** A small world for the examples

    A weather service that lists one product, [p1], for the office PHI and
    answers 404 for everything else, and a messaging provider that accepts
    every message. *)

Definition demo_product : Product :=
  {| ProductID := str "p1"; WmoCollectiveID := []; IssuingOffice := str "PHI";
     IssuanceTime := []; ProductCode := str "AFD"; ProductName := [];
     ProductText := str ".SYNOPSIS...Rain.&&.MARINE...Calm.&&" |}.

Definition demo_roundTrip (uri : gostring) (n : unit) : http_reply * unit :=
  if gostring_eqb uri (str "https://api.weather.gov/products/types/afd/locations/PHI")
  then (Reply 200 (str "listing"), n)
  else if gostring_eqb uri (str "https://api.weather.gov/products/p1")
  then (Reply 200 (str "detail"), n)
  else (Reply 404 (str "Not Found"), n).

Definition demo_unmarshalResponse (body : gostring) : res (list Product) := Good [demo_product].

Definition demo_unmarshalProduct (body : gostring) : res Product := Good demo_product.

Definition demo_sendSMS (from to body : gostring) (n : unit) : option gostring * unit := (None, n).

Definition demo_url_ok (uri : gostring) : bool := true.

Definition demo_world : world unit := {| w_net := tt; w_stdout := []; w_sent := [] |}.

(** A listing with two products, of which [demo_product] is the second. *)
Definition old_product : Product :=
  {| ProductID := str "p0"; WmoCollectiveID := []; IssuingOffice := str "PHI";
     IssuanceTime := []; ProductCode := str "AFD"; ProductName := [];
     ProductText := str ".SYNOPSIS...Fog.&&" |}.

Definition two_unmarshalResponse (body : gostring) : res (list Product) :=
  Good [demo_product; old_product].

Definition demo_config : Config :=
  {| TwillioAccountSID := str "sid"; TwillioAuthToken := str "token";
     TwillioFromPhone := str "+15550100" |}.

(** A subscriber of an office the service does not know, and one of PHI. *)
Definition ann : User :=
  {| ID := 1%N; FirstName := str "Ann"; LastName := []; LocationID := str "XYZ";
     Phone := str "+15550101"; Subscriptions := [str "synopsis"] |}.

Definition bob : User :=
  {| ID := 2%N; FirstName := str "Bob"; LastName := []; LocationID := str "PHI";
     Phone := str "+15550102"; Subscriptions := [str "aviation"; str "marine"] |}.

(* ------------------------------------------------------------------ *)
(** ** Further notions

    What [sanitizeString] keeps, the URIs of the forecast client, the
    messages of the batch, and the patterns and replacements of the earlier
    revision. *)

(** The runes of [s] outside the class [[\s\p{Zs}]], in order. *)
Definition visible (s : gostring) : gostring := filter (fun r => negb (is_space_sep r)) s.

(** Every rune of [s] is in the class [[\s\p{Zs}]]. *)
Definition blank (s : gostring) : bool := forallb is_space_sep s.

(** Neither the first nor the last rune of [s] is white space. *)
Definition trimmed (s : gostring) : bool :=
  head_not_space_sep s && head_not_space_sep (rev s).

(** A name written in ASCII. *)
Definition ascii_name (name : gostring) : bool := forallb (fun r => N.leb r MaxASCII) name.

(** A raw text with a section of the name in it: the header, the
    delimiter runes, the body, the terminator. *)
Definition section_text (pre hdr delim body post : gostring) : gostring :=
  pre ++ hdr ++ delim ++ body ++ amp :: amp :: post.

(** The URI of the listing of the forecast discussions of the client's
    office, and the URI of the detail of one product. *)
Definition listing_uri (s : NWSClient) : gostring :=
  BaseURI s ++ str "/products/types/" ++ str "afd" ++ str "/locations/" ++ ClientLocationID s.

Definition detail_uri (s : NWSClient) (productID : gostring) : gostring :=
  BaseURI s ++ str "/products/" ++ productID.

(** The subscription is reported as missing in the product. *)
Definition is_miss (U : CaseTables) (afd : Product) (subscription : gostring) : bool :=
  match GetDiscussionSection U afd subscription with
  | Ret (Bad _) => true
  | _ => false
  end.

Definition misses (U : CaseTables) (afd : Product) (subscriptions : list gostring) : nat :=
  List.length (filter (is_miss U afd) subscriptions).

(** The message handed to the provider for one string of a subscriber. *)
Definition message (config : Config) (user : User) (body : gostring)
  : gostring * gostring * gostring :=
  (TwillioFromPhone config, Phone user, body).

(** The number of subscriptions of all the subscribers. *)
Definition total_subscriptions (users : list User) : nat :=
  list_sum (map (fun u => List.length (Subscriptions u)) users).

(** A subscriber whose office identifier has a line break in it. *)
Definition eve : User :=
  {| ID := 3%N; FirstName := str "Eve"; LastName := []; LocationID := newline :: str "PHI";
     Phone := str "+15550103"; Subscriptions := [str "synopsis"] |}.

(** [http.NewRequest] refusing the URIs with a control character in them. *)
Definition strict_url_ok (uri : gostring) : bool := forallb (fun r => N.leb 32 r) uri.

(** A listing whose first product has a line break in its identifier. *)
Definition odd_product : Product :=
  {| ProductID := str "p" ++ [newline]; WmoCollectiveID := []; IssuingOffice := str "PHI";
     IssuanceTime := []; ProductCode := str "AFD"; ProductName := []; ProductText := [] |}.

Definition odd_unmarshalResponse (body : gostring) : res (list Product) :=
  Good [odd_product; demo_product].

(** The world after a request that left the network in state [n]. *)
Definition after_request {net : Type} (w : world net) (n : net) : world net :=
  {| w_net := n; w_stdout := w_stdout w; w_sent := w_sent w |}.

(** A subscriber of PHI whose second subscription is an open parenthesis. *)
Definition pat : User :=
  {| ID := 4%N; FirstName := str "Pat"; LastName := []; LocationID := str "PHI";
     Phone := str "+15550104"; Subscriptions := [str "climate"; str "("] |}.

(** What was printed and sent before is still there, with more after it. *)
Definition grows {net : Type} (w w' : world net) : Prop :=
  (exists printed, w_stdout w' = w_stdout w ++ printed)
  /\ (exists sent, w_sent w' = w_sent w ++ sent).

(** ** The earlier normalizer *)

Definition insideWhitespaceRe : Regexp :=
  {| re_tree := RCat (RRep true 2 None ws_class) REmpty; re_ncap := 0 |}.

Definition break_class : atom :=
  AClass false [CRange 10%N 10%N; CRange 9%N 9%N; CRange 13%N 13%N].

Definition newlineWhitespaceRe : Regexp :=
  {| re_tree := RCat (RAtom break_class) REmpty; re_ncap := 0 |}.

(** A newline, a tab or a carriage return. *)
Definition is_break (r : rune) : bool := is_nl r || is_tab_cr r.

(** Every maximal run of two or more white-space runes replaced by one
    space; [in_run] tells that the runes before belong to such a run. *)
Fixpoint squeeze (in_run : bool) (s : gostring) : gostring :=
  match s with
  | x :: s' =>
      if is_space_sep x then
        if in_run then squeeze true s'
        else
          match s' with
          | y :: _ => if is_space_sep y then space :: squeeze true s' else x :: squeeze false s'
          | [] => [x]
          end
      else x :: squeeze false s'
  | [] => []
  end.

Definition strip_breaks (s : gostring) : gostring := filter (fun r => negb (is_break r)) s.

(** The three replacements of the earlier [sanitizeString], one after the
    other. *)
Definition sanitize1 (s : gostring) : gostring := strip_breaks (squeeze false (trim s)).

(** No two white-space runes in a row. *)
Fixpoint no_double_sep (s : gostring) : bool :=
  match s with
  | x :: s' =>
      negb (is_space_sep x && match s' with y :: _ => is_space_sep y | [] => false end)
      && no_double_sep s'
  | [] => true
  end.

Definition no_break (s : gostring) : bool := forallb (fun r => negb (is_break r)) s.

(** ** The earlier pattern of [GetDiscussionSection] *)

Definition lit (r : rune) : regex := RAtom (ALit false r).

Definition space_class : atom := AClass false [CPerlSpace].

Definition not_amp_class : atom := AClass true [CRange 38%N 38%N; CRange 38%N 38%N].

(** The header the pattern asks for: a dot, the term, three dots. *)
Definition header1 (reTerm : gostring) : gostring := dot :: reTerm ++ [dot; dot; dot].

(** The compiled pattern. *)
Definition section_re1 (reTerm : gostring) : Regexp :=
  {| re_tree :=
       RCat (RGroup 1 (cat_list (map lit (header1 reTerm))))
         (RCat (RRep true 0 (Some 1) space_class)
            (RCat (RGroup 2 (RCat (RRep true 0 None not_amp_class) REmpty)) REmpty));
     re_ncap := 2 |}.

(** [s] begins with the runes of [hdr]. *)
Fixpoint starts_with (hdr s : gostring) : bool :=
  match hdr with
  | [] => true
  | r0 :: hdr' =>
      match s with
      | x :: s' => rune_eqb x r0 && starts_with hdr' s'
      | [] => false
      end
  end.

(** The index of the first occurrence of [hdr] in [s]. *)
Fixpoint index_of (hdr s : gostring) : option nat :=
  if starts_with hdr s then Some 0
  else
    match s with
    | _ :: s' => option_map S (index_of hdr s')
    | [] => None
    end.

Definition is_not_amp (r : rune) : bool := negb (rune_eqb r amp).

(** One white-space rune of [\s] at the head of [s], if there is one. *)
Definition space_len (s : gostring) : nat :=
  match s with
  | x :: _ => if is_perl_space x then 1 else 0
  | [] => 0
  end.

(** What the second group takes of the text after the header: after one
    optional white-space rune, the runes up to the first ampersand or the end
    of the text. *)
Definition body1 (rest : gostring) : gostring :=
  let r := skipn (space_len rest) rest in
  firstn (run_len is_not_amp r) r.

(** The submatches of a match at [p0], [s1] being the text after the
    header. *)
Definition caps1 (h p0 : nat) (s1 : gostring) : caps :=
  let w := space_len s1 in
  let n := run_len is_not_amp (skipn w s1) in
  [Some (p0, p0 + h + w + n); Some (p0, p0 + h); Some (p0 + h + w, p0 + h + w + n)].

Definition no_amp (s : gostring) : bool := forallb is_not_amp s.

(** ** The earlier resolver *)

(** The entry of a subscription in the earlier revision, and the
    subscriptions reported as missing. *)
Definition entry1 (U : CaseTables) (afd : Product) (subscription : gostring) : gostring :=
  match Part001.GetDiscussionSection U afd subscription with
  | Ret (Good section) => section
  | _ => []
  end.

Definition is_miss1 (U : CaseTables) (afd : Product) (subscription : gostring) : bool :=
  match Part001.GetDiscussionSection U afd subscription with
  | Ret (Bad _) => true
  | _ => false
  end.

Definition misses1 (U : CaseTables) (afd : Product) (subscriptions : list gostring) : nat :=
  List.length (filter (is_miss1 U afd) subscriptions).

(** A subscriber of PHI in the earlier revision. *)
Definition bob1 : Part001.User :=
  {| Part001.ID := 2%Z; Part001.FirstName := str "Bob"; Part001.LastName := [];
     Part001.LocationID := str "PHI"; Part001.Phone := 15550102%Z;
     Part001.Subscriptions := [str "aviation"; str "marine"] |}.

(* ================================================================== *)
(** * Facts about lists and slices *)

Lemma skipn_pre (A : Type) (pre rest : list A) : skipn (List.length pre) (pre ++ rest) = rest.
Proof. induction pre as [|x pre IH]; simpl; auto. Qed.

Lemma firstn_pre (A : Type) (pre rest : list A) : firstn (List.length pre) (pre ++ rest) = pre.
Proof. induction pre as [|x pre IH]; simpl; [destruct rest|]; congruence. Qed.

Lemma slice_mid (pre mid rest : gostring) :
  slice (pre ++ mid ++ rest) (List.length pre) (List.length pre + List.length mid) = mid.
Proof.
  unfold slice. rewrite skipn_pre.
  replace (List.length pre + List.length mid - List.length pre) with (List.length mid) by lia.
  apply firstn_pre.
Qed.

Lemma slice_empty (s : gostring) (i : nat) : slice s i i = [].
Proof. unfold slice. now rewrite Nat.sub_diag. Qed.

(* ================================================================== *)
(** * Facts about the search and the replacement loop *)

Section LoopFacts.

Variable U : CaseTables.

(** What [find_from] returns is the match at the first position that has
    one. *)
Lemma find_from_inv (re : Regexp) (s : gostring) :
  forall p a, find_from U re p s = Some a ->
  exists i, i <= List.length s
            /\ match_here U re (p + i) (skipn i s) = Some a
            /\ forall j, j < i -> match_here U re (p + j) (skipn j s) = None.
Proof.
  induction s as [|x s IH]; intros p a H; simpl in H.
  - destruct (match_here U re p []) eqn:E; [|discriminate].
    exists 0. rewrite Nat.add_0_r. simpl. split; [lia|]. split; [congruence|]. intros; lia.
  - destruct (match_here U re p (x :: s)) eqn:E.
    + exists 0. rewrite Nat.add_0_r. simpl. split; [lia|]. split; [congruence|]. intros; lia.
    + destruct (IH _ _ H) as (i & Hi & Hm & Hn).
      exists (S i). simpl. rewrite Nat.add_succ_r. split; [lia|]. split; [exact Hm|].
      intros [|j] Hj; simpl.
      * now rewrite Nat.add_0_r.
      * rewrite Nat.add_succ_r. apply Hn. lia.
Qed.

Lemma find_from_none (re : Regexp) (s : gostring) :
  forall p, find_from U re p s = None <->
            forall j, j <= List.length s -> match_here U re (p + j) (skipn j s) = None.
Proof.
  induction s as [|x s IH]; intros p; simpl.
  - split.
    + intros H j Hj. assert (j = 0) as -> by lia. rewrite Nat.add_0_r. simpl.
      destruct (match_here U re p []); [discriminate|reflexivity].
    + intros H. specialize (H 0 (le_n _)). rewrite Nat.add_0_r in H. simpl in H. now rewrite H.
  - split.
    + intros H [|j] Hj.
      * rewrite Nat.add_0_r. simpl. destruct (match_here U re p (x :: s)); [discriminate|reflexivity].
      * destruct (match_here U re p (x :: s)); [discriminate|].
        rewrite Nat.add_succ_r. simpl. apply (proj1 (IH (S p)) H). lia.
    + intros H. pose proof (H 0 (Nat.le_0_l _)) as H0. rewrite Nat.add_0_r in H0. simpl in H0.
      rewrite H0. apply IH. intros j Hj. specialize (H (S j)). rewrite Nat.add_succ_r in H.
      apply H. lia.
Qed.

Lemma replaceAll_loop_S (fuel : nat) (re : Regexp) (src repl : gostring)
      (lastMatchEnd searchPos : nat) (buf : gostring) :
  replaceAll_loop U (S fuel) re src repl lastMatchEnd searchPos buf
  = if List.length src <? searchPos then buf ++ skipn lastMatchEnd src
    else
      match doExecute U re src searchPos with
      | None => buf ++ skipn lastMatchEnd src
      | Some a =>
          match nth 0 a None with
          | None => buf ++ skipn lastMatchEnd src
          | Some (a0, a1) =>
              replaceAll_loop U fuel re src repl a1
                (if a1 <? searchPos + 1 then searchPos + 1 else a1)
                (if (lastMatchEnd <? a1) || (a0 =? 0)
                 then (buf ++ slice src lastMatchEnd a0) ++ expand repl 0 src a
                 else buf ++ slice src lastMatchEnd a0)
          end
      end.
Proof. reflexivity. Qed.

Lemma loop_end (fuel : nat) (re : Regexp) (repl pre rest buf : gostring) :
  find_from U re (List.length pre) rest = None ->
  loop_at U (S fuel) re repl pre rest buf = buf ++ rest.
Proof.
  intros H. unfold loop_at. simpl.
  unfold doExecute. rewrite skipn_pre, H.
  destruct (_ <? _); reflexivity.
Qed.

Lemma loop_match (fuel : nat) (re : Regexp) (repl pre m1 rest buf : gostring) (a : caps) :
  match_here U re (List.length pre) (m1 ++ rest) = Some a ->
  nth 0 a None = Some (List.length pre, List.length pre + List.length m1) ->
  m1 <> [] ->
  loop_at U (S fuel) re repl pre (m1 ++ rest) buf
  = loop_at U fuel re repl (pre ++ m1) rest (buf ++ expand repl 0 (pre ++ m1 ++ rest) a).
Proof.
  intros Hm H0 Hne. unfold loop_at. rewrite replaceAll_loop_S.
  assert (List.length m1 > 0) by (destruct m1; simpl; [congruence|lia]).
  rewrite (proj2 (Nat.ltb_ge (List.length (pre ++ m1 ++ rest)) (List.length pre)))
    by (rewrite length_app; lia).
  unfold doExecute. rewrite skipn_pre.
  assert (find_from U re (List.length pre) (m1 ++ rest) = Some a) as ->.
  { destruct m1; [congruence|]. simpl in *. now rewrite Hm. }
  rewrite H0, slice_empty, app_nil_r.
  rewrite (proj2 (Nat.ltb_lt (List.length pre) (List.length pre + List.length m1))) by lia.
  rewrite (proj2 (Nat.ltb_ge (List.length pre + List.length m1) (List.length pre + 1))) by lia.
  simpl orb. cbv iota. rewrite <- app_assoc, length_app. reflexivity.
Qed.

Lemma loop_skip (fuel : nat) (re : Regexp) (repl pre rest buf : gostring) (x : rune) :
  nonempty_matches U re ->
  match_here U re (List.length pre) (x :: rest) = None ->
  loop_at U (S fuel) re repl pre (x :: rest) buf
  = loop_at U (S fuel) re repl (pre ++ [x]) rest (buf ++ [x]).
Proof.
  intros Hne Hm. unfold loop_at.
  replace ((pre ++ [x]) ++ rest) with (pre ++ x :: rest) by (now rewrite <- app_assoc).
  assert (List.length (pre ++ [x]) = S (List.length pre)) as Hl
    by (rewrite length_app; simpl; lia).
  rewrite Hl. set (src := pre ++ x :: rest). set (l := List.length pre) in *.
  assert (List.length src = l + S (List.length rest)) as Hs
    by (unfold src, l; rewrite length_app; reflexivity).
  assert (skipn l src = x :: rest) as Hsk0 by apply skipn_pre.
  assert (skipn (S l) src = rest) as Hsk.
  { unfold src. replace (pre ++ x :: rest) with ((pre ++ [x]) ++ rest) by (now rewrite <- app_assoc).
    rewrite <- Hl. apply skipn_pre. }
  rewrite !replaceAll_loop_S.
  rewrite (proj2 (Nat.ltb_ge (List.length src) l)) by lia.
  rewrite (proj2 (Nat.ltb_ge (List.length src) (S l))) by lia.
  unfold doExecute. rewrite Hsk, Hsk0. simpl find_from at 1. rewrite Hm.
  destruct (find_from U re (S l) rest) as [a|] eqn:Hf.
  - destruct (find_from_inv _ _ _ _ Hf) as (i & Hi & Hmi & _).
    destruct (Hne _ _ _ Hmi) as (n & Hn & H0). rewrite H0.
    rewrite (proj2 (Nat.ltb_lt l (S l + i + n))) by lia.
    rewrite (proj2 (Nat.ltb_lt (S l) (S l + i + n))) by lia.
    rewrite (proj2 (Nat.ltb_ge (S l + i + n) (l + 1))) by lia.
    rewrite (proj2 (Nat.ltb_ge (S l + i + n) (S l + 1))) by lia.
    simpl orb. cbv iota.
    assert (slice src l (S l + i) = x :: slice src (S l) (S l + i)) as ->.
    { unfold slice. rewrite Hsk, Hsk0.
      replace (S l + i - l) with (S i) by lia.
      replace (S l + i - S l) with i by lia.
      reflexivity. }
    f_equal. rewrite <- !app_assoc. reflexivity.
  - rewrite <- app_assoc. simpl. reflexivity.
Qed.

End LoopFacts.

(* ================================================================== *)
(** * Facts about repetition *)

Section RepFacts.

Variable U : CaseTables.

Lemma rep_nil (a : atom) (g : bool) (lo p : nat) (k : nat -> gostring -> option caps) :
  rep U a g lo None p [] k = stop_here lo p [] k.
Proof. destruct g; simpl; unfold stop_here; destruct lo; try reflexivity; now destruct (k p []). Qed.

Lemma rep_cons (a : atom) (g : bool) (lo p : nat) (x : rune) (s : gostring)
      (k : nat -> gostring -> option caps) :
  rep U a g lo None p (x :: s) k
  = let more := if atom_match U a x then rep U a g (pred lo) None (S p) s k else None in
    if g then or_else more (stop_here lo p (x :: s) k)
    else or_else (stop_here lo p (x :: s) k) more.
Proof.
  destruct g; simpl; rewrite andb_true_r; reflexivity.
Qed.

Lemma or_else_none (x y : option caps) : or_else x y = None <-> x = None /\ y = None.
Proof. destruct x; simpl; split; intros H; try tauto; try discriminate; destruct H; discriminate. Qed.

Lemma rep_none_iff (a : atom) (g : bool) (k : nat -> gostring -> option caps) (s : gostring) :
  forall lo p,
  rep U a g lo None p s k = None <->
  forall n, lo <= n -> prefix_ok U a n s = true -> k (p + n) (skipn n s) = None.
Proof.
  induction s as [|x s IH]; intros lo p.
  - rewrite rep_nil. unfold stop_here. split.
    + intros H [|n] Hlo Hp; [|discriminate]. assert (lo = 0) as -> by lia.
      now rewrite Nat.add_0_r.
    + intros H. destruct lo; [|reflexivity]. specialize (H 0 (le_n _) eq_refl).
      now rewrite Nat.add_0_r in H.
  - rewrite rep_cons. cbv zeta.
    assert ((if atom_match U a x then rep U a g (pred lo) None (S p) s k else None) = None
            <-> forall n, lo <= S n -> prefix_ok U a (S n) (x :: s) = true
                          -> k (p + S n) (skipn (S n) (x :: s)) = None) as Hmore.
    { simpl. destruct (atom_match U a x); simpl.
      - rewrite IH. split; intros H n Hn Hp.
        + rewrite Nat.add_succ_r. apply H; [lia|assumption].
        + replace (S p + n) with (p + S n) by lia. apply H; [lia|assumption].
      - split; [intros; discriminate|reflexivity]. }
    assert (stop_here lo p (x :: s) k = None
            <-> (lo <= 0 -> k (p + 0) (x :: s) = None)) as Hstop.
    { unfold stop_here. rewrite Nat.add_0_r. destruct lo; split; intros; auto; lia. }
    assert (forall P : Prop, (or_else (if atom_match U a x then rep U a g (pred lo) None (S p) s k else None)
                                (stop_here lo p (x :: s) k) = None <-> P)
                             -> ((if g then or_else (if atom_match U a x then rep U a g (pred lo) None (S p) s k else None)
                                                (stop_here lo p (x :: s) k)
                                  else or_else (stop_here lo p (x :: s) k)
                                         (if atom_match U a x then rep U a g (pred lo) None (S p) s k else None)) = None <-> P))
      as Hg.
    { intros P HP. destruct g; [exact HP|]. rewrite <- HP, !or_else_none. tauto. }
    apply Hg. rewrite or_else_none, Hmore, Hstop. split.
    + intros [H1 H2] [|n] Hn Hp; [apply H2; lia|apply H1; assumption].
    + intros H. split; [intros n Hn Hp; apply H; assumption|intros Hn; apply H; [lia|reflexivity]].
Qed.

(** A greedy repetition that succeeds took the longest run for which the
    rest of the pattern succeeds. *)
Lemma rep_greedy_some (a : atom) (k : nat -> gostring -> option caps) (s : gostring) :
  forall lo p r,
  rep U a true lo None p s k = Some r ->
  exists n, lo <= n /\ prefix_ok U a n s = true /\ k (p + n) (skipn n s) = Some r
            /\ forall n', n < n' -> prefix_ok U a n' s = true -> k (p + n') (skipn n' s) = None.
Proof.
  induction s as [|x s IH]; intros lo p r H.
  - rewrite rep_nil in H. unfold stop_here in H. destruct lo; [|discriminate].
    exists 0. rewrite Nat.add_0_r. repeat split; auto.
    intros [|n'] Hn Hp; [lia|discriminate].
  - rewrite rep_cons in H. cbv zeta in H. simpl in H.
    destruct (atom_match U a x) eqn:Ea.
    + destruct (rep U a true (pred lo) None (S p) s k) as [r'|] eqn:Er; simpl in H.
      * injection H as <-. destruct (IH _ _ _ Er) as (n & Hlo & Hp & Hk & Hmax).
        exists (S n). rewrite Nat.add_succ_r. simpl. rewrite Ea, Hp.
        repeat split; auto; [lia|].
        intros [|n'] Hn Hp'; [lia|]. rewrite Nat.add_succ_r. simpl in *.
        rewrite Ea in Hp'. apply Hmax; [lia|assumption].
      * unfold stop_here in H. destruct lo; [|discriminate].
        exists 0. rewrite Nat.add_0_r. repeat split; auto.
        intros [|n'] Hn Hp'; [lia|]. rewrite Nat.add_succ_r. simpl in *. rewrite Ea in Hp'.
        apply (proj1 (rep_none_iff a true k s 0 (S p)) Er); [lia|assumption].
    + unfold stop_here in H. destruct lo; [|discriminate].
      exists 0. rewrite Nat.add_0_r. repeat split; auto.
      intros [|n'] Hn Hp'; [lia|]. simpl in Hp'. rewrite Ea in Hp'. discriminate.
Qed.

(** A lazy repetition that succeeds took the shortest run for which the rest
    of the pattern succeeds. *)
Lemma rep_lazy_some (a : atom) (k : nat -> gostring -> option caps) (s : gostring) :
  forall lo p r,
  rep U a false lo None p s k = Some r ->
  exists n, lo <= n /\ prefix_ok U a n s = true /\ k (p + n) (skipn n s) = Some r
            /\ forall n', lo <= n' -> n' < n -> k (p + n') (skipn n' s) = None.
Proof.
  induction s as [|x s IH]; intros lo p r H.
  - rewrite rep_nil in H. unfold stop_here in H. destruct lo; [|discriminate].
    exists 0. rewrite Nat.add_0_r. repeat split; auto. intros; lia.
  - rewrite rep_cons in H. cbv zeta in H. simpl in H.
    destruct (stop_here lo p (x :: s) k) as [r0|] eqn:Es; simpl in H.
    + injection H as <-. unfold stop_here in Es. destruct lo; [|discriminate].
      exists 0. rewrite Nat.add_0_r. repeat split; auto. intros; lia.
    + destruct (atom_match U a x) eqn:Ea; [|discriminate].
      destruct (IH _ _ _ H) as (n & Hlo & Hp & Hk & Hmin).
      exists (S n). rewrite Nat.add_succ_r. simpl. rewrite Ea, Hp.
      repeat split; auto; [lia|].
      intros [|n'] Hn Hn'.
      * unfold stop_here in Es. destruct lo; [|lia]. now rewrite Nat.add_0_r.
      * rewrite Nat.add_succ_r. simpl. apply Hmin; lia.
Qed.

Lemma rep_greedy_eq (a : atom) (k : nat -> gostring -> option caps) (s : gostring)
      (lo p n : nat) (r : caps) :
  lo <= n -> prefix_ok U a n s = true ->
  k (p + n) (skipn n s) = Some r ->
  (forall n', n < n' -> prefix_ok U a n' s = true -> k (p + n') (skipn n' s) = None) ->
  rep U a true lo None p s k = Some r.
Proof.
  intros Hlo Hp Hk Hmax.
  destruct (rep U a true lo None p s k) as [r'|] eqn:E.
  - destruct (rep_greedy_some _ _ _ _ _ _ E) as (n0 & Hlo0 & Hp0 & Hk0 & Hmax0).
    destruct (Nat.lt_total n0 n) as [Hlt|[Heq|Hgt]].
    + rewrite (Hmax0 n Hlt Hp) in Hk. discriminate.
    + subst. congruence.
    + rewrite (Hmax n0 Hgt Hp0) in Hk0. discriminate.
  - rewrite (proj1 (rep_none_iff a true k s lo p) E n Hlo Hp) in Hk. discriminate.
Qed.

Lemma rep_lazy_eq (a : atom) (k : nat -> gostring -> option caps) (s : gostring)
      (lo p n : nat) (r : caps) :
  lo <= n -> prefix_ok U a n s = true ->
  k (p + n) (skipn n s) = Some r ->
  (forall n', lo <= n' -> n' < n -> k (p + n') (skipn n' s) = None) ->
  rep U a false lo None p s k = Some r.
Proof.
  intros Hlo Hp Hk Hmin.
  destruct (rep U a false lo None p s k) as [r'|] eqn:E.
  - destruct (rep_lazy_some _ _ _ _ _ _ E) as (n0 & Hlo0 & Hp0 & Hk0 & Hmin0).
    destruct (Nat.lt_total n0 n) as [Hlt|[Heq|Hgt]].
    + rewrite (Hmin n0 Hlo0 Hlt) in Hk0. discriminate.
    + subst. congruence.
    + rewrite (Hmin0 n Hlo Hgt) in Hk. discriminate.
  - rewrite (proj1 (rep_none_iff a false k s lo p) E n Hlo Hp) in Hk. discriminate.
Qed.

Lemma prefix_ok_le (a : atom) (s : gostring) :
  forall n n', n' <= n -> prefix_ok U a n s = true -> prefix_ok U a n' s = true.
Proof.
  induction s as [|x s IH]; intros [|n] [|n'] Hle H; simpl in *; auto; try lia; try discriminate.
  apply andb_true_iff in H as [H1 H2]. rewrite H1. simpl. apply IH with n; [lia|assumption].
Qed.

Lemma prefix_ok_length (a : atom) (s : gostring) :
  forall n, prefix_ok U a n s = true -> n <= List.length s.
Proof.
  induction s as [|x s IH]; intros [|n] H; simpl in *; try lia; try discriminate.
  apply andb_true_iff in H as [_ H]. apply IH in H. lia.
Qed.

End RepFacts.

(* ================================================================== *)
(** * The four patterns of [sanitizeString]: what each replacement computes *)

Lemma compile_leadingTrailingWhitespaceRe :
  Compile (str "^[\s\p{Zs}]+|[\s\p{Zs}]+$") = Compiled leadingTrailingWhitespaceRe.
Proof. vm_compute. reflexivity. Qed.

Lemma compile_multipleNewlineRe :
  Compile (str "([^\n])(\n)([^\n])") = Compiled multipleNewlineRe.
Proof. vm_compute. reflexivity. Qed.

Lemma compile_multipleSpacesRe : Compile (str "(?m) {2,}") = Compiled multipleSpacesRe.
Proof. vm_compute. reflexivity. Qed.

Lemma compile_tabRe : Compile (str "[\t\r]") = Compiled tabRe.
Proof. vm_compute. reflexivity. Qed.

Lemma in_range_single (c r : rune) : in_range c c r = rune_eqb r c.
Proof.
  unfold in_range, rune_eqb.
  destruct (N.eqb_spec r c) as [->|Hne].
  - now rewrite N.leb_refl.
  - destruct (N.leb_spec c r), (N.leb_spec r c); simpl; auto. lia.
Qed.

Section PatternFacts.

Variable U : CaseTables.

Lemma atom_ws (r : rune) : atom_match U ws_class r = is_space_sep r.
Proof. unfold is_space_sep. simpl. now rewrite orb_false_r. Qed.

Lemma atom_not_nl (r : rune) : atom_match U not_nl_class r = negb (is_nl r).
Proof. unfold is_nl. simpl. now rewrite orb_false_r, in_range_single. Qed.

Lemma atom_lit (c r : rune) : atom_match U (ALit false c) r = rune_eqb r c.
Proof. simpl. unfold lit_match. simpl. now rewrite orb_false_r. Qed.

Lemma atom_tab_cr (r : rune) :
  atom_match U (AClass false [CRange 9%N 9%N; CRange 13%N 13%N]) r = is_tab_cr r.
Proof. unfold is_tab_cr. simpl. now rewrite orb_false_r, !in_range_single. Qed.

Lemma expand_empty (src : gostring) (c : caps) : expand (str "") 0 src c = [].
Proof. reflexivity. Qed.

Lemma expand_1_3 (src : gostring) (c : caps) :
  expand (str "$1$3") 0 src c = cap_text src (nth 1 c None) ++ cap_text src (nth 3 c None).
Proof. cbn. now rewrite app_nil_r. Qed.

(** *** [tabRe] *)

Lemma match_tabRe (p : nat) (s : gostring) :
  match_here U tabRe p s
  = match s with
    | x :: _ => if is_tab_cr x then Some [Some (p, p + 1)] else None
    | [] => None
    end.
Proof.
  unfold match_here, tabRe. cbn [re_tree re_ncap m]. destruct s as [|x s]; [reflexivity|].
  rewrite atom_tab_cr. destruct (is_tab_cr x); [|reflexivity].
  simpl. now rewrite Nat.add_1_r.
Qed.

Lemma nonempty_tabRe : nonempty_matches U tabRe.
Proof.
  intros p s a H. rewrite match_tabRe in H. destruct s as [|x s]; [discriminate|].
  destruct (is_tab_cr x); [|discriminate]. injection H as <-. exists 1. split; [lia|reflexivity].
Qed.

Lemma loop_tabRe (rest : gostring) :
  forall fuel pre buf, List.length rest < fuel ->
  loop_at U fuel tabRe (str "") pre rest buf = buf ++ strip_tabs rest.
Proof.
  induction rest as [|x rest IH]; intros [|fuel] pre buf Hf; try (simpl in Hf; lia).
  - simpl strip_tabs. apply loop_end. cbn [find_from]. now rewrite match_tabRe.
  - simpl in Hf. unfold strip_tabs. cbn [filter]. fold (strip_tabs rest).
    destruct (is_tab_cr x) eqn:Ex; cbn [negb].
    + change (x :: rest) with ([x] ++ rest).
      rewrite (loop_match U fuel tabRe (str "") pre [x] rest buf [Some (List.length pre, List.length pre + 1)]).
      * rewrite expand_empty, app_nil_r. apply IH. lia.
      * rewrite match_tabRe. cbn [app]. now rewrite Ex.
      * reflexivity.
      * discriminate.
    + rewrite loop_skip.
      * rewrite IH by lia. now rewrite <- app_assoc.
      * apply nonempty_tabRe.
      * rewrite match_tabRe. now rewrite Ex.
Qed.

Lemma replace_tabRe (s : gostring) : ReplaceAllString U tabRe s (str "") = strip_tabs s.
Proof.
  unfold ReplaceAllString. change (loop_at U (S (S (List.length s))) tabRe (str "") [] s [] = strip_tabs s).
  rewrite loop_tabRe by lia. reflexivity.
Qed.

(** *** [multipleNewlineRe] *)

Lemma match_multipleNewlineRe (p : nat) (s : gostring) :
  match_here U multipleNewlineRe p s
  = match s with
    | a :: b :: c :: _ =>
        if negb (is_nl a) && is_nl b && negb (is_nl c)
        then Some [Some (p, p + 3); Some (p, p + 1); Some (p + 1, p + 2); Some (p + 2, p + 3)]
        else None
    | _ => None
    end.
Proof.
  unfold match_here, multipleNewlineRe. cbn [re_tree re_ncap m].
  destruct s as [|a [|b [|c t]]]; try reflexivity;
    rewrite ?atom_not_nl, ?atom_lit; unfold is_nl, newline;
    destruct (rune_eqb a 10%N); cbn [negb andb]; try reflexivity;
    rewrite ?atom_not_nl, ?atom_lit; unfold is_nl, newline;
    destruct (rune_eqb b 10%N); cbn [negb andb]; try reflexivity.
  rewrite ?atom_not_nl; unfold is_nl, newline.
  destruct (rune_eqb c 10%N); cbn [negb andb]; [reflexivity|].
  cbn. repeat f_equal; lia.
Qed.

Lemma nonempty_multipleNewlineRe : nonempty_matches U multipleNewlineRe.
Proof.
  intros p s a H. rewrite match_multipleNewlineRe in H.
  destruct s as [|x [|y [|z t]]]; try discriminate.
  destruct (negb (is_nl x) && is_nl y && negb (is_nl z)); [|discriminate].
  injection H as <-. exists 3. split; [lia|reflexivity].
Qed.

Lemma loop_multipleNewlineRe (n : nat) :
  forall rest fuel pre buf, List.length rest <= n -> List.length rest < fuel ->
  loop_at U fuel multipleNewlineRe (str "$1$3") pre rest buf = buf ++ join_lines rest.
Proof.
  induction n as [|n IH]; intros rest [|fuel] pre buf Hn Hf; try lia.
  - destruct rest; [|simpl in Hn; lia].
    cbn [join_lines]. apply loop_end. cbn [find_from]. now rewrite match_multipleNewlineRe.
  - destruct rest as [|a s1].
    { cbn [join_lines]. apply loop_end. cbn [find_from]. now rewrite match_multipleNewlineRe. }
    simpl in Hn, Hf.
    assert (loop_at U (S fuel) multipleNewlineRe (str "$1$3") (pre ++ [a]) s1 (buf ++ [a])
            = buf ++ a :: join_lines s1) as Hskip.
    { rewrite IH by lia. now rewrite <- app_assoc. }
    destruct s1 as [|b [|c t]].
    + rewrite loop_skip; [exact Hskip|apply nonempty_multipleNewlineRe|].
      now rewrite match_multipleNewlineRe.
    + rewrite loop_skip; [exact Hskip|apply nonempty_multipleNewlineRe|].
      now rewrite match_multipleNewlineRe.
    + cbn [join_lines]. fold (join_lines (b :: c :: t)).
      destruct (negb (is_nl a) && is_nl b && negb (is_nl c)) eqn:E.
      * set (l := List.length pre).
        change (a :: b :: c :: t) with ([a; b; c] ++ t).
        rewrite (loop_match U fuel multipleNewlineRe (str "$1$3") pre [a; b; c] t buf
                   [Some (l, l + 3); Some (l, l + 1); Some (l + 1, l + 2); Some (l + 2, l + 3)]).
        -- rewrite expand_1_3. cbn [nth cap_text].
           assert (slice (pre ++ [a; b; c] ++ t) l (l + 1) = [a]) as ->
             by (apply (slice_mid pre [a] (b :: c :: t))).
           assert (slice (pre ++ [a; b; c] ++ t) (l + 2) (l + 3) = [c]) as ->.
           { replace (pre ++ [a; b; c] ++ t) with ((pre ++ [a; b]) ++ [c] ++ t)
               by (rewrite <- app_assoc; reflexivity).
             replace (l + 2) with (List.length (pre ++ [a; b]))
               by (rewrite length_app; reflexivity).
             replace (l + 3) with (List.length (pre ++ [a; b]) + List.length [c])
               by (rewrite length_app; simpl; unfold l; lia).
             apply slice_mid. }
           simpl in Hn. rewrite IH by (simpl in *; lia).
           rewrite <- app_assoc. reflexivity.
        -- rewrite match_multipleNewlineRe. cbn [app]. now rewrite E.
        -- reflexivity.
        -- discriminate.
      * rewrite loop_skip; [exact Hskip|apply nonempty_multipleNewlineRe|].
        rewrite match_multipleNewlineRe. now rewrite E.
Qed.

Lemma replace_multipleNewlineRe (s : gostring) :
  ReplaceAllString U multipleNewlineRe s (str "$1$3") = join_lines s.
Proof.
  unfold ReplaceAllString.
  change (loop_at U (S (S (List.length s))) multipleNewlineRe (str "$1$3") [] s [] = join_lines s).
  rewrite (loop_multipleNewlineRe (List.length s)) by lia. reflexivity.
Qed.

(** *** Runs of one class *)

Lemma prefix_ok_run (f : rune -> bool) (a : atom) :
  (forall r, atom_match U a r = f r) ->
  forall s n, prefix_ok U a n s = (n <=? run_len f s).
Proof.
  intros Hf. induction s as [|x s IH]; intros [|n]; simpl; try reflexivity.
  rewrite Hf. destruct (f x); simpl; [apply IH|reflexivity].
Qed.

Lemma run_len_le (f : rune -> bool) (s : gostring) : run_len f s <= List.length s.
Proof. induction s as [|x s IH]; simpl; [lia|]. destruct (f x); simpl; lia. Qed.

Lemma run_len_all (f : rune -> bool) (s : gostring) :
  forallb f s = (List.length s <=? run_len f s).
Proof.
  induction s as [|x s IH]; simpl; [reflexivity|].
  destruct (f x); simpl; [exact IH|reflexivity].
Qed.

Lemma run_len_split (f : rune -> bool) (s : gostring) :
  s = firstn (run_len f s) s ++ skipn (run_len f s) s.
Proof. now rewrite firstn_skipn. Qed.

(** A greedy repetition followed by something that succeeds after the
    longest run takes the longest run. *)
Lemma rep_greedy_run (f : rune -> bool) (a : atom) (lo p : nat) (s : gostring)
      (k : nat -> gostring -> option caps) (r : caps) :
  (forall r, atom_match U a r = f r) ->
  lo <= run_len f s ->
  k (p + run_len f s) (skipn (run_len f s) s) = Some r ->
  rep U a true lo None p s k = Some r.
Proof.
  intros Hf Hlo Hk. apply rep_greedy_eq with (n := run_len f s); auto.
  - rewrite (prefix_ok_run f a Hf). now apply Nat.leb_le.
  - intros n' Hn Hp. rewrite (prefix_ok_run f a Hf) in Hp. apply Nat.leb_le in Hp. lia.
Qed.

Lemma rep_short_run (f : rune -> bool) (a : atom) (g : bool) (lo p : nat) (s : gostring)
      (k : nat -> gostring -> option caps) :
  (forall r, atom_match U a r = f r) ->
  run_len f s < lo ->
  rep U a g lo None p s k = None.
Proof.
  intros Hf Hlo. apply rep_none_iff. intros n Hn Hp.
  rewrite (prefix_ok_run f a Hf) in Hp. apply Nat.leb_le in Hp. lia.
Qed.

(** *** [multipleSpacesRe] *)

Lemma atom_space (r : rune) : atom_match U (ALit false 32%N) r = is_space r.
Proof. apply atom_lit. Qed.

Lemma match_multipleSpacesRe (p : nat) (s : gostring) :
  match_here U multipleSpacesRe p s
  = if 2 <=? run_len is_space s then Some [Some (p, p + run_len is_space s)] else None.
Proof.
  unfold match_here, multipleSpacesRe. cbn [re_tree re_ncap m].
  destruct (Nat.leb_spec 2 (run_len is_space s)) as [H|H].
  - apply rep_greedy_run with (f := is_space); auto using atom_space.
  - apply rep_short_run with (f := is_space); auto using atom_space.
Qed.

Lemma nonempty_multipleSpacesRe : nonempty_matches U multipleSpacesRe.
Proof.
  intros p s a H. rewrite match_multipleSpacesRe in H.
  destruct (Nat.leb_spec 2 (run_len is_space s)) as [H2|H2]; [|discriminate].
  injection H as <-. exists (run_len is_space s). split; [lia|reflexivity].
Qed.

Lemma del_runs_in_run (s : gostring) :
  del_runs true s = del_runs false (skipn (run_len is_space s) s).
Proof.
  induction s as [|x s IH]; [reflexivity|].
  cbn [del_runs run_len]. destruct (is_space x) eqn:E.
  - rewrite IH. reflexivity.
  - cbn [skipn del_runs]. now rewrite E.
Qed.

Lemma del_runs_long (s : gostring) :
  2 <= run_len is_space s ->
  del_runs false s = del_runs false (skipn (run_len is_space s) s).
Proof.
  destruct s as [|x [|y t]]; simpl run_len; try lia.
  - destruct (is_space x); simpl; lia.
  - intros H. destruct (is_space x) eqn:Ex; [|lia].
    destruct (is_space y) eqn:Ey; [|lia].
    cbn [del_runs]. rewrite Ex, Ey. cbn [skipn]. apply del_runs_in_run.
Qed.

Lemma del_runs_short (x : rune) (s : gostring) :
  run_len is_space (x :: s) < 2 ->
  del_runs false (x :: s) = x :: del_runs false s.
Proof.
  cbn [run_len del_runs]. destruct (is_space x); [|reflexivity].
  destruct s as [|y t]; [reflexivity|].
  cbn [run_len]. destruct (is_space y); [lia|reflexivity].
Qed.

Lemma loop_multipleSpacesRe (n : nat) :
  forall rest fuel pre buf, List.length rest <= n -> List.length rest < fuel ->
  loop_at U fuel multipleSpacesRe (str "") pre rest buf = buf ++ del_runs false rest.
Proof.
  induction n as [|n IH]; intros rest [|fuel] pre buf Hn Hf; try lia.
  - destruct rest; [|simpl in Hn; lia].
    cbn [del_runs]. apply loop_end. cbn [find_from]. now rewrite match_multipleSpacesRe.
  - destruct rest as [|x s1].
    { cbn [del_runs]. apply loop_end. cbn [find_from]. now rewrite match_multipleSpacesRe. }
    destruct (Nat.leb_spec 2 (run_len is_space (x :: s1))) as [H|H].
    + rewrite (del_runs_long _ H).
      set (k := run_len is_space (x :: s1)) in *.
      assert (k <= List.length (x :: s1)) as Hk by apply run_len_le.
      rewrite <- (firstn_skipn k (x :: s1)) at 1.
      rewrite (loop_match U fuel multipleSpacesRe (str "") pre (firstn k (x :: s1))
                 (skipn k (x :: s1)) buf [Some (List.length pre, List.length pre + k)]).
      * rewrite expand_empty, app_nil_r. apply IH; rewrite length_skipn; lia.
      * rewrite firstn_skipn, match_multipleSpacesRe. fold k.
        now rewrite (proj2 (Nat.leb_le 2 k) H).
      * cbn [nth]. rewrite length_firstn, Nat.min_l by exact Hk. reflexivity.
      * intros E. apply (f_equal (@List.length rune)) in E.
        rewrite length_firstn, Nat.min_l in E by exact Hk. simpl in E. lia.
    + rewrite (del_runs_short _ _ H), loop_skip.
      * simpl in Hn, Hf. rewrite IH by lia. now rewrite <- app_assoc.
      * apply nonempty_multipleSpacesRe.
      * rewrite match_multipleSpacesRe. now rewrite (proj2 (Nat.leb_gt 2 _) H).
Qed.

Lemma replace_multipleSpacesRe (s : gostring) :
  ReplaceAllString U multipleSpacesRe s (str "") = del_runs false s.
Proof.
  unfold ReplaceAllString.
  change (loop_at U (S (S (List.length s))) multipleSpacesRe (str "") [] s [] = del_runs false s).
  rewrite (loop_multipleSpacesRe (List.length s)) by lia. reflexivity.
Qed.

(** *** [leadingTrailingWhitespaceRe] *)

Lemma skipn_nil_length (A : Type) (n : nat) (l : list A) : skipn n l = [] -> List.length l <= n.
Proof.
  intros H. apply (f_equal (@List.length A)) in H. rewrite length_skipn in H. simpl in H. lia.
Qed.

Lemma match_trim_begin (s : gostring) :
  match_here U leadingTrailingWhitespaceRe 0 s
  = if 1 <=? run_len is_space_sep s then Some [Some (0, run_len is_space_sep s)] else None.
Proof.
  unfold match_here, leadingTrailingWhitespaceRe. cbn [re_tree re_ncap m].
  destruct (Nat.leb_spec 1 (run_len is_space_sep s)) as [H|H].
  - rewrite rep_greedy_run with (f := is_space_sep) (r := [Some (0, run_len is_space_sep s)]);
      auto using atom_ws.
  - rewrite !rep_short_run with (f := is_space_sep); auto using atom_ws.
Qed.

Lemma match_trim_later (p : nat) (s : gostring) :
  match_here U leadingTrailingWhitespaceRe (S p) s
  = if forallb is_space_sep s && negb (List.length s =? 0)
    then Some [Some (S p, S p + List.length s)] else None.
Proof.
  unfold match_here, leadingTrailingWhitespaceRe. cbn [re_tree re_ncap m].
  destruct (forallb is_space_sep s && negb (List.length s =? 0)) eqn:E.
  - apply andb_true_iff in E as [Ea En]. apply negb_true_iff, Nat.eqb_neq in En.
    rewrite run_len_all in Ea. apply Nat.leb_le in Ea.
    pose proof (run_len_le is_space_sep s) as Hle.
    assert (run_len is_space_sep s = List.length s) as Hrun by lia.
    apply rep_greedy_run with (f := is_space_sep); auto using atom_ws; [lia|].
    rewrite Hrun, skipn_all. reflexivity.
  - apply rep_none_iff. intros n Hn Hp.
    rewrite (prefix_ok_run is_space_sep ws_class atom_ws) in Hp. apply Nat.leb_le in Hp.
    destruct (skipn n s) as [|y t] eqn:Es; [|reflexivity].
    apply skipn_nil_length in Es.
    pose proof (run_len_le is_space_sep s) as Hle.
    assert (forallb is_space_sep s = true) as Ea
      by (rewrite run_len_all; apply Nat.leb_le; lia).
    assert (negb (List.length s =? 0) = true) as En.
    { apply negb_true_iff, Nat.eqb_neq. lia. }
    rewrite Ea, En in E. discriminate.
Qed.

Lemma nonempty_leadingTrailingWhitespaceRe : nonempty_matches U leadingTrailingWhitespaceRe.
Proof.
  intros [|p] s a H.
  - rewrite match_trim_begin in H.
    destruct (Nat.leb_spec 1 (run_len is_space_sep s)) as [H1|H1]; [|discriminate].
    injection H as <-. exists (run_len is_space_sep s). split; [lia|reflexivity].
  - rewrite match_trim_later in H.
    destruct (forallb is_space_sep s && negb (List.length s =? 0)) eqn:E; [|discriminate].
    apply andb_true_iff in E as [_ En]. apply negb_true_iff, Nat.eqb_neq in En.
    injection H as <-. exists (List.length s). split; [lia|reflexivity].
Qed.

(** After the start of the text only the trailing run can match. *)
Lemma loop_trim_later (rest : gostring) :
  forall fuel pre buf, pre <> [] -> List.length rest < fuel ->
  loop_at U fuel leadingTrailingWhitespaceRe (str "") pre rest buf = buf ++ rtrim rest.
Proof.
  induction rest as [|x rest IH]; intros [|fuel] pre buf Hpre Hf; try (simpl in Hf; lia).
  - cbn [rtrim]. apply loop_end. cbn [find_from].
    destruct pre as [|y pre]; [congruence|]. cbn [List.length]. now rewrite match_trim_later.
  - assert (exists q, List.length pre = S q) as [q Hq]
      by (destruct pre; [congruence|simpl; eauto]).
    cbn [rtrim]. destruct (forallb is_space_sep (x :: rest)) eqn:E.
    + rewrite <- (app_nil_r (x :: rest)) at 1.
      rewrite (loop_match U fuel leadingTrailingWhitespaceRe (str "") pre (x :: rest) [] buf
                 [Some (List.length pre, List.length pre + List.length (x :: rest))]).
      * rewrite expand_empty, app_nil_r.
        destruct fuel as [|fuel]; [simpl in Hf; lia|].
        rewrite loop_end; [now rewrite app_nil_r|]. cbn [find_from].
        rewrite length_app. cbn [List.length]. rewrite Nat.add_succ_r.
        now rewrite match_trim_later.
      * rewrite app_nil_r, Hq, match_trim_later, E. reflexivity.
      * reflexivity.
      * discriminate.
    + rewrite loop_skip.
      * rewrite IH.
        -- now rewrite <- app_assoc.
        -- destruct pre; discriminate.
        -- simpl in Hf. lia.
      * apply nonempty_leadingTrailingWhitespaceRe.
      * rewrite Hq, match_trim_later, E. reflexivity.
Qed.

Lemma ltrim_skipn (s : gostring) : ltrim s = skipn (run_len is_space_sep s) s.
Proof.
  induction s as [|x s IH]; [reflexivity|].
  cbn [ltrim run_len]. destruct (is_space_sep x); [exact IH|reflexivity].
Qed.

Lemma replace_leadingTrailingWhitespaceRe (s : gostring) :
  ReplaceAllString U leadingTrailingWhitespaceRe s (str "") = trim s.
Proof.
  unfold ReplaceAllString, trim.
  change (loop_at U (S (S (List.length s))) leadingTrailingWhitespaceRe (str "") [] s []
          = rtrim (ltrim s)).
  rewrite ltrim_skipn.
  destruct (Nat.leb_spec 1 (run_len is_space_sep s)) as [H|H].
  - set (k := run_len is_space_sep s) in *.
    assert (k <= List.length s) as Hk by apply run_len_le.
    rewrite <- (firstn_skipn k s) at 2.
    rewrite (loop_match U (S (List.length s)) leadingTrailingWhitespaceRe (str "") []
               (firstn k s) (skipn k s) [] [Some (0, k)]).
    + rewrite expand_empty. cbn [app]. rewrite loop_trim_later; [reflexivity| |].
      * intros E. apply (f_equal (@List.length rune)) in E.
        rewrite length_firstn, Nat.min_l in E by exact Hk. simpl in E. lia.
      * rewrite length_skipn. lia.
    + cbn [List.length]. rewrite firstn_skipn, match_trim_begin. fold k.
      now rewrite (proj2 (Nat.leb_le 1 k) H).
    + cbn [nth List.length]. rewrite length_firstn, Nat.min_l by exact Hk. reflexivity.
    + intros E. apply (f_equal (@List.length rune)) in E.
      rewrite length_firstn, Nat.min_l in E by exact Hk. simpl in E. lia.
  - assert (run_len is_space_sep s = 0) as Hz by lia. rewrite Hz. cbn [skipn].
    destruct s as [|x r].
    + cbn [rtrim]. apply loop_end. cbn [find_from List.length].
      now rewrite match_trim_begin.
    + assert (is_space_sep x = false) as Ex.
      { cbn [run_len] in Hz. destruct (is_space_sep x); [discriminate|reflexivity]. }
      rewrite loop_skip.
      * rewrite loop_trim_later; [|discriminate|simpl; lia].
        cbn [rtrim forallb]. rewrite Ex. reflexivity.
      * apply nonempty_leadingTrailingWhitespaceRe.
      * cbn [List.length]. rewrite match_trim_begin, Hz. reflexivity.
Qed.

(** *** [sanitizeString] as a whole *)

Theorem sanitizeString_eq (s : gostring) : sanitizeString U s = Ret (sanitize s).
Proof.
  unfold sanitizeString, MustCompile.
  rewrite compile_leadingTrailingWhitespaceRe, compile_multipleNewlineRe,
    compile_multipleSpacesRe, compile_tabRe.
  cbn [obind].
  rewrite replace_leadingTrailingWhitespaceRe, replace_multipleNewlineRe,
    replace_multipleSpacesRe, replace_tabRe.
  reflexivity.
Qed.

End PatternFacts.

(* ================================================================== *)
(** * The pattern of [GetDiscussionSection] *)

Lemma next_token_plain (c : rune) (t : gostring) :
  is_meta c = false -> next_token c t = (TLit c, 1).
Proof.
  unfold is_meta. intros H.
  repeat (apply orb_false_iff in H; destruct H as [H ?]).
  unfold next_token.
  repeat match goal with
         | Hx : rune_eqb c _ = false |- _ => rewrite Hx; clear Hx
         end.
  reflexivity.
Qed.

Lemma lex_plain (name rest : gostring) :
  plain name = true -> lex 0 (name ++ rest) = map TLit name ++ lex 0 rest.
Proof.
  induction name as [|c name IH]; intros H; [reflexivity|].
  simpl in H. apply andb_true_iff in H as [Hc Hn]. apply negb_true_iff in Hc.
  cbn [app lex map]. rewrite (next_token_plain c _ Hc). cbn [pred]. now rewrite IH.
Qed.

Lemma parse_lits (name : gostring) :
  forall alts seq cap saved stack fo dn mu ncap,
  fold_left parse_token (map TLit name)
    {| p_status := POk;
       p_cur := {| f_alts := alts; f_seq := seq; f_cap := cap; f_saved := saved |};
       p_stack := stack;
       p_flags := {| fl_fold := fo; fl_dotnl := dn; fl_multi := mu |};
       p_ncap := ncap |}
  = {| p_status := POk;
       p_cur := {| f_alts := alts;
                   f_seq := rev (map (fun r => RAtom (ALit fo r)) name) ++ seq;
                   f_cap := cap; f_saved := saved |};
       p_stack := stack;
       p_flags := {| fl_fold := fo; fl_dotnl := dn; fl_multi := mu |};
       p_ncap := ncap |}.
Proof.
  induction name as [|c name IH]; intros; [reflexivity|].
  cbn [map fold_left]. unfold parse_token at 2. cbn [p_status p_flags fl_fold]. unfold push.
  cbn [p_status p_cur p_stack p_flags p_ncap f_alts f_seq f_cap f_saved].
  rewrite IH. cbn [rev]. now rewrite <- app_assoc.
Qed.

Theorem compile_section (NAME : gostring) :
  plain NAME = true ->
  Compile (str "(?is)\." ++ NAME ++ str "[.\s]+(.+?)&&") = Compiled (section_re NAME).
Proof.
  intros H. unfold Compile.
  assert (lex 0 (str "(?is)\." ++ NAME ++ str "[.\s]+(.+?)&&")
          = [TFlags true true false; TLit dot] ++ map TLit NAME
            ++ [TClass false [CRange 46%N 46%N; CPerlSpace]; TRep true 1 None; TLParen; TDot;
                TRep false 1 None; TRParen; TLit amp; TLit amp]) as ->.
  { change (lex 0 (str "(?is)\." ++ NAME ++ str "[.\s]+(.+?)&&"))
      with (TFlags true true false :: TLit dot :: lex 0 (NAME ++ str "[.\s]+(.+?)&&")).
    rewrite (lex_plain _ _ H). reflexivity. }
  rewrite !fold_left_app.
  change (fold_left parse_token [TFlags true true false; TLit dot] pstate0)
    with {| p_status := POk;
            p_cur := {| f_alts := []; f_seq := [RAtom (ALit true dot)]; f_cap := 0;
                        f_saved := {| fl_fold := false; fl_dotnl := false; fl_multi := false |} |};
            p_stack := [];
            p_flags := {| fl_fold := true; fl_dotnl := true; fl_multi := false |};
            p_ncap := 0 |}.
  rewrite parse_lits. cbn. unfold section_re, frame_tree. cbn [f_seq f_alts].
  cbn [rev app alt_list]. rewrite !rev_app_distr, rev_involutive. cbn [rev app].
  rewrite <- !app_assoc. reflexivity.
Qed.

Section SectionMatch.

Variable U : CaseTables.

Lemma amp2_skipn_length (n : nat) (s : gostring) :
  amp2 (skipn n s) = true -> n + 2 <= List.length s.
Proof.
  destruct (skipn n s) as [|a [|b t]] eqn:E; try discriminate. intros _.
  apply (f_equal (@List.length rune)) in E. rewrite length_skipn in E. simpl in E. lia.
Qed.

Lemma rep_ext (a : atom) (g : bool) (k k' : nat -> gostring -> option caps) :
  (forall p s, k p s = k' p s) ->
  forall s lo hi p, rep U a g lo hi p s k = rep U a g lo hi p s k'.
Proof.
  intros Hk. induction s as [|x s IH]; intros lo hi p; simpl.
  - rewrite Hk. reflexivity.
  - rewrite IH, Hk. reflexivity.
Qed.

Lemma m_lits (tail : list regex) (k : nat -> gostring -> caps -> option caps) (c : caps)
      (name : gostring) :
  forall p s,
  m U (cat_list (map fold_lit name ++ tail)) p s c k
  = if fold_prefix U name s
    then m U (cat_list tail) (p + List.length name) (skipn (List.length name) s) c k
    else None.
Proof.
  induction name as [|r0 name IH]; intros p s.
  - cbn [map app fold_prefix List.length skipn]. now rewrite Nat.add_0_r.
  - cbn [map app cat_list fold_right m fold_lit fold_prefix List.length].
    destruct s as [|x s]; [reflexivity|].
    cbn [atom_match skipn]. destruct (lit_match U true r0 x); [|reflexivity].
    cbn [andb]. unfold cat_list in IH. rewrite IH. now rewrite Nat.add_succ_r.
Qed.

Lemma atom_amp (r : rune) : atom_match U (ALit true amp) r = rune_eqb r amp.
Proof. cbn. unfold lit_match. cbn. now rewrite orb_false_r. Qed.

Lemma atom_delim (r : rune) : atom_match U delim_class r = is_delim r.
Proof. unfold is_delim, dot. cbn. now rewrite orb_false_r, in_range_single. Qed.

Lemma atom_any (r : rune) : atom_match U (AAny true) r = true.
Proof. reflexivity. Qed.

Theorem match_section (NAME : gostring) (p : nat) (s : gostring) :
  match_here U (section_re NAME) p s
  = if fold_prefix U (dot :: NAME) s
    then rep U delim_class true 1 None (p + S (List.length NAME))
           (skipn (S (List.length NAME)) s) (k_delim U p)
    else None.
Proof.
  unfold match_here, section_re. cbn [re_tree re_ncap].
  change (fold_lit dot :: map fold_lit NAME ++ section_tail)
    with (map fold_lit (dot :: NAME) ++ section_tail).
  rewrite m_lits. cbn [List.length].
  destruct (fold_prefix U (dot :: NAME) s); [|reflexivity].
  unfold section_tail. cbn [cat_list fold_right m].
  apply rep_ext. intros p2 s2. unfold k_delim.
  apply rep_ext. intros p3 s3. unfold k_body, fold_lit. cbn [m].
  destruct s3 as [|a [|b t]]; cbn [amp2]; try reflexivity.
  - rewrite atom_amp. destruct (rune_eqb a amp); reflexivity.
  - rewrite !atom_amp. destruct (rune_eqb a amp); [|reflexivity].
    destruct (rune_eqb b amp); [|reflexivity].
    cbn. repeat f_equal; lia.
Qed.

Lemma prefix_ok_any (s : gostring) (n : nat) :
  prefix_ok U (AAny true) n s = (n <=? List.length s).
Proof.
  revert n. induction s as [|x s IH]; intros [|n]; simpl; auto.
Qed.

Lemma prefix_ok_delim (s : gostring) (n : nat) :
  prefix_ok U delim_class n s = (n <=? run_len is_delim s).
Proof. apply prefix_ok_run. apply atom_delim. Qed.

(** A match of the section pattern, read off: the header, a delimiter of
    [n1] runes, a body of [n2] runes, two ampersands.  The delimiter is the
    longest that leaves a match, the body the shortest. *)
Theorem match_section_some (NAME : gostring) (p : nat) (s : gostring) (a : caps) :
  match_here U (section_re NAME) p s = Some a ->
  exists n1 n2,
    let h := S (List.length NAME) in
    fold_prefix U (dot :: NAME) s = true
    /\ 1 <= n1 <= run_len is_delim (skipn h s)
    /\ 1 <= n2
    /\ amp2 (skipn (h + n1 + n2) s) = true
    /\ a = [Some (p, p + h + n1 + n2 + 2); Some (p + h + n1, p + h + n1 + n2)]
    /\ (forall n2', 1 <= n2' < n2 -> amp2 (skipn (h + n1 + n2') s) = false)
    /\ (forall n1' n2', n1 < n1' <= run_len is_delim (skipn h s) -> 1 <= n2' ->
                        amp2 (skipn (h + n1' + n2') s) = false).
Proof.
  rewrite match_section. cbv zeta.
  destruct (fold_prefix U (dot :: NAME) s) eqn:Eh; [|discriminate].
  intros H. set (h := S (List.length NAME)) in *.
  destruct (rep_greedy_some U _ _ _ _ _ _ H) as (n1 & Hn1 & Hp1 & Hk1 & Hmax1).
  unfold k_delim in Hk1.
  destruct (rep_lazy_some U _ _ _ _ _ _ Hk1) as (n2 & Hn2 & Hp2 & Hk2 & Hmin2).
  rewrite prefix_ok_delim in Hp1. apply Nat.leb_le in Hp1.
  rewrite prefix_ok_any in Hp2. apply Nat.leb_le in Hp2.
  unfold k_body in Hk2. rewrite !skipn_skipn in Hk2.
  destruct (amp2 (skipn (n2 + n1 + h) s)) eqn:Ea; [|discriminate].
  exists n1, n2. repeat split; auto.
  - replace (h + n1 + n2) with (n2 + n1 + h) by lia. exact Ea.
  - injection Hk2 as <-. repeat f_equal; lia.
  - intros n2' Hn2'. specialize (Hmin2 n2' (proj1 Hn2') (proj2 Hn2')).
    unfold k_body in Hmin2. rewrite !skipn_skipn in Hmin2.
    replace (h + n1 + n2') with (n2' + n1 + h) by lia.
    destruct (amp2 (skipn (n2' + n1 + h) s)); [discriminate|reflexivity].
  - intros n1' n2' Hn1' Hn2'.
    assert (prefix_ok U delim_class n1' (skipn h s) = true) as Hp1'
      by (rewrite prefix_ok_delim; apply Nat.leb_le; lia).
    specialize (Hmax1 n1' (proj1 Hn1') Hp1'). unfold k_delim in Hmax1.
    destruct (amp2 (skipn (h + n1' + n2') s)) eqn:Ea'; [|reflexivity].
    assert (n2' <= List.length (skipn n1' (skipn h s))) as Hlen.
    { apply amp2_skipn_length in Ea'. rewrite !length_skipn. lia. }
    pose proof (proj1 (rep_none_iff U (AAny true) false (k_body p (p + h + n1')) _ 1 _) Hmax1 n2' Hn2')
      as Hnone.
    rewrite prefix_ok_any in Hnone. specialize (Hnone (proj2 (Nat.leb_le _ _) Hlen)).
    unfold k_body in Hnone. rewrite !skipn_skipn in Hnone.
    replace (n2' + n1' + h) with (h + n1' + n2') in Hnone by lia.
    rewrite Ea' in Hnone. discriminate.
Qed.

(** No match at a position: no header there, or no delimiter and body
    before two ampersands. *)
Theorem match_section_none (NAME : gostring) (p : nat) (s : gostring) :
  match_here U (section_re NAME) p s = None <->
  (fold_prefix U (dot :: NAME) s = true ->
   forall n1 n2, 1 <= n1 <= run_len is_delim (skipn (S (List.length NAME)) s) -> 1 <= n2 ->
                 amp2 (skipn (S (List.length NAME) + n1 + n2) s) = false).
Proof.
  rewrite match_section. set (h := S (List.length NAME)).
  destruct (fold_prefix U (dot :: NAME) s) eqn:Eh.
  2:{ split; [intros _ Hf; discriminate|reflexivity]. }
  rewrite rep_none_iff. split.
  - intros H _ n1 n2 Hn1 Hn2.
    assert (prefix_ok U delim_class n1 (skipn h s) = true) as Hp1
      by (rewrite prefix_ok_delim; apply Nat.leb_le; lia).
    specialize (H n1 (proj1 Hn1) Hp1). unfold k_delim in H.
    destruct (amp2 (skipn (h + n1 + n2) s)) eqn:Ea; [|reflexivity].
    assert (n2 <= List.length (skipn n1 (skipn h s))) as Hlen.
    { apply amp2_skipn_length in Ea. rewrite !length_skipn. lia. }
    pose proof (proj1 (rep_none_iff U (AAny true) false (k_body p (p + h + n1)) _ 1 _) H n2 Hn2)
      as Hnone.
    rewrite prefix_ok_any in Hnone. specialize (Hnone (proj2 (Nat.leb_le _ _) Hlen)).
    unfold k_body in Hnone. rewrite !skipn_skipn in Hnone.
    replace (n2 + n1 + h) with (h + n1 + n2) in Hnone by lia.
    rewrite Ea in Hnone. discriminate.
  - intros H n1 Hn1 Hp1. rewrite prefix_ok_delim in Hp1. apply Nat.leb_le in Hp1.
    unfold k_delim. apply rep_none_iff. intros n2 Hn2 Hp2.
    unfold k_body. rewrite !skipn_skipn.
    replace (n2 + n1 + h) with (h + n1 + n2) by lia.
    rewrite (H eq_refl n1 n2); auto.
Qed.

End SectionMatch.

(* ================================================================== *)
(** * [GetDiscussionSection] for plain names *)

Section ExtractorFacts.

Variable U : CaseTables.

Lemma find_from_first (re : Regexp) (a : caps) (s : gostring) :
  forall i p, i <= List.length s ->
  (forall j, j < i -> match_here U re (p + j) (skipn j s) = None) ->
  match_here U re (p + i) (skipn i s) = Some a ->
  find_from U re p s = Some a.
Proof.
  induction s as [|x s IH]; intros i p Hi Hn Hm.
  - assert (i = 0) as -> by (simpl in Hi; lia). rewrite Nat.add_0_r in Hm. simpl in *.
    now rewrite Hm.
  - destruct i as [|i].
    + rewrite Nat.add_0_r in Hm. simpl in *. now rewrite Hm.
    + cbn [find_from]. pose proof (Hn 0 (Nat.lt_0_succ _)) as H0.
      rewrite Nat.add_0_r in H0. cbn [skipn] in H0. rewrite H0.
      apply (IH i (S p)).
      * simpl in Hi. lia.
      * intros j Hj. specialize (Hn (S j)). rewrite Nat.add_succ_r in Hn. apply Hn. lia.
      * rewrite Nat.add_succ_r in Hm. exact Hm.
Qed.

Lemma lit_match_refl (fold : bool) (r : rune) : lit_match U fold r r = true.
Proof. unfold lit_match, rune_eqb. now rewrite N.eqb_refl. Qed.

Lemma fold_prefix_refl (name rest : gostring) : fold_prefix U name (name ++ rest) = true.
Proof.
  induction name as [|r name IH]; [reflexivity|]. cbn [app fold_prefix].
  now rewrite lit_match_refl, IH.
Qed.

Lemma fold_prefix_app (name : gostring) :
  forall hdr rest, fold_prefix U name hdr = true -> fold_prefix U name (hdr ++ rest) = true.
Proof.
  induction name as [|r name IH]; intros [|x hdr] rest H; simpl in *; auto; try discriminate.
  apply andb_true_iff in H as [H1 H2]. rewrite H1. simpl. now apply IH.
Qed.

Lemma run_len_app (f : rune -> bool) (d rest : gostring) :
  forallb f d = true ->
  match rest with x :: _ => f x = false | [] => True end ->
  run_len f (d ++ rest) = List.length d.
Proof.
  induction d as [|y d IH]; intros Hd Hr.
  - destruct rest as [|x rest]; [reflexivity|]. simpl. now rewrite Hr.
  - simpl in Hd. apply andb_true_iff in Hd as [Hy Hd]. simpl. rewrite Hy. now rewrite IH.
Qed.

Lemma has_amp2_skipn (s : gostring) :
  has_amp2 s = false -> forall j, amp2 (skipn j s) = false.
Proof.
  induction s as [|x s IH]; intros H j.
  - now rewrite skipn_nil.
  - cbn [has_amp2] in H. apply orb_false_iff in H as [H1 H2].
    destruct j as [|j]; [exact H1|]. cbn [skipn]. now apply IH.
Qed.

(** Inside the body the pattern sees what [body_ok] looked at. *)
Lemma amp2_inside (t rest : gostring) :
  forall j, j < List.length t ->
  amp2 (skipn j (t ++ amp :: amp :: rest)) = amp2 (skipn j (t ++ [amp])).
Proof.
  induction t as [|y t IH]; intros j Hj; simpl in Hj; [lia|].
  destruct j as [|j].
  - cbn [skipn app]. destruct t; reflexivity.
  - cbn [skipn app]. apply IH. lia.
Qed.

Lemma no_header_before_spec (NAME text : gostring) (n : nat) :
  no_header_before U NAME text n = true ->
  forall i, i < n -> header_at U NAME (skipn i text) = false.
Proof.
  unfold no_header_before. rewrite forallb_forall. intros H i Hi.
  apply negb_true_iff. apply H. apply in_seq. lia.
Qed.

Lemma no_header_no_match (NAME s : gostring) (p : nat) :
  header_at U NAME s = false -> match_here U (section_re NAME) p s = None.
Proof.
  intros H. apply match_section_none. intros Hf n1 n2 Hn1 _.
  unfold header_at in H. rewrite Hf in H. cbn [andb] in H.
  destruct (skipn (S (List.length NAME)) s) as [|x t]; simpl in Hn1; [lia|].
  rewrite H in Hn1. lia.
Qed.

(** The match found in a text whose first header is followed by a body
    that [body_ok] accepts. *)
Theorem section_found (NAME pre hdr delim body post : gostring) :
  fold_prefix U (dot :: NAME) hdr = true ->
  List.length hdr = S (List.length NAME) ->
  delim <> [] ->
  forallb is_delim delim = true ->
  body_ok body = true ->
  no_header_before U NAME (pre ++ hdr ++ delim ++ body ++ amp :: amp :: post)
    (List.length pre) = true ->
  find_from U (section_re NAME) 0 (pre ++ hdr ++ delim ++ body ++ amp :: amp :: post)
  = Some [Some (List.length pre,
                List.length pre + List.length hdr + List.length delim + List.length body + 2);
          Some (List.length pre + List.length hdr + List.length delim,
                List.length pre + List.length hdr + List.length delim + List.length body)].
Proof.
  intros Hh Hlen Hd Hdelim Hbody Hbefore.
  set (text := pre ++ hdr ++ delim ++ body ++ amp :: amp :: post).
  apply find_from_first with (i := List.length pre).
  - unfold text. rewrite length_app. lia.
  - intros j Hj. apply no_header_no_match.
    apply (no_header_before_spec _ _ _ Hbefore). exact Hj.
  - unfold text. rewrite skipn_pre. cbn [Nat.add]. rewrite match_section.
    rewrite (fold_prefix_app _ _ _ Hh).
    rewrite <- Hlen, skipn_pre.
    destruct body as [|x t]; [discriminate|].
    cbn [body_ok] in Hbody. apply andb_true_iff in Hbody as [Hx Hamp].
    apply negb_true_iff in Hx. apply negb_true_iff in Hamp.
    assert (run_len is_delim (delim ++ (x :: t) ++ amp :: amp :: post) = List.length delim) as Hrun
      by (apply run_len_app; [assumption|exact Hx]).
    apply rep_greedy_run with (f := is_delim); [apply atom_delim| |].
    + rewrite Hrun. destruct delim; [congruence|simpl; lia].
    + rewrite Hrun, skipn_pre. unfold k_delim.
      apply rep_lazy_eq with (n := List.length (x :: t)).
      * simpl. lia.
      * rewrite prefix_ok_any. apply Nat.leb_le. rewrite length_app. lia.
      * unfold k_body. rewrite skipn_pre. cbn [amp2]. unfold rune_eqb. rewrite N.eqb_refl.
        cbn [andb]. repeat f_equal; lia.
      * intros n' Hn1 Hn2. unfold k_body.
        destruct n' as [|n']; [lia|]. cbn [app skipn].
        rewrite amp2_inside by (simpl in Hn2; lia).
        now rewrite (has_amp2_skipn _ Hamp).
Qed.

(** [GetDiscussionSection] in terms of the search, for a plain name. *)
Theorem GetDiscussionSection_plain (s : Product) (sectionName : gostring) :
  let NAME := ToUpper U (ToLower U sectionName) in
  plain NAME = true ->
  GetDiscussionSection U s sectionName
  = match find_from U (section_re NAME) 0 (ProductText s) with
    | None => Ret (Bad (not_found_message NAME))
    | Some a =>
        Ret (Good (formatDiscussionItem U NAME
                     (sanitize (cap_text (ProductText s) (nth 1 a None)))))
    end.
Proof.
  intros NAME Hp. unfold GetDiscussionSection. fold NAME.
  unfold MustCompile, section_pattern. rewrite (compile_section _ Hp). cbn [obind].
  unfold FindStringSubmatch, doExecute. cbn [skipn].
  destruct (find_from U (section_re NAME) 0 (ProductText s)) as [a|] eqn:Ef; [|reflexivity].
  destruct (find_from_inv U _ _ _ _ Ef) as (i & _ & Hm & _).
  destruct (match_section_some U _ _ _ _ Hm) as (n1 & n2 & _ & _ & _ & _ & Ha & _).
  rewrite Ha. cbn [map List.length Nat.ltb Nat.leb nth].
  rewrite sanitizeString_eq. reflexivity.
Qed.

End ExtractorFacts.

(* ================================================================== *)
(** * Properties of the section extractor *)




Section SectionFacts.

Variable U : CaseTables.

Lemma run_len_ge (f : rune -> bool) (d rest : gostring) :
  forallb f d = true -> List.length d <= run_len f (d ++ rest).
Proof.
  induction d as [|y d IH]; intros Hd; simpl; [lia|].
  simpl in Hd. apply andb_true_iff in Hd as [Hy Hd]. rewrite Hy. specialize (IH Hd). lia.
Qed.

Lemma run_len_firstn (f : rune -> bool) (s : gostring) :
  forall n, n <= run_len f s -> forallb f (firstn n s) = true.
Proof.
  induction s as [|x s IH]; intros [|n] Hn; simpl in *; auto; try lia.
  destruct (f x); [|lia]. simpl. apply IH. lia.
Qed.

Lemma fold_prefix_firstn (name : gostring) :
  forall s, fold_prefix U name s = true ->
  fold_prefix U name (firstn (List.length name) s) = true
  /\ List.length (firstn (List.length name) s) = List.length name.
Proof.
  induction name as [|r name IH]; intros s H; [split; reflexivity|].
  destruct s as [|x s]; [discriminate|]. cbn [fold_prefix] in H.
  apply andb_true_iff in H as [H1 H2]. destruct (IH _ H2) as [IH1 IH2].
  cbn [List.length firstn fold_prefix]. rewrite H1, IH1, IH2. split; reflexivity.
Qed.

(** Where a section begins, the pattern matches. *)
Lemma section_at_match (NAME hdr delim body rest : gostring) (p : nat) :
  fold_prefix U (dot :: NAME) hdr = true ->
  List.length hdr = S (List.length NAME) ->
  delim <> [] -> forallb is_delim delim = true -> body <> [] ->
  match_here U (section_re NAME) p (hdr ++ delim ++ body ++ amp :: amp :: rest) <> None.
Proof.
  intros Hh Hlen Hd Hdelim Hbody Hnone.
  pose proof (proj1 (match_section_none U NAME p _) Hnone (fold_prefix_app U _ _ _ Hh)
                (List.length delim) (List.length body)) as H.
  rewrite <- Hlen, skipn_pre in H.
  assert (amp2 (skipn (List.length hdr + List.length delim + List.length body)
                  (hdr ++ delim ++ body ++ amp :: amp :: rest)) = true) as Ha.
  { replace (List.length hdr + List.length delim + List.length body)
      with (List.length body + (List.length delim + List.length hdr)) by lia.
    rewrite <- !skipn_skipn. rewrite !skipn_pre. reflexivity. }
  rewrite H in Ha; [discriminate| |].
  - split; [destruct delim; [congruence|simpl; lia]|now apply run_len_ge].
  - destruct body; [congruence|simpl; lia].
Qed.

Lemma has_amp2_none (s : gostring) :
  (forall j, amp2 (skipn j s) = false) -> has_amp2 s = false.
Proof.
  induction s as [|x s IH]; intros H; [reflexivity|].
  cbn [has_amp2]. pose proof (H 0) as H0. cbn [skipn] in H0. rewrite H0. cbn [orb].
  apply IH. intros j. apply (H (S j)).
Qed.

(** Where the pattern matches, a section begins; the first group is its
    body, and no two ampersands begin after the first rune of the body, its
    last rune and the terminator included. *)
Lemma match_section_at (NAME s : gostring) (p : nat) (a : caps) :
  match_here U (section_re NAME) p s = Some a ->
  exists hdr delim body rest,
    s = hdr ++ delim ++ body ++ amp :: amp :: rest
    /\ fold_prefix U (dot :: NAME) hdr = true
    /\ List.length hdr = S (List.length NAME)
    /\ delim <> [] /\ forallb is_delim delim = true /\ body <> []
    /\ nth 1 a None = Some (p + List.length hdr + List.length delim,
                            p + List.length hdr + List.length delim + List.length body)
    /\ has_amp2 (tl (body ++ [amp])) = false.
Proof.
  intros H.
  destruct (match_section_some U _ _ _ _ H) as (n1 & n2 & Hf & Hn1 & Hn2 & Ha2 & Ha & Hmin & _).
  cbv zeta in *. set (h := S (List.length NAME)) in *.
  pose proof (amp2_skipn_length _ _ Ha2) as Hlen.
  destruct (skipn (h + n1 + n2) s) as [|x [|y rest]] eqn:Es; try discriminate.
  cbn [amp2] in Ha2. apply andb_true_iff in Ha2 as [Hx Hy].
  apply N.eqb_eq in Hx, Hy. subst x y.
  destruct (fold_prefix_firstn _ _ Hf) as [Hf1 Hf2]. cbn [List.length] in Hf1, Hf2. fold h in Hf1, Hf2.
  set (hdr := firstn h s). set (delim := firstn n1 (skipn h s)).
  set (body := firstn n2 (skipn n1 (skipn h s))).
  exists hdr, delim, body, rest.
  assert (List.length delim = n1) as Hl1
    by (unfold delim; rewrite length_firstn, length_skipn; lia).
  assert (List.length body = n2) as Hl2
    by (unfold body; rewrite length_firstn, !length_skipn; lia).
  assert (s = hdr ++ delim ++ body ++ amp :: amp :: rest) as Hs.
  { rewrite <- Es. replace (h + n1 + n2) with (n2 + (n1 + h)) by lia.
    rewrite <- !skipn_skipn. unfold hdr, delim, body. now rewrite !firstn_skipn. }
  repeat split.
  - exact Hs.
  - exact Hf1.
  - exact Hf2.
  - intros E. rewrite E in Hl1. simpl in Hl1. lia.
  - apply run_len_firstn. lia.
  - intros E. rewrite E in Hl2. simpl in Hl2. lia.
  - rewrite Ha. fold hdr in Hf2. rewrite Hf2, Hl1, Hl2. reflexivity.
  - apply has_amp2_none. intros j.
    destruct body as [|b0 t] eqn:Eb; [simpl in Hl2; lia|]. cbn [app tl].
    destruct (Nat.lt_ge_cases j (List.length t)) as [Hj|Hj].
    + rewrite <- (amp2_inside t rest j Hj).
      specialize (Hmin (S j)). rewrite Hs in Hmin.
      replace (h + n1 + S j) with (S j + (n1 + h)) in Hmin by lia.
      rewrite <- !skipn_skipn in Hmin. fold hdr in Hf2.
      rewrite <- Hf2, skipn_pre, <- Hl1, skipn_pre in Hmin.
      cbn [skipn app] in Hmin. apply Hmin. simpl in Hl2. lia.
    + rewrite skipn_app, (skipn_all2 t) by exact Hj. cbn [app].
      destruct (j - List.length t) as [|[|k]]; reflexivity.
Qed.

(** The search finds nothing exactly when the text has no section. *)
Lemma find_section_none (NAME text : gostring) :
  find_from U (section_re NAME) 0 text = None <->
  ~ (exists pre hdr delim body rest,
       text = pre ++ hdr ++ delim ++ body ++ amp :: amp :: rest
       /\ fold_prefix U (dot :: NAME) hdr = true
       /\ List.length hdr = S (List.length NAME)
       /\ delim <> [] /\ forallb is_delim delim = true /\ body <> []).
Proof.
  split.
  - intros Ef (pre & hdr & delim & body & rest & Hs & Hf & Hl & Hd & Hdel & Hb).
    assert (List.length pre <= List.length text) as Hle by (rewrite Hs, length_app; lia).
    pose proof (proj1 (find_from_none U _ _ _) Ef (List.length pre) Hle) as Hnone.
    rewrite Hs, skipn_pre in Hnone.
    exact (section_at_match NAME hdr delim body rest _ Hf Hl Hd Hdel Hb Hnone).
  - intros Hno. destruct (find_from U (section_re NAME) 0 text) as [a|] eqn:Ef; [|reflexivity].
    exfalso. apply Hno.
    destruct (find_from_inv U _ _ _ _ Ef) as (i & Hi & Hm & _).
    destruct (match_section_at _ _ _ _ Hm)
      as (hdr & delim & body & rest & Hs & Hf & Hl & Hd & Hdel & Hb & _).
    exists (firstn i text), hdr, delim, body, rest. repeat split; auto.
    rewrite <- Hs. now rewrite firstn_skipn.
Qed.

End SectionFacts.

(** Whatever is around it, a section [.SYNOPSIS...<body>&&] makes the
    extractor succeed (with the text of the first section it finds). *)
Lemma synopsis_found (U : CaseTables) (pre body post : gostring) :
  exists out,
    GetDiscussionSection U (product_of_text (synopsis_text pre body post)) (str "synopsis")
    = Ret (Good out).
Proof.
  rewrite GetDiscussionSection_plain by reflexivity.
  change (ToUpper U (ToLower U (str "synopsis"))) with (str "SYNOPSIS").
  destruct (find_from U (section_re (str "SYNOPSIS")) 0
              (ProductText (product_of_text (synopsis_text pre body post)))) as [a|] eqn:Ef;
    [eauto|].
  exfalso. apply (proj1 (find_section_none U _ _) Ef).
  exists pre, (str ".SYNOPSIS"), (str ".."), (dot :: body), post.
  repeat split; try reflexivity; discriminate.
Qed.

(* ------------------------------------------------------------------ *)
(** ** When the section is not found *)

(** C3, as stated, fails: in [.SYNOPSIS &&] the header is there and the
    terminator follows it, and the extractor reports the section as not
    found: the pattern asks for a body of at least one rune. *)
Lemma not_found_unless_header_fails :
  ~ (forall U text sectionName,
       not_found_unless (header_then_terminator U (ToUpper U (ToLower U sectionName)) text)
         U text sectionName).
Proof.
  intros H. destruct (H ascii_tables (str ".SYNOPSIS &&") (str "synopsis")) as [H1 _].
  destruct H1 as [out Hout].
  - exists [], (str ".SYNOPSIS"), (str " "), [], [].
    repeat split; try reflexivity. discriminate.
  - vm_compute in Hout. discriminate Hout.
Qed.

(** C3, amended: for a section name without pattern metacharacters the
    extractor fails, with the error naming the upper-cased section name,
    exactly when the text has no header of that name followed by one or more
    delimiter runes, a body of at least one rune and the terminator; in every
    other case it succeeds. *)
Theorem not_found_unless_section (U : CaseTables) (text sectionName : gostring) :
  plain (ToUpper U (ToLower U sectionName)) = true ->
  not_found_unless (has_section U (ToUpper U (ToLower U sectionName)) text) U text sectionName.
Proof.
  intros Hp. unfold not_found_unless. cbv zeta.
  set (NAME := ToUpper U (ToLower U sectionName)) in *.
  rewrite (GetDiscussionSection_plain U (product_of_text text) sectionName Hp). fold NAME.
  cbn [ProductText product_of_text].
  pose proof (find_section_none U NAME text) as Hiff. fold (has_section U NAME text) in Hiff.
  unfold has_section, section_at in *.
  destruct (find_from U (section_re NAME) 0 text) as [a|] eqn:Ef.
  - split; [intros _; eauto|]. intros Hno. apply Hiff in Hno. discriminate Hno.
  - split; [|reflexivity]. intros Hyes. exfalso. exact (proj1 Hiff eq_refl Hyes).
Qed.

Lemma not_found_unless_section_witness :
  plain (ToUpper ascii_tables (ToLower ascii_tables (str "marine"))) = true
  /\ not_found_unless
       (has_section ascii_tables (ToUpper ascii_tables (ToLower ascii_tables (str "marine")))
          (str ".AVIATION...Ceilings AOA 5000 ft.&&"))
       ascii_tables (str ".AVIATION...Ceilings AOA 5000 ft.&&") (str "marine").
Proof.
  split; [reflexivity|].
  apply (not_found_unless_section ascii_tables (str ".AVIATION...Ceilings AOA 5000 ft.&&")
           (str "marine")).
  reflexivity.
Defined.

(* ------------------------------------------------------------------ *)
(** ** Which section is returned *)




(** Of two sections of the name, the first one is returned. *)
Example two_sections_first_returned (U : CaseTables) :
  GetDiscussionSection U (product_of_text (str ".SYNOPSIS...Dry.&& .SYNOPSIS...Wet.&&"))
    (str "synopsis")
  = Ret (Good (str "SYNOPSIS:" ++ newline :: newline :: str "Dry.")).
Proof. vm_compute. reflexivity. Qed.

(* ------------------------------------------------------------------ *)
(** ** What the returned text contains *)

(** C10, as stated, fails: the body [x&<tab>&y] has no terminator in it, and
    once [sanitizeString] has dropped the tab the returned text reads
    [x&&y]. *)
Lemma clean_section_text_fails :
  ~ (forall U text sectionName, clean_section_text U text sectionName).
Proof.
  intros H.
  destruct (H ascii_tables
              (str ".SYNOPSIS...x&" ++ 9%N :: str "&y&&") (str "synopsis") (str "x&&y"))
    as [Hamp _].
  - vm_compute. reflexivity.
  - vm_compute in Hamp. discriminate Hamp.
Qed.

Lemma strip_tabs_clean (s : gostring) : no_tab_cr (strip_tabs s) = true.
Proof.
  unfold no_tab_cr, strip_tabs. apply forallb_forall. intros r Hr.
  apply filter_In in Hr. tauto.
Qed.

Lemma formatDiscussionItem_inj (U : CaseTables) (NAME a b : gostring) :
  formatDiscussionItem U NAME a = formatDiscussionItem U NAME b -> a = b.
Proof.
  unfold formatDiscussionItem. intros H. apply app_inv_head in H. now apply app_inv_head in H.
Qed.

(** C10, amended: on every successful call the text after the heading is
    [sanitizeString] of a raw body and has no tab and no carriage return in
    it; for a section name without pattern metacharacters the raw body is a
    part of the product text followed by the terminator, and no two
    ampersands begin after its first rune (its last rune and the terminator
    included).  Two ampersands can still appear in the returned text: at the
    very start of the body, or where normalization joins them. *)
Theorem section_text_after_heading (U : CaseTables) (text sectionName body : gostring) :
  let NAME := ToUpper U (ToLower U sectionName) in
  GetDiscussionSection U (product_of_text text) sectionName
  = Ret (Good (formatDiscussionItem U NAME body)) ->
  no_tab_cr body = true
  /\ exists raw,
       sanitizeString U raw = Ret body
       /\ (plain NAME = true ->
           raw <> [] /\ has_amp2 (tl (raw ++ [amp])) = false
           /\ exists pre rest, text = pre ++ raw ++ amp :: amp :: rest).
Proof.
  intros NAME HG. unfold GetDiscussionSection in HG. fold NAME in HG.
  destruct (MustCompile (section_pattern NAME)) as [re| | |] eqn:Ec; try discriminate.
  cbn [obind] in HG.
  destruct (FindStringSubmatch U re (ProductText (product_of_text text))) as [l|] eqn:Ef;
    [|discriminate].
  destruct (List.length l <? 2) eqn:El; [discriminate|].
  rewrite sanitizeString_eq in HG. cbn [obind] in HG.
  injection HG as HG. apply formatDiscussionItem_inj in HG. subst body.
  split; [apply strip_tabs_clean|].
  exists (nth 1 l []). split; [apply sanitizeString_eq|].
  intros Hp. unfold MustCompile, section_pattern in Ec. rewrite (compile_section _ Hp) in Ec.
  injection Ec as <-.
  unfold FindStringSubmatch, doExecute in Ef. cbn [skipn ProductText product_of_text] in Ef.
  destruct (find_from U (section_re NAME) 0 text) as [a|] eqn:Efind; [|discriminate].
  injection Ef as <-.
  destruct (find_from_inv U _ _ _ _ Efind) as (i & Hi & Hm & _).
  destruct (match_section_at U _ _ _ _ Hm)
    as (hdr & delim & raw & rest & Hs & Hf & Hl & Hd & Hdel & Hb & Hcap & Hmin).
  assert (List.length (firstn i text) = i) as Hli by (rewrite length_firstn; lia).
  assert (text = (firstn i text ++ hdr ++ delim) ++ raw ++ amp :: amp :: rest) as Ht.
  { rewrite <- !app_assoc. rewrite <- Hs. now rewrite firstn_skipn. }
  assert (nth 1 (map (cap_text text) a) [] = raw) as ->.
  { change (@nil rune) with (cap_text text None). rewrite map_nth, Hcap.
    cbn [cap_text Nat.add]. rewrite Ht at 1.
    replace (i + List.length hdr + List.length delim)
      with (List.length (firstn i text ++ hdr ++ delim))
      by (rewrite !length_app; lia).
    apply slice_mid. }
  repeat split; auto.
  exists (firstn i text ++ hdr ++ delim), rest. exact Ht.
Qed.

Lemma section_text_after_heading_witness :
  no_tab_cr (str "Ceilings AOA 5000 ft.") = true
  /\ exists raw,
       sanitizeString ascii_tables raw = Ret (str "Ceilings AOA 5000 ft.")
       /\ (plain (ToUpper ascii_tables (ToLower ascii_tables (str "aviation"))) = true ->
           raw <> [] /\ has_amp2 (tl (raw ++ [amp])) = false
           /\ exists pre rest,
                str ".AVIATION...Ceilings AOA 5000 ft.&&" = pre ++ raw ++ amp :: amp :: rest).
Proof.
  apply (section_text_after_heading ascii_tables (str ".AVIATION...Ceilings AOA 5000 ft.&&")
           (str "aviation") (str "Ceilings AOA 5000 ft.")).
  reflexivity.
Defined.

(* ------------------------------------------------------------------ *)
(** ** Section names with pattern metacharacters *)

(** C7 fails on the code: the section name goes into the pattern as it is,
    and on the name [(] the pattern has an unclosed group, so that
    [regexp.MustCompile] panics whatever the product text is. *)
Theorem unescaped_name_panics (U : CaseTables) (s : Product) :
  GetDiscussionSection U s (str "(") = Panic.
Proof. reflexivity. Qed.

(** For a name without pattern metacharacters the call always returns: the
    section text or the error. *)
Lemma plain_name_returns (U : CaseTables) (s : Product) (sectionName : gostring) :
  plain (ToUpper U (ToLower U sectionName)) = true ->
  exists r, GetDiscussionSection U s sectionName = Ret r.
Proof.
  intros Hp. rewrite (GetDiscussionSection_plain U s sectionName Hp).
  destruct (find_from U _ 0 (ProductText s)); eauto.
Qed.

(** The end-to-end example of the specification. *)
Example aviation_example (U : CaseTables) :
  GetDiscussionSection U (product_of_text (str ".AVIATION...Ceilings AOA 5000 ft.&&"))
    (str "aviation")
  = Ret (Good (str "AVIATION:" ++ newline :: newline :: str "Ceilings AOA 5000 ft.")).
Proof. vm_compute. reflexivity. Qed.

(* ================================================================== *)
(** * Properties of the normalizer *)

(** C4 fails on the code: of two lone newlines that are two runes apart the
    second one stays, because the search for the next match resumes after the
    rune that followed the first.  In [a\nb\nc] every newline sits between
    two runes that are not newlines; the four steps as worded give [abc],
    [sanitizeString] gives [ab\nc]. *)
Theorem sanitizeString_keeps_second_newline (U : CaseTables) :
  sanitizeString U three_lines = Ret (str "ab" ++ newline :: str "c")
  /\ normalize_spec three_lines = str "abc".
Proof. split; reflexivity. Qed.

(** The example of the specification, on which both agree. *)
Example two_lines_joined (U : CaseTables) :
  sanitizeString U (str "line one" ++ newline :: str "line two") = Ret (str "line oneline two")
  /\ normalize_spec (str "line one" ++ newline :: str "line two") = str "line oneline two".
Proof. split; vm_compute; reflexivity. Qed.

(* ------------------------------------------------------------------ *)
(** ** Idempotence *)

(** C5, as stated, fails: the runs of spaces are deleted before the tabs are
    removed, so [a <tab> b] becomes [a  b], and a second pass gives [ab]. *)
Lemma sanitize_twice_same_fails : ~ (forall U x, sanitize_twice_same U x).
Proof.
  intros H. specialize (H ascii_tables (str "a " ++ 9%N :: str " b")).
  vm_compute in H. discriminate H.
Qed.

Lemma is_space_is_sep (x : rune) : is_space x = true -> is_space_sep x = true.
Proof.
  unfold is_space, is_space_sep, is_perl_space, space. intros H. rewrite H.
  now rewrite !orb_true_r.
Qed.

Lemma is_space_not_nl (x : rune) : is_space x = true -> is_nl x = false.
Proof.
  unfold is_space, is_nl, rune_eqb, space, newline. intros H. apply N.eqb_eq in H. now subst.
Qed.

(** *** Trimming *)

Lemma ltrim_head (s : gostring) : head_not_space_sep (ltrim s) = true.
Proof.
  induction s as [|x s IH]; [reflexivity|]. cbn [ltrim].
  destruct (is_space_sep x) eqn:E; [exact IH|]. cbn. now rewrite E.
Qed.

Lemma rtrim_head (s : gostring) : head_not_space_sep s = true -> head_not_space_sep (rtrim s) = true.
Proof.
  destruct s as [|x s]; [reflexivity|]. cbn [rtrim].
  destruct (forallb is_space_sep (x :: s)); [reflexivity|]. exact (fun H => H).
Qed.

Lemma rtrim_no_space_tail (s : gostring) : no_space_tail (rtrim s) = true.
Proof.
  induction s as [|x s IH]; [reflexivity|]. cbn [rtrim].
  destruct (forallb is_space_sep (x :: s)) eqn:E; [reflexivity|].
  cbn [no_space_tail]. rewrite IH, andb_true_r. apply negb_true_iff.
  cbn [forallb] in *. destruct (is_space_sep x); [|reflexivity]. cbn [andb] in *.
  clear IH. induction s as [|y s IHs]; [discriminate|].
  cbn [rtrim]. destruct (forallb is_space_sep (y :: s)) eqn:Ey; [discriminate|].
  cbn [forallb] in *. destruct (is_space_sep y); [|reflexivity]. cbn [andb] in *.
  now apply IHs.
Qed.

Lemma ltrim_id (s : gostring) : head_not_space_sep s = true -> ltrim s = s.
Proof.
  destruct s as [|x s]; [reflexivity|]. cbn. intros H. apply negb_true_iff in H. now rewrite H.
Qed.

Lemma rtrim_id (s : gostring) : no_space_tail s = true -> rtrim s = s.
Proof.
  induction s as [|x s IH]; [reflexivity|]. cbn [no_space_tail rtrim]. intros H.
  apply andb_true_iff in H as [H1 H2]. apply negb_true_iff in H1. rewrite H1.
  now rewrite IH.
Qed.

Lemma trim_id (s : gostring) :
  head_not_space_sep s = true -> no_space_tail s = true -> trim s = s.
Proof. intros H1 H2. unfold trim. now rewrite (ltrim_id _ H1), (rtrim_id _ H2). Qed.

(** *** Lone newlines *)

Lemma lone_free_from_weaken (s : gostring) (p q : bool) :
  lone_free_from p s = true -> (q = true -> p = true) -> lone_free_from q s = true.
Proof.
  destruct s as [|b s]; [reflexivity|]. cbn [lone_free_from]. intros H Hq.
  apply andb_true_iff in H as [H1 H2]. rewrite H2, andb_true_r.
  destruct q; [now rewrite (Hq eq_refl) in H1|]. now rewrite andb_false_r.
Qed.

Lemma join_lines_id (s : gostring) :
  forall p, lone_free_from p s = true -> join_lines s = s.
Proof.
  induction s as [|a s1 IH]; intros p H; [reflexivity|].
  cbn [lone_free_from] in H. apply andb_true_iff in H as [_ H].
  cbn [join_lines]. destruct s1 as [|b [|c t]].
  - reflexivity.
  - now rewrite (IH _ H).
  - destruct (negb (is_nl a) && is_nl b && negb (is_nl c)) eqn:E.
    + exfalso. cbn [lone_free_from] in H. apply andb_true_iff in H as [H _].
      apply andb_true_iff in E as [E Ec]. apply andb_true_iff in E as [Ea Eb].
      rewrite Ea, Eb, Ec in H. discriminate.
    + now rewrite (IH _ H).
Qed.

Lemma lone_free_ltrim (s : gostring) : lone_free s = true -> lone_free (ltrim s) = true.
Proof.
  unfold lone_free. induction s as [|x s IH]; intros H; [reflexivity|].
  cbn [ltrim]. destruct (is_space_sep x); [|exact H]. apply IH.
  cbn [lone_free_from] in H. apply andb_true_iff in H as [_ H].
  apply (lone_free_from_weaken _ _ _ H). discriminate.
Qed.

Lemma rtrim_next (s : gostring) (c : rune) (t : gostring) :
  rtrim s = c :: t -> exists t', s = c :: t'.
Proof.
  destruct s as [|x s]; [discriminate|]. cbn [rtrim].
  destruct (forallb is_space_sep (x :: s)); [discriminate|]. intros H. injection H as -> _. eauto.
Qed.

Lemma lone_free_rtrim (s : gostring) :
  forall p, lone_free_from p s = true -> lone_free_from p (rtrim s) = true.
Proof.
  induction s as [|x s IH]; intros p H; [reflexivity|].
  cbn [rtrim]. destruct (forallb is_space_sep (x :: s)); [reflexivity|].
  cbn [lone_free_from] in *. apply andb_true_iff in H as [H1 H2].
  rewrite (IH _ H2), andb_true_r.
  destruct (rtrim s) as [|c t] eqn:E; [now rewrite !andb_false_r|].
  destruct (rtrim_next _ _ _ E) as [t' ->]. exact H1.
Qed.

Lemma del_runs_next_not_nl (s : gostring) (f : bool) :
  next_not_nl (del_runs f s) = true -> next_not_nl s = true.
Proof.
  destruct s as [|z s]; [intros H; exact H|]. cbn [next_not_nl].
  destruct (is_nl z) eqn:Ez; [|reflexivity].
  assert (is_space z = false) as Es.
  { destruct (is_space z) eqn:E; [|reflexivity]. now rewrite (is_space_not_nl _ E) in Ez. }
  cbn [del_runs]. rewrite Es. cbn [next_not_nl]. now rewrite Ez.
Qed.

Lemma lone_free_del_runs (s : gostring) :
  forall f p q, lone_free_from p s = true -> (q = true -> p = true) ->
  lone_free_from q (del_runs f s) = true.
Proof.
  induction s as [|x s IH]; intros f p q H Hq; [reflexivity|].
  cbn [lone_free_from] in H. apply andb_true_iff in H as [H1 H2].
  cbn [del_runs]. destruct (is_space x) eqn:Ex.
  - pose proof (is_space_not_nl _ Ex) as Enl. rewrite Enl in H2. cbn [negb] in H2.
    assert (forall f', lone_free_from q (del_runs f' s) = true) as Hin
      by (intros f'; apply (IH f' true q H2); reflexivity).
    destruct f; [apply Hin|].
    destruct s as [|y t]; [cbn; now rewrite Enl|].
    destruct (is_space y) eqn:Ey; [apply Hin|].
    cbn [lone_free_from]. rewrite Enl. cbn [andb negb].
    apply (IH false true true H2). reflexivity.
  - cbn [lone_free_from]. rewrite (IH false _ _ H2 (fun e => e)), andb_true_r.
    apply negb_true_iff. apply negb_true_iff in H1.
    destruct (is_nl x); [|reflexivity]. cbn [andb] in *.
    destruct q; [|reflexivity]. rewrite (Hq eq_refl) in H1. cbn [andb] in *.
    fold (next_not_nl (del_runs false s)). fold (next_not_nl s) in H1.
    destruct (next_not_nl (del_runs false s)) eqn:En; [|reflexivity].
    now rewrite (del_runs_next_not_nl _ _ En) in H1.
Qed.

(** *** Runs of spaces *)

Lemma del_runs_no_double (s : gostring) :
  forall f, no_double_space (del_runs f s) = true
            /\ (f = true -> match del_runs f s with y :: _ => is_space y = false | [] => True end).
Proof.
  induction s as [|x s IH]; intros f; [split; [reflexivity|intros; exact I]|].
  cbn [del_runs]. destruct (is_space x) eqn:Ex.
  - destruct f; [apply IH|]. split; [|discriminate].
    destruct s as [|y t]; [cbn; now rewrite Ex|].
    destruct (is_space y) eqn:Ey; [apply IH|].
    cbn [no_double_space]. destruct (IH false) as [IH1 _].
    cbn [del_runs] in IH1 |- *. rewrite Ey in IH1 |- *. rewrite Ey, IH1.
    now rewrite andb_false_r.
  - split; [|intros _; exact Ex]. cbn [no_double_space]. rewrite Ex. cbn [andb negb].
    apply IH.
Qed.

Lemma del_runs_id (s : gostring) : no_double_space s = true -> del_runs false s = s.
Proof.
  induction s as [|x s IH]; intros H; [reflexivity|].
  cbn [no_double_space] in H. apply andb_true_iff in H as [H1 H2].
  cbn [del_runs]. destruct (is_space x) eqn:Ex.
  - destruct s as [|y t]; [reflexivity|]. cbn [andb] in H1. apply negb_true_iff in H1.
    rewrite H1. now rewrite (IH H2).
  - now rewrite (IH H2).
Qed.

Lemma del_runs_head (s : gostring) :
  head_not_space_sep s = true -> head_not_space_sep (del_runs false s) = true.
Proof.
  destruct s as [|x s]; [reflexivity|]. cbn [head_not_space_sep del_runs]. intros H.
  destruct (is_space x) eqn:Ex; [|exact H].
  apply negb_true_iff in H. now rewrite (is_space_is_sep _ Ex) in H.
Qed.

(** A rune that is no white space survives the deletion of the runs. *)
Lemma del_runs_keeps (s : gostring) :
  forall f, forallb is_space_sep (del_runs f s) = true -> forallb is_space_sep s = true.
Proof.
  induction s as [|x s IH]; intros f H; [reflexivity|].
  cbn [del_runs] in H. cbn [forallb]. destruct (is_space x) eqn:Ex.
  - rewrite (is_space_is_sep _ Ex). cbn [andb].
    destruct f; [now apply (IH true)|].
    destruct s as [|y t]; [reflexivity|].
    destruct (is_space y) eqn:Ey; [now apply (IH true)|].
    cbn [forallb] in H. apply andb_true_iff in H as [_ H]. now apply (IH false).
  - cbn [forallb] in H. apply andb_true_iff in H as [H1 H2]. rewrite H1. now apply (IH false).
Qed.

Lemma del_runs_no_space_tail (s : gostring) :
  forall f, no_space_tail s = true -> no_space_tail (del_runs f s) = true.
Proof.
  induction s as [|x s IH]; intros f H; [reflexivity|].
  cbn [no_space_tail] in H. apply andb_true_iff in H as [H1 H2].
  apply negb_true_iff in H1.
  assert (forall t, del_runs false (x :: s) = x :: t -> t = del_runs false s ->
                    no_space_tail (x :: t) = true) as Hkeep.
  { intros t Ht ->. cbn [no_space_tail]. rewrite (IH false H2), andb_true_r.
    apply negb_true_iff. destruct (forallb is_space_sep (x :: del_runs false s)) eqn:E; [|reflexivity].
    rewrite <- Ht in E. now rewrite (del_runs_keeps _ _ E) in H1. }
  cbn [del_runs]. destruct (is_space x) eqn:Ex.
  - destruct f; [now apply IH|].
    destruct s as [|y t]; [cbn [forallb] in H1; cbn; now rewrite H1|].
    destruct (is_space y) eqn:Ey; [now apply IH|].
    apply Hkeep; [|reflexivity]. cbn [del_runs]. now rewrite Ex, Ey.
  - apply Hkeep; [|reflexivity]. cbn [del_runs]. now rewrite Ex.
Qed.

(** *** Tabs and carriage returns *)

Lemma strip_tabs_id (s : gostring) : no_tab_cr s = true -> strip_tabs s = s.
Proof.
  unfold no_tab_cr, strip_tabs. induction s as [|x s IH]; [reflexivity|].
  cbn [forallb filter]. intros H. apply andb_true_iff in H as [H1 H2].
  rewrite H1. now rewrite (IH H2).
Qed.

Lemma no_tab_cr_ltrim (s : gostring) : no_tab_cr s = true -> no_tab_cr (ltrim s) = true.
Proof.
  unfold no_tab_cr. induction s as [|x s IH]; [reflexivity|]. cbn [ltrim]. intros H.
  destruct (is_space_sep x); [|exact H]. cbn [forallb] in H.
  apply andb_true_iff in H as [_ H]. now apply IH.
Qed.

Lemma no_tab_cr_rtrim (s : gostring) : no_tab_cr s = true -> no_tab_cr (rtrim s) = true.
Proof.
  unfold no_tab_cr. induction s as [|x s IH]; [reflexivity|]. cbn [rtrim]. intros H.
  destruct (forallb is_space_sep (x :: s)); [reflexivity|]. cbn [forallb] in *.
  apply andb_true_iff in H as [H1 H2]. rewrite H1. now apply IH.
Qed.

Lemma no_tab_cr_del_runs (s : gostring) :
  forall f, no_tab_cr s = true -> no_tab_cr (del_runs f s) = true.
Proof.
  unfold no_tab_cr. induction s as [|x s IH]; intros f H; [reflexivity|].
  cbn [forallb] in H. apply andb_true_iff in H as [H1 H2].
  cbn [del_runs]. destruct (is_space x).
  - destruct f; [now apply IH|].
    destruct s as [|y t]; [cbn; now rewrite H1|].
    destruct (is_space y); [now apply IH|].
    cbn [forallb]. rewrite H1. now apply (IH false).
  - cbn [forallb]. rewrite H1. now apply (IH false).
Qed.

(* ================================================================== *)
(** * Properties of the forecast client, the resolver and the batch *)

Section ProgramFacts.

Variable U : CaseTables.
Variable net : Type.
Variable url_ok : gostring -> bool.
Variable roundTrip : gostring -> net -> http_reply * net.
Variable unmarshalResponse : gostring -> res (list Product).
Variable unmarshalProduct : gostring -> res Product.
Variable sendSMS : gostring -> gostring -> gostring -> net -> option gostring * net.

Lemma same_output_refl (w : world net) : same_output w w.
Proof. split; reflexivity. Qed.

Lemma same_output_trans (w1 w2 w3 : world net) :
  same_output w1 w2 -> same_output w2 w3 -> same_output w1 w3.
Proof. intros [A B] [C D]. split; congruence. Qed.

Lemma newRequest_inv (uri : gostring) (w w' : world net) (o : outcome gostring) :
  newRequest url_ok uri w = (o, w') -> w' = w.
Proof. unfold newRequest. destruct (url_ok uri); cbn; intros H; now injection H. Qed.

Lemma doRequest_output (s : NWSClient) (req : gostring) (w : world net) :
  same_output w (snd (doRequest roundTrip s req w)).
Proof.
  unfold doRequest. destruct (roundTrip req (w_net w)) as [reply n'].
  destruct reply as [e|e|status body]; try (split; reflexivity).
  destruct (negb (status =? 200)%N); split; reflexivity.
Qed.

Lemma GetProducts_output (s : NWSClient) (ty : gostring) (w : world net) :
  same_output w (snd (GetProducts url_ok roundTrip unmarshalResponse s ty w)).
Proof.
  unfold GetProducts, mbind, newRequest. destruct (url_ok _); [|apply same_output_refl].
  cbn [mret lift].
  pose proof (doRequest_output s
    (BaseURI s ++ str "/products/types/" ++ ty ++ str "/locations/" ++ ClientLocationID s) w) as H.
  destruct (doRequest roundTrip s _ w) as [[r| | |] w1]; cbn [snd] in *; try exact H.
  destruct r; exact H.
Qed.

Lemma GetProduct_output (s : NWSClient) (id : gostring) (w : world net) :
  same_output w (snd (GetProduct url_ok roundTrip unmarshalProduct s id w)).
Proof.
  unfold GetProduct, mbind, newRequest. destruct (url_ok _); [|apply same_output_refl].
  cbn [mret lift].
  pose proof (doRequest_output s (BaseURI s ++ str "/products/" ++ id) w) as H.
  destruct (doRequest roundTrip s _ w) as [[r| | |] w1]; cbn [snd] in *; try exact H.
  destruct r; exact H.
Qed.

(** [GetAFD] after the listing: the error for an empty listing, else the
    detail of the first entry U. *)
Lemma GetAFD_after_listing (s : NWSClient) (w w1 : world net) (products : list Product) :
  GetProducts url_ok roundTrip unmarshalResponse s (str "afd") w = (Ret (Good products), w1) ->
  GetAFD url_ok roundTrip unmarshalResponse unmarshalProduct s w
  = match products with
    | [] => (Ret (Bad (str "Couldn't find AFD")), w1)
    | p :: _ => GetProduct url_ok roundTrip unmarshalProduct s (ProductID p) w1
    end.
Proof.
  intros H. unfold GetAFD, mbind at 1. rewrite H.
  destruct products as [|p ps]; [reflexivity|].
  cbn [List.length Nat.ltb Nat.leb nth]. unfold mbind.
  destruct (GetProduct url_ok roundTrip unmarshalProduct s (ProductID p) w1) as [[r| | |] w2]; try reflexivity.
  destruct r; reflexivity.
Qed.

Lemma GetAFD_output (s : NWSClient) (w : world net) : same_output w (snd (GetAFD url_ok roundTrip unmarshalResponse unmarshalProduct s w)).
Proof.
  pose proof (GetProducts_output s (str "afd") w) as H.
  destruct (GetProducts url_ok roundTrip unmarshalResponse s (str "afd") w) as [[r| | |] w1] eqn:E; cbn [snd] in H;
    try (unfold GetAFD, mbind; rewrite E; exact H).
  destruct r as [products|err].
  - rewrite (GetAFD_after_listing s w w1 products E).
    destruct products as [|p ps]; [exact H|].
    eapply same_output_trans; [exact H|apply GetProduct_output].
  - unfold GetAFD, mbind. rewrite E. exact H.
Qed.

Lemma sections_loop_entries (afd : Product) (subscriptions : list gostring) :
  forall sections (w : world net) l w',
  sections_loop U afd subscriptions sections w = (Ret l, w') ->
  l = sections ++ map (entry U afd) subscriptions.
Proof.
  induction subscriptions as [|sub rest IH]; intros sections w l w' H.
  - cbn in H. injection H as <- _. now rewrite app_nil_r.
  - cbn [sections_loop] in H. unfold mbind at 1, lift in H. cbn [map]. unfold entry at 1.
    destruct (GetDiscussionSection U afd sub) as [[section|err]| | |]; try discriminate.
    + apply IH in H. rewrite H, <- app_assoc. reflexivity.
    + unfold mbind at 1, Println in H. apply IH in H. rewrite H, <- app_assoc. reflexivity.
Qed.

(** C2 fails on the code: the slice is made with the length, not the
    capacity, of the subscription list, and the entries are appended to it.
    What [GetSubscribedSections] returns for [n] subscriptions is [n] empty
    strings followed by the entries of the subscriptions in order, [2 n]
    strings in all. *)
Theorem GetSubscribedSections_entries (s : User) (w w' : world net) (l : list gostring) :
  GetSubscribedSections U url_ok roundTrip unmarshalResponse unmarshalProduct s w = (Ret l, w') ->
  exists afd,
    l = repeat [] (List.length (Subscriptions s)) ++ map (entry U afd) (Subscriptions s)
    /\ List.length l = 2 * List.length (Subscriptions s).
Proof.
  unfold GetSubscribedSections, mbind at 1.
  destruct (GetAFD url_ok roundTrip unmarshalResponse unmarshalProduct (NewNWSClient (LocationID s)) w) as [[r| | |] w1]; try discriminate.
  destruct r as [afd|err]; [|discriminate].
  intros H. apply sections_loop_entries in H. exists afd. split; [exact H|].
  rewrite H, length_app, repeat_length, length_map. lia.
Qed.

(** A miss is printed and the loop goes on with the next subscription. *)
Lemma sections_loop_miss (afd : Product) (sub : gostring) (rest sections : list gostring)
      (w : world net) (err : gostring) :
  GetDiscussionSection U afd sub = Ret (Bad err) ->
  sections_loop U afd (sub :: rest) sections w
  = sections_loop U afd rest (sections ++ [[]])
      {| w_net := w_net w; w_stdout := w_stdout w ++ [str "Missing section"];
         w_sent := w_sent w |}.
Proof. intros H. cbn [sections_loop]. unfold mbind, lift, Println. now rewrite H. Qed.

(** C6, amended: when the product fetch for a subscriber fails, the process
    ends there with the error of the fetch ([log.Fatal]): nothing is sent for
    that subscriber, and the subscribers after it in the batch are not
    processed. *)
Theorem fetch_failure_ends_batch (config : Config) (user : User) (rest : list User)
        (w w1 : world net) (err : gostring) :
  GetAFD url_ok roundTrip unmarshalResponse unmarshalProduct (NewNWSClient (LocationID user)) w = (Ret (Bad err), w1) ->
  users_loop U url_ok roundTrip unmarshalResponse unmarshalProduct sendSMS config (user :: rest) w = (Fatal err, w1)
  /\ w_sent w1 = w_sent w.
Proof.
  intros H. split.
  - cbn [users_loop]. unfold mbind at 1, GetSubscribedSections, mbind at 1. rewrite H.
    reflexivity.
  - pose proof (GetAFD_output (NewNWSClient (LocationID user)) w) as Ho.
    rewrite H in Ho. apply Ho.
Qed.

End ProgramFacts.

(* ------------------------------------------------------------------ *)
(** ** Which product [GetAFD] returns *)

Section ClientFacts.

Variable net : Type.
Variable url_ok : gostring -> bool.
Variable roundTrip : gostring -> net -> http_reply * net.
Variable unmarshalResponse : gostring -> res (list Product).
Variable unmarshalProduct : gostring -> res Product.

(** A request that is accepted and answered with status 200. *)
Lemma GetProducts_ok (s : NWSClient) (w : world net) (body : gostring) (n1 : net) :
  url_ok (listing_uri s) = true ->
  roundTrip (listing_uri s) (w_net w) = (Reply 200 body, n1) ->
  GetProducts url_ok roundTrip unmarshalResponse s (str "afd") w
  = (Ret (unmarshalResponse body), after_request w n1).
Proof.
  intros Hu Hr. unfold GetProducts, mbind at 1, newRequest. fold (listing_uri s).
  rewrite Hu. cbn [mret]. unfold mbind, doRequest. rewrite Hr. reflexivity.
Qed.

Lemma GetProduct_ok (s : NWSClient) (productID : gostring) (w : world net) (body : gostring)
      (n1 : net) :
  url_ok (detail_uri s productID) = true ->
  roundTrip (detail_uri s productID) (w_net w) = (Reply 200 body, n1) ->
  GetProduct url_ok roundTrip unmarshalProduct s productID w
  = (Ret (unmarshalProduct body), after_request w n1).
Proof.
  intros Hu Hr. unfold GetProduct, mbind at 1, newRequest. fold (detail_uri s productID).
  rewrite Hu. cbn [mret]. unfold mbind, doRequest. rewrite Hr. reflexivity.
Qed.

(** C9: once the listing request for the location is answered and
    decoded, [GetAFD] fails with the error [Couldn't find AFD], without a
    second request, when the listing is empty; otherwise it requests the
    detail of the product whose identifier is the one of the first entry of
    the listing, on the network as the listing request left it, and returns
    what [json.Unmarshal] makes of the answer. *)
Theorem GetAFD_latest_product (s : NWSClient) (w : world net) (body1 : gostring) (n1 : net)
        (products : list Product) :
  url_ok (listing_uri s) = true ->
  roundTrip (listing_uri s) (w_net w) = (Reply 200 body1, n1) ->
  unmarshalResponse body1 = Good products ->
  match products with
  | [] =>
      GetAFD url_ok roundTrip unmarshalResponse unmarshalProduct s w
      = (Ret (Bad (str "Couldn't find AFD")), after_request w n1)
  | p :: _ =>
      forall body2 n2,
        url_ok (detail_uri s (ProductID p)) = true ->
        roundTrip (detail_uri s (ProductID p)) n1 = (Reply 200 body2, n2) ->
        GetAFD url_ok roundTrip unmarshalResponse unmarshalProduct s w
        = (Ret (unmarshalProduct body2), after_request w n2)
  end.
Proof.
  intros Hu Hr Hm.
  pose proof (GetProducts_ok s w body1 n1 Hu Hr) as Hl. rewrite Hm in Hl.
  rewrite (GetAFD_after_listing net url_ok roundTrip unmarshalResponse unmarshalProduct
             s w _ products Hl).
  destruct products as [|p ps]; [reflexivity|].
  intros body2 n2 Hu2 Hr2.
  now rewrite (GetProduct_ok s (ProductID p) (after_request w n1) body2 n2 Hu2 Hr2).
Qed.

End ClientFacts.

Lemma GetAFD_latest_product_witness :
  demo_url_ok (listing_uri (NewNWSClient (str "PHI"))) = true
  /\ demo_roundTrip (listing_uri (NewNWSClient (str "PHI"))) (w_net demo_world)
     = (Reply 200 (str "listing"), tt)
  /\ two_unmarshalResponse (str "listing") = Good [demo_product; old_product]
  /\ demo_roundTrip (detail_uri (NewNWSClient (str "PHI")) (ProductID demo_product)) tt
     = (Reply 200 (str "detail"), tt)
  /\ GetAFD demo_url_ok demo_roundTrip two_unmarshalResponse demo_unmarshalProduct
       (NewNWSClient (str "PHI")) demo_world
     = (Ret (demo_unmarshalProduct (str "detail")), after_request demo_world tt).
Proof.
  split; [reflexivity|]. split; [vm_compute; reflexivity|]. split; [reflexivity|].
  split; [vm_compute; reflexivity|].
  refine (GetAFD_latest_product unit demo_url_ok demo_roundTrip two_unmarshalResponse
            demo_unmarshalProduct (NewNWSClient (str "PHI")) demo_world (str "listing") tt
            [demo_product; old_product] _ _ _ (str "detail") tt _ _);
    vm_compute; reflexivity.
Defined.

(* ------------------------------------------------------------------ *)
(** ** The examples in the small world *)

(** Bob has two subscriptions, of which the product has one: four strings
    come back, two empty ones before the two entries. *)
Lemma GetSubscribedSections_entries_witness :
  GetSubscribedSections ascii_tables demo_url_ok demo_roundTrip demo_unmarshalResponse
    demo_unmarshalProduct bob demo_world
  = (Ret [[]; []; []; str "MARINE:" ++ newline :: newline :: str "Calm."],
     {| w_net := tt; w_stdout := [str "Missing section"]; w_sent := [] |})
  /\ exists afd,
       [[]; []; []; str "MARINE:" ++ newline :: newline :: str "Calm."]
       = repeat [] (List.length (Subscriptions bob))
         ++ map (entry ascii_tables afd) (Subscriptions bob)
       /\ List.length [[]; []; []; str "MARINE:" ++ newline :: newline :: str "Calm."]
          = 2 * List.length (Subscriptions bob).
Proof.
  split; [vm_compute; reflexivity|].
  apply (GetSubscribedSections_entries ascii_tables unit demo_url_ok demo_roundTrip
           demo_unmarshalResponse demo_unmarshalProduct bob demo_world
           {| w_net := tt; w_stdout := [str "Missing section"]; w_sent := [] |}).
  vm_compute. reflexivity.
Defined.

(** C6, as stated, fails: with Ann before Bob in the batch, the fetch for Ann
    fails and nothing is sent at all, while Bob alone would be sent his
    sections. *)
Lemma batch_continues_fails :
  ~ (forall U net url_ok roundTrip unmarshalResponse unmarshalProduct sendSMS,
       batch_continues U net url_ok roundTrip unmarshalResponse unmarshalProduct sendSMS).
Proof.
  intros H.
  assert (GetAFD demo_url_ok demo_roundTrip demo_unmarshalResponse demo_unmarshalProduct
            (NewNWSClient (LocationID ann)) demo_world
          = (Ret (Bad (str "Not Found")), demo_world)) as Hfetch by (vm_compute; reflexivity).
  specialize (H ascii_tables unit demo_url_ok demo_roundTrip demo_unmarshalResponse
                demo_unmarshalProduct demo_sendSMS demo_config ann [bob] demo_world demo_world
                (str "Not Found") Hfetch).
  vm_compute in H. discriminate H.
Qed.

Lemma fetch_failure_ends_batch_witness :
  GetAFD demo_url_ok demo_roundTrip demo_unmarshalResponse demo_unmarshalProduct
    (NewNWSClient (LocationID ann)) demo_world
  = (Ret (Bad (str "Not Found")), demo_world)
  /\ users_loop ascii_tables demo_url_ok demo_roundTrip demo_unmarshalResponse
       demo_unmarshalProduct demo_sendSMS demo_config [ann; bob] demo_world
     = (Fatal (str "Not Found"), demo_world)
  /\ w_sent demo_world = w_sent demo_world.
Proof.
  split; [vm_compute; reflexivity|].
  apply (fetch_failure_ends_batch ascii_tables unit demo_url_ok demo_roundTrip
           demo_unmarshalResponse demo_unmarshalProduct demo_sendSMS demo_config ann [bob]
           demo_world demo_world (str "Not Found")).
  vm_compute. reflexivity.
Defined.

(** Bob alone: his four strings are handed to the provider. *)
Example bob_alone :
  w_sent (snd (users_loop ascii_tables demo_url_ok demo_roundTrip demo_unmarshalResponse
                 demo_unmarshalProduct demo_sendSMS demo_config [bob] demo_world))
  = [(str "+15550100", str "+15550102", []);
     (str "+15550100", str "+15550102", []);
     (str "+15550100", str "+15550102", []);
     (str "+15550100", str "+15550102", str "MARINE:" ++ newline :: newline :: str "Calm.")].
Proof. vm_compute. reflexivity. Qed.

(* ================================================================== *)
(** * Further properties of the normalizer *)

Lemma blank_visible (s : gostring) : blank s = true <-> visible s = [].
Proof.
  unfold blank, visible. induction s as [|x s IH]; [split; reflexivity|].
  cbn [forallb filter]. destruct (is_space_sep x); cbn [negb andb]; [exact IH|].
  split; discriminate.
Qed.

Lemma is_nl_is_sep (x : rune) : is_nl x = true -> is_space_sep x = true.
Proof.
  unfold is_nl, is_space_sep, is_perl_space, newline. intros H. rewrite H.
  now rewrite !orb_true_r.
Qed.

Lemma is_tab_cr_is_sep (x : rune) : is_tab_cr x = true -> is_space_sep x = true.
Proof.
  unfold is_tab_cr, is_space_sep, is_perl_space. intros H.
  apply orb_true_iff in H as [H|H]; rewrite H; now rewrite ?orb_true_r.
Qed.

Lemma visible_cons_sep (x : rune) (s : gostring) :
  is_space_sep x = true -> visible (x :: s) = visible s.
Proof. intros H. unfold visible. cbn [filter]. now rewrite H. Qed.

Lemma visible_cons (x : rune) (s t : gostring) :
  visible s = visible t -> visible (x :: s) = visible (x :: t).
Proof. unfold visible. cbn [filter]. intros ->. reflexivity. Qed.

Lemma visible_ltrim (s : gostring) : visible (ltrim s) = visible s.
Proof.
  induction s as [|x s IH]; [reflexivity|]. cbn [ltrim].
  destruct (is_space_sep x) eqn:E; [|reflexivity]. now rewrite (visible_cons_sep _ _ E).
Qed.

Lemma visible_rtrim (s : gostring) : visible (rtrim s) = visible s.
Proof.
  induction s as [|x s IH]; [reflexivity|]. cbn [rtrim].
  destruct (forallb is_space_sep (x :: s)) eqn:E.
  - symmetry. now apply blank_visible.
  - now apply visible_cons.
Qed.

Lemma visible_join_lines (s : gostring) : visible (join_lines s) = visible s.
Proof.
  remember (List.length s) as n eqn:Hn. revert s Hn.
  induction n as [n IH] using lt_wf_ind. intros s Hn.
  destruct s as [|a s1]; [reflexivity|]. cbn [join_lines].
  assert (visible (a :: join_lines s1) = visible (a :: s1)) as Hstep
    by (apply visible_cons, (IH (List.length s1)); [subst n; simpl; lia|reflexivity]).
  destruct s1 as [|b [|c t]]; try exact Hstep.
  destruct (negb (is_nl a) && is_nl b && negb (is_nl c)) eqn:E; [|exact Hstep].
  apply andb_true_iff in E as [E _]. apply andb_true_iff in E as [_ Eb].
  apply visible_cons. rewrite (visible_cons_sep b _ (is_nl_is_sep _ Eb)).
  apply visible_cons, (IH (List.length t)); [subst n; simpl; lia|reflexivity].
Qed.

Lemma visible_del_runs (s : gostring) : forall f, visible (del_runs f s) = visible s.
Proof.
  induction s as [|x s IH]; intros f; [reflexivity|]. cbn [del_runs].
  destruct (is_space x) eqn:Ex.
  - rewrite (visible_cons_sep x s (is_space_is_sep _ Ex)).
    destruct f; [apply IH|]. destruct s as [|y t]; [now apply visible_cons_sep, is_space_is_sep|].
    destruct (is_space y) eqn:Ey; [apply IH|].
    rewrite (visible_cons_sep x _ (is_space_is_sep _ Ex)). apply IH.
  - apply visible_cons, IH.
Qed.

Lemma visible_strip_tabs (s : gostring) : visible (strip_tabs s) = visible s.
Proof.
  unfold strip_tabs. induction s as [|x s IH]; [reflexivity|]. cbn [filter].
  destruct (is_tab_cr x) eqn:E; cbn [negb].
  - now rewrite (visible_cons_sep x s (is_tab_cr_is_sep _ E)).
  - now apply visible_cons.
Qed.

Lemma visible_sanitize (s : gostring) : visible (sanitize s) = visible s.
Proof.
  unfold sanitize, trim.
  now rewrite visible_strip_tabs, visible_del_runs, visible_join_lines, visible_rtrim,
    visible_ltrim.
Qed.

Lemma ltrim_blank (s : gostring) : blank s = true -> ltrim s = [].
Proof.
  unfold blank. induction s as [|x s IH]; [reflexivity|]. cbn [forallb ltrim]. intros H.
  apply andb_true_iff in H as [H1 H2]. rewrite H1. now apply IH.
Qed.

Lemma join_lines_head (s : gostring) :
  head_not_space_sep s = true -> head_not_space_sep (join_lines s) = true.
Proof.
  destruct s as [|a [|b [|c t]]]; try (intros H; exact H).
  cbn [join_lines]. destruct (negb (is_nl a) && is_nl b && negb (is_nl c)); intros H; exact H.
Qed.

Lemma strip_tabs_head (s : gostring) :
  head_not_space_sep s = true -> head_not_space_sep (strip_tabs s) = true.
Proof.
  destruct s as [|x s]; [reflexivity|]. unfold strip_tabs. cbn [head_not_space_sep filter].
  intros H. destruct (is_tab_cr x) eqn:E; [|exact H].
  apply negb_true_iff in H. now rewrite (is_tab_cr_is_sep _ E) in H.
Qed.

Lemma no_space_tail_cons (x : rune) (s t : gostring) :
  no_space_tail (x :: s) = true ->
  (blank (x :: t) = true -> blank (x :: s) = true) ->
  no_space_tail t = true ->
  no_space_tail (x :: t) = true.
Proof.
  cbn [no_space_tail]. intros H Hb Ht. apply andb_true_iff in H as [H _].
  rewrite Ht, andb_true_r. apply negb_true_iff. apply negb_true_iff in H.
  fold (blank (x :: t)). fold (blank (x :: s)) in H.
  destruct (blank (x :: t)); [|reflexivity]. now rewrite Hb in H.
Qed.

Lemma blank_cons (x : rune) (s t : gostring) :
  (blank t = true -> blank s = true) -> blank (x :: t) = true -> blank (x :: s) = true.
Proof.
  unfold blank. cbn [forallb]. intros H Ht. apply andb_true_iff in Ht as [H1 H2].
  now rewrite H1, H.
Qed.

Lemma blank_same_visible (s t : gostring) :
  visible t = visible s -> blank t = true -> blank s = true.
Proof. intros H Hb. apply blank_visible. rewrite <- H. now apply blank_visible. Qed.

Lemma no_space_tail_tl (x : rune) (s : gostring) :
  no_space_tail (x :: s) = true -> no_space_tail s = true.
Proof. cbn [no_space_tail]. intros H. now apply andb_true_iff in H as [_ H]. Qed.

Lemma join_lines_no_space_tail (s : gostring) :
  no_space_tail s = true -> no_space_tail (join_lines s) = true.
Proof.
  remember (List.length s) as n eqn:Hn. revert s Hn.
  induction n as [n IH] using lt_wf_ind. intros s Hn H.
  destruct s as [|a s1]; [reflexivity|].
  assert (no_space_tail (a :: join_lines s1) = true) as Hstep.
  { apply (no_space_tail_cons a s1); [exact H| |].
    - apply blank_cons, blank_same_visible, visible_join_lines.
    - apply (IH (List.length s1)); [subst n; simpl; lia|reflexivity|].
      exact (no_space_tail_tl _ _ H). }
  cbn [join_lines]. destruct s1 as [|b [|c t]]; try exact Hstep.
  destruct (negb (is_nl a) && is_nl b && negb (is_nl c)) eqn:E; [|exact Hstep].
  apply andb_true_iff in E as [E _]. apply andb_true_iff in E as [_ Eb].
  pose proof (no_space_tail_tl _ _ (no_space_tail_tl _ _ H)) as Hc.
  assert (no_space_tail (c :: join_lines t) = true) as Hct.
  { apply (no_space_tail_cons c t); [exact Hc| |].
    - apply blank_cons, blank_same_visible, visible_join_lines.
    - apply (IH (List.length t)); [subst n; simpl; lia|reflexivity|].
      exact (no_space_tail_tl _ _ Hc). }
  apply (no_space_tail_cons a (b :: c :: t)); [exact H| |exact Hct].
  apply blank_cons. intros Hb. unfold blank. cbn [forallb].
  rewrite (is_nl_is_sep _ Eb). cbn [andb].
  revert Hb. apply blank_cons, blank_same_visible, visible_join_lines.
Qed.

Lemma strip_tabs_no_space_tail (s : gostring) :
  no_space_tail s = true -> no_space_tail (strip_tabs s) = true.
Proof.
  induction s as [|x s IH]; intros H; [reflexivity|].
  pose proof (IH (no_space_tail_tl _ _ H)) as Ht.
  unfold strip_tabs. cbn [filter]. destruct (is_tab_cr x); cbn [negb]; [exact Ht|].
  apply (no_space_tail_cons x s); [exact H| |exact Ht].
  apply blank_cons, blank_same_visible, visible_strip_tabs.
Qed.

Lemma no_space_tail_rev (s : gostring) :
  no_space_tail s = true -> head_not_space_sep (rev s) = true.
Proof.
  induction s as [|x s IH]; [reflexivity|]. intros H.
  pose proof (IH (no_space_tail_tl _ _ H)) as Ht. cbn [rev].
  destruct (rev s) as [|y t] eqn:E; [|exact Ht].
  assert (s = []) as -> by (rewrite <- (rev_involutive s), E; reflexivity).
  cbn in H |- *. now rewrite !andb_true_r in H.
Qed.

Lemma sanitize_trimmed (s : gostring) : trimmed (sanitize s) = true.
Proof.
  unfold trimmed, sanitize. apply andb_true_iff. split.
  - apply strip_tabs_head, del_runs_head, join_lines_head. unfold trim.
    apply rtrim_head, ltrim_head.
  - apply no_space_tail_rev, strip_tabs_no_space_tail, del_runs_no_space_tail,
      join_lines_no_space_tail. unfold trim. apply rtrim_no_space_tail.
Qed.

Lemma no_tab_cr_join_lines (s : gostring) :
  no_tab_cr s = true -> no_tab_cr (join_lines s) = true.
Proof.
  unfold no_tab_cr.
  remember (List.length s) as n eqn:Hn. revert s Hn.
  induction n as [n IH] using lt_wf_ind. intros s Hn H.
  destruct s as [|a s1]; [reflexivity|].
  cbn [forallb] in H. apply andb_true_iff in H as [Ha H1].
  assert (forallb (fun r => negb (is_tab_cr r)) (a :: join_lines s1) = true) as Hstep.
  { cbn [forallb]. rewrite Ha. apply (IH (List.length s1)); [subst n; simpl; lia|reflexivity|exact H1]. }
  cbn [join_lines]. destruct s1 as [|b [|c t]]; try exact Hstep.
  destruct (negb (is_nl a) && is_nl b && negb (is_nl c)); [|exact Hstep].
  cbn [forallb] in H1 |- *. apply andb_true_iff in H1 as [_ H1].
  apply andb_true_iff in H1 as [Hc H1]. rewrite Ha, Hc.
  apply (IH (List.length t)); [subst n; simpl; lia|reflexivity|exact H1].
Qed.

(** X1: [sanitizeString] always returns, and it deletes white space only:
    the runes of the input outside [[\s\p{Zs}]] are the runes of the
    output outside that class, in the same order. *)
Theorem sanitizeString_keeps_visible (U : CaseTables) (s : gostring) :
  exists out, sanitizeString U s = Ret out /\ visible out = visible s.
Proof. exists (sanitize s). split; [apply sanitizeString_eq|apply visible_sanitize]. Qed.

(** X2: [sanitizeString] returns the empty string exactly on the inputs
    made of white space only (the empty input included). *)
Theorem sanitizeString_empty_iff_blank (U : CaseTables) (s : gostring) :
  sanitizeString U s = Ret [] <-> blank s = true.
Proof.
  rewrite sanitizeString_eq. split.
  - intros H. injection H as H. apply blank_visible. rewrite <- visible_sanitize, H. reflexivity.
  - intros H. unfold sanitize, trim. rewrite (ltrim_blank _ H). reflexivity.
Qed.

(** X3: what [sanitizeString] returns neither begins nor ends with a
    white-space rune, although the last three replacements run after the
    trimming. *)
Theorem sanitizeString_trimmed (U : CaseTables) (s : gostring) :
  exists out, sanitizeString U s = Ret out /\ trimmed out = true.
Proof. exists (sanitize s). split; [apply sanitizeString_eq|apply sanitize_trimmed]. Qed.

Lemma rev_head_no_space_tail (s : gostring) :
  head_not_space_sep (rev s) = true -> no_space_tail s = true.
Proof.
  induction s as [|x s IH]; [reflexivity|]. cbn [rev]. intros H.
  destruct s as [|z s'].
  - cbn in H |- *. apply negb_true_iff in H. now rewrite H.
  - assert (head_not_space_sep (rev (z :: s')) = true) as Hr.
    { destruct (rev (z :: s')) as [|y t] eqn:E; [reflexivity|exact H]. }
    specialize (IH Hr). cbn [no_space_tail] in IH |- *.
    apply andb_true_iff in IH as [IH1 IH2]. rewrite IH1, IH2.
    apply negb_true_iff in IH1. cbn [forallb] in IH1 |- *. rewrite IH1.
    now rewrite andb_false_r.
Qed.

Lemma trimmed_spec (s : gostring) :
  trimmed s = true -> head_not_space_sep s = true /\ no_space_tail s = true.
Proof.
  unfold trimmed. intros H. apply andb_true_iff in H as [H1 H2].
  split; [exact H1|now apply rev_head_no_space_tail].
Qed.

Lemma sanitize_normal_form (s : gostring) :
  trimmed s = true -> lone_free s = true -> no_double_space s = true -> no_tab_cr s = true ->
  sanitize s = s.
Proof.
  intros Ht Hl Hd Hc. destruct (trimmed_spec _ Ht) as [Hh Hn]. unfold sanitize.
  rewrite (trim_id _ Hh Hn), (join_lines_id _ _ Hl), (del_runs_id _ Hd).
  now apply strip_tabs_id.
Qed.

Lemma sanitize_no_double (s : gostring) :
  no_tab_cr s = true -> no_double_space (sanitize s) = true.
Proof.
  intros H. unfold sanitize. rewrite strip_tabs_id.
  - apply (del_runs_no_double _ false).
  - apply no_tab_cr_del_runs, no_tab_cr_join_lines. unfold trim.
    now apply no_tab_cr_rtrim, no_tab_cr_ltrim.
Qed.

(** X4: a text in normal form is returned as it is: one that neither
    begins nor ends with white space and has no newline between two runes
    that are not newlines, no two spaces in a row, no tab and no carriage
    return. *)
Theorem sanitizeString_normal_form (U : CaseTables) (s : gostring) :
  trimmed s = true -> lone_free s = true -> no_double_space s = true -> no_tab_cr s = true ->
  sanitizeString U s = Ret s.
Proof.
  intros Ht Hl Hd Hc. rewrite sanitizeString_eq. f_equal. now apply sanitize_normal_form.
Qed.

Lemma sanitizeString_normal_form_witness :
  trimmed (str "Dry and mild." ++ newline :: newline :: str "Rain later.") = true
  /\ lone_free (str "Dry and mild." ++ newline :: newline :: str "Rain later.") = true
  /\ no_double_space (str "Dry and mild." ++ newline :: newline :: str "Rain later.") = true
  /\ no_tab_cr (str "Dry and mild." ++ newline :: newline :: str "Rain later.") = true
  /\ sanitizeString ascii_tables (str "Dry and mild." ++ newline :: newline :: str "Rain later.")
     = Ret (str "Dry and mild." ++ newline :: newline :: str "Rain later.").
Proof.
  repeat (split; [reflexivity|]).
  apply (sanitizeString_normal_form ascii_tables
           (str "Dry and mild." ++ newline :: newline :: str "Rain later."));
    reflexivity.
Defined.

(** X5: on an input without tab and carriage return, what
    [sanitizeString] returns has no two spaces in a row. *)
Theorem sanitizeString_single_spaces (U : CaseTables) (s : gostring) :
  no_tab_cr s = true ->
  exists out, sanitizeString U s = Ret out /\ no_double_space out = true.
Proof.
  intros H. exists (sanitize s). split; [apply sanitizeString_eq|now apply sanitize_no_double].
Qed.

Lemma sanitizeString_single_spaces_witness :
  no_tab_cr (str " Winds  NW   10 kt ") = true
  /\ exists out,
       sanitizeString ascii_tables (str " Winds  NW   10 kt ") = Ret out
       /\ no_double_space out = true.
Proof.
  split; [reflexivity|].
  apply (sanitizeString_single_spaces ascii_tables (str " Winds  NW   10 kt ")). reflexivity.
Defined.

(* ------------------------------------------------------------------ *)
(** ** Idempotence, where it holds *)

Lemma no_lone_pair_tl (x : rune) (s : gostring) :
  no_lone_pair (x :: s) = true -> no_lone_pair s = true.
Proof. cbn [no_lone_pair]. intros H. now apply andb_true_iff in H as [_ H]. Qed.

Lemma no_lone_pair_ltrim (s : gostring) :
  no_lone_pair s = true -> no_lone_pair (ltrim s) = true.
Proof.
  induction s as [|x s IH]; intros H; [reflexivity|]. cbn [ltrim].
  destruct (is_space_sep x); [|exact H]. apply IH. exact (no_lone_pair_tl _ _ H).
Qed.

Lemma no_lone_pair_prefix (p r : gostring) :
  no_lone_pair (p ++ r) = true -> no_lone_pair p = true.
Proof.
  induction p as [|a p IH]; intros H; [reflexivity|].
  cbn [app no_lone_pair] in H |- *. apply andb_true_iff in H as [H1 H2].
  rewrite (IH H2), andb_true_r.
  destruct p as [|b [|c [|d [|e p']]]]; try reflexivity. exact H1.
Qed.

Lemma rtrim_prefix (s : gostring) : exists r, s = rtrim s ++ r.
Proof.
  induction s as [|x s [r IH]]; [exists []; reflexivity|]. cbn [rtrim].
  destruct (forallb is_space_sep (x :: s)); [exists (x :: s); reflexivity|].
  exists r. cbn [app]. now rewrite <- IH.
Qed.

Lemma no_lone_pair_rtrim (s : gostring) :
  no_lone_pair s = true -> no_lone_pair (rtrim s) = true.
Proof.
  intros H. destruct (rtrim_prefix s) as [r Hr]. rewrite Hr in H.
  exact (no_lone_pair_prefix _ _ H).
Qed.

Lemma join_lines_next (s : gostring) : next_not_nl (join_lines s) = next_not_nl s.
Proof.
  destruct s as [|a [|b [|c t]]]; try reflexivity.
  cbn [join_lines]. now destruct (negb (is_nl a) && is_nl b && negb (is_nl c)).
Qed.

(** Where no two lone newlines are two runes apart, the second step leaves
    no lone newline behind. *)
Lemma join_lines_lone_free (n : nat) :
  forall s p, List.length s <= n ->
  no_lone_pair s = true -> head_not_lone p s = true ->
  lone_free_from p (join_lines s) = true.
Proof.
  induction n as [|n IH]; intros s p Hn Hs Hp.
  - destruct s; [reflexivity|simpl in Hn; lia].
  - destruct s as [|a s1]; [reflexivity|]. simpl in Hn.
    pose proof (no_lone_pair_tl _ _ Hs) as Hs1.
    assert (head_not_lone (negb (is_nl a)) s1 = true ->
            lone_free_from p (a :: join_lines s1) = true) as Hstep.
    { intros Hnm. cbn [lone_free_from]. rewrite (IH s1 _ (le_S_n _ _ Hn) Hs1 Hnm), andb_true_r.
      fold (next_not_nl (join_lines s1)). rewrite join_lines_next.
      unfold head_not_lone in Hp. destruct p; [|now rewrite andb_false_r].
      cbn [andb] in Hp. rewrite andb_true_r.
      destruct s1 as [|c r]; [now rewrite andb_false_r|]. exact Hp. }
    cbn [join_lines]. destruct s1 as [|b [|c t]].
    + apply Hstep. unfold head_not_lone. now rewrite andb_false_r.
    + apply Hstep. unfold head_not_lone. now rewrite andb_false_r.
    + destruct (negb (is_nl a) && is_nl b && negb (is_nl c)) eqn:E.
      * apply andb_true_iff in E as [E Ec]. apply andb_true_iff in E as [Ea Eb].
        cbn [lone_free_from]. apply negb_true_iff in Ea, Ec. rewrite Ea, Ec. cbn [andb negb].
        apply IH.
        -- simpl in Hn. lia.
        -- exact (no_lone_pair_tl _ _ (no_lone_pair_tl _ _ Hs1)).
        -- unfold head_not_lone. cbn [andb]. cbn [no_lone_pair] in Hs.
           apply andb_true_iff in Hs as [Hs _].
           destruct t as [|d [|e t']]; try reflexivity.
           rewrite Ea, Eb, Ec in Hs. cbn [negb andb] in Hs. exact Hs.
      * apply Hstep. unfold head_not_lone. rewrite <- andb_assoc in E.
        destruct (negb (is_nl a)); [|reflexivity]. cbn [andb] in E |- *. now rewrite E.
Qed.

(** What [sanitizeString] returns on such an input is in normal form. *)
Lemma sanitize_apart_shape (x : gostring) :
  no_tab_cr x = true -> no_lone_pair x = true ->
  trimmed (sanitize x) = true /\ lone_free (sanitize x) = true
  /\ no_double_space (sanitize x) = true /\ no_tab_cr (sanitize x) = true.
Proof.
  intros Ht Hl.
  assert (no_tab_cr (del_runs false (join_lines (trim x))) = true) as Hc.
  { apply no_tab_cr_del_runs, no_tab_cr_join_lines. unfold trim.
    now apply no_tab_cr_rtrim, no_tab_cr_ltrim. }
  split; [apply sanitize_trimmed|]. unfold sanitize. rewrite (strip_tabs_id _ Hc).
  split; [|split; [apply (del_runs_no_double _ false)|exact Hc]].
  apply (lone_free_del_runs _ false false false); [|discriminate].
  apply (join_lines_lone_free (List.length (trim x))); [lia| |reflexivity].
  unfold trim. now apply no_lone_pair_rtrim, no_lone_pair_ltrim.
Qed.

(** C5, amended: on an input without tab and carriage return in which no
    two newlines that each sit between two runes that are not newlines are
    two runes apart, a second pass of [sanitizeString] changes nothing.
    Newlines between two lines of text are allowed, as in [line one],
    newline, [line two]. *)
Theorem sanitize_twice_same_apart (U : CaseTables) (x : gostring) :
  no_tab_cr x = true -> no_lone_pair x = true -> sanitize_twice_same U x.
Proof.
  intros Ht Hl. unfold sanitize_twice_same. rewrite sanitizeString_eq. cbn [obind].
  rewrite sanitizeString_eq. f_equal.
  destruct (sanitize_apart_shape x Ht Hl) as (H1 & H2 & H3 & H4).
  now apply sanitize_normal_form.
Qed.

Lemma sanitize_twice_same_apart_witness :
  no_tab_cr (str "  Dry   and mild." ++ newline :: str "Winds NW." ++ newline :: newline
             :: str "Rain  later. ") = true
  /\ no_lone_pair (str "  Dry   and mild." ++ newline :: str "Winds NW." ++ newline :: newline
                   :: str "Rain  later. ") = true
  /\ sanitize_twice_same ascii_tables
       (str "  Dry   and mild." ++ newline :: str "Winds NW." ++ newline :: newline
        :: str "Rain  later. ").
Proof.
  split; [reflexivity|]. split; [reflexivity|].
  apply (sanitize_twice_same_apart ascii_tables
           (str "  Dry   and mild." ++ newline :: str "Winds NW." ++ newline :: newline
            :: str "Rain  later. "));
    reflexivity.
Defined.

(** The example of the specification is among these inputs. *)
Example two_lines_twice_same (U : CaseTables) :
  no_lone_pair (str "line one" ++ newline :: str "line two") = true
  /\ lone_free (str "line one" ++ newline :: str "line two") = false
  /\ sanitize_twice_same U (str "line one" ++ newline :: str "line two").
Proof. split; [reflexivity|]. split; [reflexivity|]. vm_compute. reflexivity. Qed.

(** ** Idempotence, exactly *)

Lemma join_lines_length (n : nat) :
  forall s, List.length s <= n -> List.length (join_lines s) <= List.length s.
Proof.
  induction n as [|n IH]; intros s Hn.
  - destruct s; [simpl; lia|simpl in Hn; lia].
  - destruct s as [|a s1]; [simpl; lia|]. simpl in Hn.
    assert (List.length (a :: join_lines s1) <= List.length (a :: s1)) as Hstep
      by (cbn [List.length]; specialize (IH s1); lia).
    cbn [join_lines]. destruct s1 as [|b [|c t]]; try exact Hstep.
    destruct (negb (is_nl a) && is_nl b && negb (is_nl c)); [|exact Hstep].
    cbn [List.length] in *. specialize (IH t). lia.
Qed.

(** A lone newline makes the second step shorten the text. *)
Lemma join_lines_shorter (n : nat) :
  forall s p, List.length s <= n ->
  lone_free_from p s = false -> head_not_lone p s = true ->
  List.length (join_lines s) < List.length s.
Proof.
  induction n as [|n IH]; intros s p Hn Hl Hp.
  - destruct s; [discriminate|simpl in Hn; lia].
  - destruct s as [|a s1]; [discriminate|]. simpl in Hn.
    assert (lone_free_from (negb (is_nl a)) s1 = false) as Hl1.
    { cbn [lone_free_from] in Hl. apply andb_false_iff in Hl as [Hl|Hl]; [|exact Hl].
      exfalso. apply negb_false_iff in Hl. unfold head_not_lone in Hp.
      apply andb_true_iff in Hl as [Hl Hn1]. apply andb_true_iff in Hl as [Ha Hpp].
      subst p. cbn [andb] in Hp. destruct s1 as [|c r]; [discriminate|].
      rewrite Ha, Hn1 in Hp. discriminate. }
    assert (head_not_lone (negb (is_nl a)) s1 = true ->
            List.length (a :: join_lines s1) < List.length (a :: s1)) as Hstep.
    { intros Hnm. cbn [List.length]. specialize (IH s1 _ (le_S_n _ _ Hn) Hl1 Hnm). lia. }
    cbn [join_lines]. destruct s1 as [|b [|c t]].
    + discriminate.
    + apply Hstep. unfold head_not_lone. now rewrite andb_false_r.
    + destruct (negb (is_nl a) && is_nl b && negb (is_nl c)) eqn:E.
      * cbn [List.length] in *. pose proof (join_lines_length n t). lia.
      * apply Hstep. unfold head_not_lone. rewrite <- andb_assoc in E.
        destruct (negb (is_nl a)); [|reflexivity]. cbn [andb] in E |- *. now rewrite E.
Qed.

Lemma del_runs_length (s : gostring) :
  forall f, List.length (del_runs f s) <= List.length s.
Proof.
  induction s as [|x s IH]; intros f; [simpl; lia|].
  cbn [del_runs]. pose proof (IH true). pose proof (IH false).
  destruct (is_space x); [|cbn [List.length]; lia].
  destruct f; [cbn [List.length]; lia|].
  destruct s as [|y t]; [simpl; lia|].
  destruct (is_space y); cbn [List.length] in *; lia.
Qed.

(** Two spaces in a row make the third step shorten the text. *)
Lemma del_runs_shorter (s : gostring) :
  forall f, no_double_space s = false -> List.length (del_runs f s) < List.length s.
Proof.
  induction s as [|x s IH]; intros f H; [discriminate|].
  cbn [no_double_space] in H. cbn [del_runs].
  pose proof (del_runs_length s true) as Ht. pose proof (del_runs_length s false) as Hf.
  apply andb_false_iff in H as [H|H].
  - apply negb_false_iff in H. apply andb_true_iff in H as [Hx Hy]. rewrite Hx.
    destruct s as [|y t]; [discriminate|]. rewrite Hy.
    destruct f; cbn [List.length] in *; lia.
  - pose proof (IH true H). pose proof (IH false H).
    destruct (is_space x); [|cbn [List.length]; lia].
    destruct f; [cbn [List.length]; lia|].
    destruct s as [|y t]; [discriminate|].
    destruct (is_space y); cbn [List.length] in *; lia.
Qed.

Lemma strip_tabs_length (s : gostring) : List.length (strip_tabs s) <= List.length s.
Proof. unfold strip_tabs. apply filter_length_le. Qed.

(** X28: a second pass of [sanitizeString] changes nothing exactly when
    what the first pass returns has no newline between two runes that are
    not newlines and no two spaces in a row: these are the only two ways in
    which the order of the replacements shows. *)
Theorem sanitizeString_twice_iff (U : CaseTables) (x : gostring) :
  sanitize_twice_same U x
  <-> exists y, sanitizeString U x = Ret y
                /\ lone_free y = true /\ no_double_space y = true.
Proof.
  unfold sanitize_twice_same. rewrite sanitizeString_eq. cbn [obind].
  rewrite sanitizeString_eq. split.
  - intros H. injection H as H. exists (sanitize x). split; [reflexivity|].
    set (y := sanitize x) in *.
    destruct (trimmed_spec y (sanitize_trimmed x)) as [Hh Hn].
    assert (List.length (sanitize y) = List.length y) as Hlen by now rewrite H.
    unfold sanitize in Hlen. rewrite (trim_id y Hh Hn) in Hlen.
    pose proof (strip_tabs_length (del_runs false (join_lines y))) as H1.
    pose proof (del_runs_length (join_lines y) false) as H2.
    pose proof (join_lines_length (List.length y) y (le_n _)) as H3.
    destruct (lone_free y) eqn:El.
    + split; [reflexivity|]. destruct (no_double_space y) eqn:Ed; [reflexivity|].
      exfalso. rewrite (join_lines_id y false El) in *.
      pose proof (del_runs_shorter y false Ed). lia.
    + exfalso.
      pose proof (join_lines_shorter (List.length y) y false (le_n _) El eq_refl). lia.
  - intros (y & Hy & Hl & Hd). injection Hy as <-. f_equal.
    apply sanitize_normal_form; [apply sanitize_trimmed|exact Hl|exact Hd|].
    apply strip_tabs_clean.
Qed.

(* ================================================================== *)
(** * Further properties of the section extractor *)

Lemma GetDiscussionSection_name (U : CaseTables) (s : Product) (n1 n2 : gostring) :
  ToUpper U (ToLower U n1) = ToUpper U (ToLower U n2) ->
  GetDiscussionSection U s n1 = GetDiscussionSection U s n2.
Proof. intros H. unfold GetDiscussionSection. now rewrite H. Qed.

(** A property of runes checked on the 128 ASCII runes. *)
Lemma ascii_cases (P : rune -> bool) :
  forallb P (map N.of_nat (seq 0 128)) = true ->
  forall r, N.leb r MaxASCII = true -> P r = true.
Proof.
  intros H r Hr. rewrite forallb_forall in H. apply H. apply in_map_iff.
  exists (N.to_nat r). split; [apply N2Nat.id|]. apply in_seq.
  apply N.leb_le in Hr. unfold MaxASCII in Hr. lia.
Qed.

Lemma ascii_upper_lower_upper (U : CaseTables) (r : rune) :
  N.leb r MaxASCII = true ->
  unicode_ToUpper U (unicode_ToLower U (unicode_ToUpper U r))
  = unicode_ToUpper U (unicode_ToLower U r).
Proof.
  intros H. apply N.eqb_eq.
  apply (ascii_cases
           (fun r => N.eqb (unicode_ToUpper U (unicode_ToLower U (unicode_ToUpper U r)))
                       (unicode_ToUpper U (unicode_ToLower U r)))); [|exact H].
  vm_compute. reflexivity.
Qed.

Lemma ascii_upper_lower_lower (U : CaseTables) (r : rune) :
  N.leb r MaxASCII = true ->
  unicode_ToUpper U (unicode_ToLower U (unicode_ToLower U r))
  = unicode_ToUpper U (unicode_ToLower U r).
Proof.
  intros H. apply N.eqb_eq.
  apply (ascii_cases
           (fun r => N.eqb (unicode_ToUpper U (unicode_ToLower U (unicode_ToLower U r)))
                       (unicode_ToUpper U (unicode_ToLower U r)))); [|exact H].
  vm_compute. reflexivity.
Qed.

Lemma has_amp2_app (a b : gostring) : has_amp2 (a ++ amp :: amp :: b) = true.
Proof.
  destruct (has_amp2 (a ++ amp :: amp :: b)) eqn:E; [reflexivity|].
  pose proof (has_amp2_skipn _ E (List.length a)) as H. rewrite skipn_pre in H.
  discriminate H.
Qed.

(** X6: for a section name written in ASCII the case of the name does
    not matter: the name, its upper-case form and its lower-case form give
    the same result on every product. *)
Theorem section_name_case (U : CaseTables) (s : Product) (sectionName : gostring) :
  ascii_name sectionName = true ->
  GetDiscussionSection U s (ToUpper U sectionName) = GetDiscussionSection U s sectionName
  /\ GetDiscussionSection U s (ToLower U sectionName) = GetDiscussionSection U s sectionName.
Proof.
  intros H. unfold ascii_name in H. rewrite forallb_forall in H.
  split; apply GetDiscussionSection_name; unfold ToUpper, ToLower; rewrite !map_map;
    apply map_ext_in; intros r Hr.
  - now apply ascii_upper_lower_upper, H.
  - now apply ascii_upper_lower_lower, H.
Qed.

Lemma section_name_case_witness :
  ascii_name (str "Marine") = true
  /\ GetDiscussionSection ascii_tables demo_product (ToUpper ascii_tables (str "Marine"))
     = GetDiscussionSection ascii_tables demo_product (str "Marine")
  /\ GetDiscussionSection ascii_tables demo_product (ToLower ascii_tables (str "Marine"))
     = GetDiscussionSection ascii_tables demo_product (str "Marine").
Proof.
  split; [reflexivity|].
  apply (section_name_case ascii_tables demo_product (str "Marine")). reflexivity.
Defined.

(** X7: the first section of a name without pattern metacharacters is
    extracted whatever the case of its header and whatever run of dots and
    white space follows the name: when no header of the section begins
    before this one and the body begins with a rune that is neither a dot
    nor white space and has no two ampersands beginning after its first rune
    (the terminator included), the result is the heading in upper case, a
    blank line and [sanitizeString] of the body. *)
Theorem first_section_extracted (U : CaseTables) (sectionName pre hdr delim body post : gostring) :
  let NAME := ToUpper U (ToLower U sectionName) in
  plain NAME = true ->
  fold_prefix U (dot :: NAME) hdr = true ->
  List.length hdr = S (List.length NAME) ->
  delim <> [] ->
  forallb is_delim delim = true ->
  body_ok body = true ->
  no_header_before U NAME (section_text pre hdr delim body post) (List.length pre) = true ->
  GetDiscussionSection U (product_of_text (section_text pre hdr delim body post)) sectionName
  = (section <- sanitizeString U body ;; Ret (Good (formatDiscussionItem U NAME section))).
Proof.
  intros NAME Hp Hh Hlen Hd Hdelim Hbody Hbefore.
  rewrite (GetDiscussionSection_plain U _ sectionName Hp). fold NAME.
  cbn [ProductText product_of_text]. unfold section_text in *.
  rewrite (section_found U NAME pre hdr delim body post Hh Hlen Hd Hdelim Hbody Hbefore).
  cbn [nth cap_text].
  assert (slice (pre ++ hdr ++ delim ++ body ++ amp :: amp :: post)
            (List.length pre + List.length hdr + List.length delim)
            (List.length pre + List.length hdr + List.length delim + List.length body)
          = body) as ->.
  { replace (pre ++ hdr ++ delim ++ body ++ amp :: amp :: post)
      with ((pre ++ hdr ++ delim) ++ body ++ amp :: amp :: post)
      by (rewrite <- !app_assoc; reflexivity).
    replace (List.length pre + List.length hdr + List.length delim)
      with (List.length (pre ++ hdr ++ delim)) by (rewrite !length_app; lia).
    apply slice_mid. }
  rewrite sanitizeString_eq. reflexivity.
Qed.

Lemma first_section_extracted_witness :
  plain (ToUpper ascii_tables (ToLower ascii_tables (str "marine"))) = true
  /\ GetDiscussionSection ascii_tables
       (product_of_text
          (section_text (str "FXUS61 ") (str ".Marine") (str "... ") (str "Seas  2 ft.") (str " $$")))
       (str "marine")
     = Ret (Good (str "MARINE:" ++ newline :: newline :: str "Seas2 ft.")).
Proof.
  split; [reflexivity|].
  apply (first_section_extracted ascii_tables (str "marine") (str "FXUS61 ") (str ".Marine")
           (str "... ") (str "Seas  2 ft.") (str " $$"));
    try reflexivity. discriminate.
Defined.

(** X8: on a product text without two ampersands in a row no section is
    found, whatever the section name without pattern metacharacters: the
    result is the error that names the section. *)
Theorem no_terminator_no_section (U : CaseTables) (text sectionName : gostring) :
  plain (ToUpper U (ToLower U sectionName)) = true ->
  has_amp2 text = false ->
  GetDiscussionSection U (product_of_text text) sectionName
  = Ret (Bad (not_found_message (ToUpper U (ToLower U sectionName)))).
Proof.
  intros Hp Ha. rewrite (GetDiscussionSection_plain U _ sectionName Hp).
  cbn [ProductText product_of_text].
  rewrite (proj2 (find_section_none U _ text)); [reflexivity|].
  intros (pre & hdr & delim & body & rest & Hs & _).
  rewrite Hs in Ha.
  replace (pre ++ hdr ++ delim ++ body ++ amp :: amp :: rest)
    with ((pre ++ hdr ++ delim ++ body) ++ amp :: amp :: rest) in Ha
    by (rewrite <- !app_assoc; reflexivity).
  now rewrite has_amp2_app in Ha.
Qed.

Lemma no_terminator_no_section_witness :
  plain (ToUpper ascii_tables (ToLower ascii_tables (str "synopsis"))) = true
  /\ has_amp2 (str ".SYNOPSIS...Rain & wind.") = false
  /\ GetDiscussionSection ascii_tables (product_of_text (str ".SYNOPSIS...Rain & wind."))
       (str "synopsis")
     = Ret (Bad (str "No section of type SYNOPSIS found")).
Proof.
  split; [reflexivity|]. split; [reflexivity|].
  apply (no_terminator_no_section ascii_tables (str ".SYNOPSIS...Rain & wind.") (str "synopsis"));
    reflexivity.
Defined.

(* ================================================================== *)
(** * Further properties of the client, the resolver and the batch *)

Section MoreProgramFacts.

Variable U : CaseTables.
Variable net : Type.
Variable url_ok : gostring -> bool.
Variable roundTrip : gostring -> net -> http_reply * net.
Variable unmarshalResponse : gostring -> res (list Product).
Variable unmarshalProduct : gostring -> res Product.
Variable sendSMS : gostring -> gostring -> gostring -> net -> option gostring * net.

Lemma send_loop_sent (config : Config) (user : User) (sections : list gostring) :
  forall w : world net,
  exists w',
    send_loop sendSMS config user sections w = (Ret tt, w')
    /\ w_sent w' = w_sent w ++ map (message config user) sections.
Proof.
  induction sections as [|section rest IH]; intros w.
  - exists w. split; [reflexivity|]. cbn [map]. now rewrite app_nil_r.
  - cbn [send_loop]. unfold mbind at 1, SendSMS.
    destruct (sendSMS (TwillioFromPhone config) (Phone user) section (w_net w)) as [err n'].
    destruct err as [e|].
    + unfold mbind at 1, Println at 1. unfold mbind at 1, Println at 1.
      match goal with |- context [send_loop _ _ _ rest ?w1] => destruct (IH w1) as (w' & H1 & H2) end.
      exists w'. split; [exact H1|]. rewrite H2. cbn [w_sent map].
      rewrite <- app_assoc. reflexivity.
    + match goal with |- context [send_loop _ _ _ rest ?w1] => destruct (IH w1) as (w' & H1 & H2) end.
      exists w'. split; [exact H1|]. rewrite H2. cbn [w_sent map].
      rewrite <- app_assoc. reflexivity.
Qed.

Lemma sections_loop_world (afd : Product) (subscriptions : list gostring) :
  forall sections (w w' : world net) l,
  sections_loop U afd subscriptions sections w = (Ret l, w') ->
  w_net w' = w_net w /\ w_sent w' = w_sent w
  /\ w_stdout w' = w_stdout w ++ repeat (str "Missing section") (misses U afd subscriptions).
Proof.
  induction subscriptions as [|sub rest IH]; intros sections w w' l H.
  - cbn in H. injection H as _ <-. repeat split. cbn. now rewrite app_nil_r.
  - cbn [sections_loop] in H. unfold mbind at 1, lift in H.
    unfold misses, is_miss. cbn [filter]. fold (is_miss U afd).
    destruct (GetDiscussionSection U afd sub) as [[section|err]| | |]; try discriminate.
    + apply IH in H. exact H.
    + unfold mbind at 1, Println in H. apply IH in H. cbn [w_net w_sent w_stdout] in H.
      destruct H as (H1 & H2 & H3). repeat split; try assumption.
      rewrite H3, <- app_assoc. reflexivity.
Qed.

Lemma GetSubscribedSections_world (s : User) (w w' : world net) (l : list gostring) :
  GetSubscribedSections U url_ok roundTrip unmarshalResponse unmarshalProduct s w = (Ret l, w') ->
  w_sent w' = w_sent w /\ List.length l = 2 * List.length (Subscriptions s).
Proof.
  unfold GetSubscribedSections, mbind at 1.
  pose proof (GetAFD_output net url_ok roundTrip unmarshalResponse unmarshalProduct
                (NewNWSClient (LocationID s)) w) as Ho.
  destruct (GetAFD url_ok roundTrip unmarshalResponse unmarshalProduct
              (NewNWSClient (LocationID s)) w) as [[r| | |] w1]; try discriminate.
  destruct r as [afd|err]; [|discriminate]. intros H. cbn [snd] in Ho.
  destruct (sections_loop_world _ _ _ _ _ _ H) as (_ & H2 & _).
  apply sections_loop_entries in H. split.
  - rewrite H2. apply Ho.
  - rewrite H, length_app, repeat_length, length_map. lia.
Qed.


(** X10: once the product is fetched, resolving the subscriptions leaves
    the network alone and sends nothing; it prints [Missing section] once
    for every subscription that is not found, and nothing else. *)
Theorem resolver_prints_misses (s : User) (w w1 w' : world net) (afd : Product)
        (l : list gostring) :
  GetAFD url_ok roundTrip unmarshalResponse unmarshalProduct (NewNWSClient (LocationID s)) w
  = (Ret (Good afd), w1) ->
  GetSubscribedSections U url_ok roundTrip unmarshalResponse unmarshalProduct s w = (Ret l, w') ->
  w_net w' = w_net w1
  /\ w_sent w' = w_sent w
  /\ w_stdout w' = w_stdout w ++ repeat (str "Missing section") (misses U afd (Subscriptions s)).
Proof.
  intros Hf H. unfold GetSubscribedSections, mbind at 1 in H. rewrite Hf in H.
  pose proof (GetAFD_output net url_ok roundTrip unmarshalResponse unmarshalProduct
                (NewNWSClient (LocationID s)) w) as [Ho1 Ho2].
  rewrite Hf in Ho1, Ho2. cbn [snd] in Ho1, Ho2.
  destruct (sections_loop_world _ _ _ _ _ _ H) as (H1 & H2 & H3).
  rewrite H1, H2, H3, Ho1, Ho2. repeat split.
Qed.

(** X11: [GetAFD] succeeds only when the listing and the detail of its
    first entry were both answered with status 200 and decoded: the listing
    URI is the one of the client's office, the detail URI the one of the
    identifier of the first product listed, and the second request is made
    on the network as the first one left it. *)
Theorem GetAFD_success (s : NWSClient) (w w' : world net) (afd : Product) :
  GetAFD url_ok roundTrip unmarshalResponse unmarshalProduct s w = (Ret (Good afd), w') ->
  exists body1 n1 p ps body2,
    url_ok (listing_uri s) = true
    /\ roundTrip (listing_uri s) (w_net w) = (Reply 200 body1, n1)
    /\ unmarshalResponse body1 = Good (p :: ps)
    /\ url_ok (detail_uri s (ProductID p)) = true
    /\ roundTrip (detail_uri s (ProductID p)) n1 = (Reply 200 body2, w_net w')
    /\ unmarshalProduct body2 = Good afd.
Proof.
  unfold GetAFD, mbind at 1, GetProducts, mbind at 1, newRequest. fold (listing_uri s).
  destruct (url_ok (listing_uri s)) eqn:Eu1; [|discriminate]. cbn [mret].
  unfold mbind at 1, doRequest at 1.
  destruct (roundTrip (listing_uri s) (w_net w)) as [reply1 n1] eqn:Er1.
  destruct reply1 as [e|e|status1 body1]; try discriminate.
  destruct (N.eqb status1 200) eqn:Es1; cbn [negb]; [|discriminate].
  apply N.eqb_eq in Es1. subst status1. cbn [mret].
  destruct (unmarshalResponse body1) as [products|e] eqn:Em1; [|discriminate].
  destruct products as [|p ps]; [discriminate|].
  cbn [List.length Nat.ltb Nat.leb nth].
  unfold mbind at 1, GetProduct, mbind at 1, newRequest. fold (detail_uri s (ProductID p)).
  destruct (url_ok (detail_uri s (ProductID p))) eqn:Eu2; [|discriminate]. cbn [mret].
  unfold mbind at 1, doRequest at 1. cbn [w_net].
  destruct (roundTrip (detail_uri s (ProductID p)) n1) as [reply2 n2] eqn:Er2.
  destruct reply2 as [e|e|status2 body2]; try discriminate.
  destruct (N.eqb status2 200) eqn:Es2; cbn [negb]; [|discriminate].
  apply N.eqb_eq in Es2. subst status2. cbn [mret].
  destruct (unmarshalProduct body2) as [afd'|e] eqn:Em2; [|discriminate].
  intros H. injection H as -> <-. cbn [w_net].
  exists body1, n1, p, ps, body2. repeat split; assumption.
Qed.

(** X12: when [http.NewRequest] refuses the listing URI of a subscriber's
    office, the batch panics at that subscriber: the header is set on the
    nil request before the error is looked at.  No request is made and
    nothing is printed or sent for that subscriber or those after it. *)
Theorem refused_uri_panics (config : Config) (user : User) (rest : list User) (w : world net) :
  url_ok (listing_uri (NewNWSClient (LocationID user))) = false ->
  users_loop U url_ok roundTrip unmarshalResponse unmarshalProduct sendSMS
    config (user :: rest) w
  = (Panic, w).
Proof.
  intros H. cbn [users_loop].
  unfold mbind at 1, GetSubscribedSections, mbind at 1, GetAFD, mbind at 1, GetProducts,
    mbind at 1, newRequest.
  fold (listing_uri (NewNWSClient (LocationID user))). rewrite H. reflexivity.
Qed.

(** X13: the same for the detail URI, whose last part comes from the
    listing the service answered: when it is refused, [GetAFD] panics after
    the listing request, without a second request. *)
Theorem refused_detail_uri_panics (s : NWSClient) (w w1 : world net) (p : Product)
        (ps : list Product) :
  GetProducts url_ok roundTrip unmarshalResponse s (str "afd") w = (Ret (Good (p :: ps)), w1) ->
  url_ok (detail_uri s (ProductID p)) = false ->
  GetAFD url_ok roundTrip unmarshalResponse unmarshalProduct s w = (Panic, w1).
Proof.
  intros Hl H. rewrite (GetAFD_after_listing net url_ok roundTrip unmarshalResponse
                          unmarshalProduct s w w1 (p :: ps) Hl).
  unfold GetProduct, mbind at 1, newRequest. fold (detail_uri s (ProductID p)).
  rewrite H. reflexivity.
Qed.

(** X14: a batch that runs to its end has handed to the provider two
    strings for every subscription of every subscriber. *)
Theorem batch_sends_two_per_subscription (config : Config) (users : list User) :
  forall w w' : world net,
  users_loop U url_ok roundTrip unmarshalResponse unmarshalProduct sendSMS config users w
  = (Ret tt, w') ->
  List.length (w_sent w') = List.length (w_sent w) + 2 * total_subscriptions users.
Proof.
  induction users as [|user rest IH]; intros w w' H.
  - cbn in H. injection H as <-. unfold total_subscriptions. cbn. lia.
  - cbn [users_loop] in H. unfold mbind at 1 in H.
    destruct (GetSubscribedSections U url_ok roundTrip unmarshalResponse unmarshalProduct user w)
      as [[l| | |] w1] eqn:Eg; try discriminate.
    destruct (GetSubscribedSections_world _ _ _ _ Eg) as [Hs Hl].
    unfold mbind at 1 in H.
    destruct (send_loop_sent config user l w1) as (w2 & Hsend & Hsent).
    rewrite Hsend in H. apply IH in H. rewrite H, Hsent, length_app, length_map, Hs, Hl.
    change (total_subscriptions (user :: rest))
      with (List.length (Subscriptions user) + total_subscriptions rest).
    lia.
Qed.

End MoreProgramFacts.

Lemma resolver_prints_misses_witness :
  GetAFD demo_url_ok demo_roundTrip demo_unmarshalResponse demo_unmarshalProduct
    (NewNWSClient (LocationID bob)) demo_world
  = (Ret (Good demo_product), demo_world)
  /\ w_stdout
       (snd (GetSubscribedSections ascii_tables demo_url_ok demo_roundTrip demo_unmarshalResponse
               demo_unmarshalProduct bob demo_world))
     = w_stdout demo_world
       ++ repeat (str "Missing section") (misses ascii_tables demo_product (Subscriptions bob)).
Proof.
  split; [vm_compute; reflexivity|].
  apply (resolver_prints_misses ascii_tables unit demo_url_ok demo_roundTrip
           demo_unmarshalResponse demo_unmarshalProduct bob demo_world demo_world
           (snd (GetSubscribedSections ascii_tables demo_url_ok demo_roundTrip
                   demo_unmarshalResponse demo_unmarshalProduct bob demo_world))
           demo_product
           [[]; []; []; str "MARINE:" ++ newline :: newline :: str "Calm."]);
    vm_compute; reflexivity.
Defined.

Lemma GetAFD_success_witness :
  GetAFD demo_url_ok demo_roundTrip demo_unmarshalResponse demo_unmarshalProduct
    (NewNWSClient (str "PHI")) demo_world
  = (Ret (Good demo_product), demo_world)
  /\ exists body1 n1 p ps body2,
       demo_url_ok (listing_uri (NewNWSClient (str "PHI"))) = true
       /\ demo_roundTrip (listing_uri (NewNWSClient (str "PHI"))) (w_net demo_world)
          = (Reply 200 body1, n1)
       /\ demo_unmarshalResponse body1 = Good (p :: ps)
       /\ demo_url_ok (detail_uri (NewNWSClient (str "PHI")) (ProductID p)) = true
       /\ demo_roundTrip (detail_uri (NewNWSClient (str "PHI")) (ProductID p)) n1
          = (Reply 200 body2, w_net demo_world)
       /\ demo_unmarshalProduct body2 = Good demo_product.
Proof.
  split; [vm_compute; reflexivity|].
  apply (GetAFD_success unit demo_url_ok demo_roundTrip demo_unmarshalResponse
           demo_unmarshalProduct (NewNWSClient (str "PHI")) demo_world demo_world demo_product).
  vm_compute. reflexivity.
Defined.

(** Eve's office identifier has a line break in it: the batch panics at
    Eve, and Bob after Eve is sent nothing. *)
Lemma refused_uri_panics_witness :
  strict_url_ok (listing_uri (NewNWSClient (LocationID eve))) = false
  /\ users_loop ascii_tables strict_url_ok demo_roundTrip demo_unmarshalResponse
       demo_unmarshalProduct demo_sendSMS demo_config [eve; bob] demo_world
     = (Panic, demo_world).
Proof.
  split; [reflexivity|].
  apply (refused_uri_panics ascii_tables unit strict_url_ok demo_roundTrip
           demo_unmarshalResponse demo_unmarshalProduct demo_sendSMS demo_config eve [bob]
           demo_world).
  reflexivity.
Defined.

Lemma refused_detail_uri_panics_witness :
  GetProducts strict_url_ok demo_roundTrip odd_unmarshalResponse
    (NewNWSClient (str "PHI")) (str "afd") demo_world
  = (Ret (Good [odd_product; demo_product]), demo_world)
  /\ strict_url_ok (detail_uri (NewNWSClient (str "PHI")) (ProductID odd_product)) = false
  /\ GetAFD strict_url_ok demo_roundTrip odd_unmarshalResponse demo_unmarshalProduct
       (NewNWSClient (str "PHI")) demo_world
     = (Panic, demo_world).
Proof.
  split; [vm_compute; reflexivity|]. split; [reflexivity|].
  apply (refused_detail_uri_panics unit strict_url_ok demo_roundTrip odd_unmarshalResponse
           demo_unmarshalProduct (NewNWSClient (str "PHI")) demo_world demo_world
           odd_product [demo_product]);
    [vm_compute; reflexivity|reflexivity].
Defined.

Lemma batch_sends_two_per_subscription_witness :
  List.length
    (w_sent (snd (users_loop ascii_tables demo_url_ok demo_roundTrip demo_unmarshalResponse
                    demo_unmarshalProduct demo_sendSMS demo_config [bob; bob] demo_world)))
  = List.length (w_sent demo_world) + 2 * total_subscriptions [bob; bob].
Proof.
  apply (batch_sends_two_per_subscription ascii_tables unit demo_url_ok demo_roundTrip
           demo_unmarshalResponse demo_unmarshalProduct demo_sendSMS demo_config [bob; bob]
           demo_world).
  vm_compute. reflexivity.
Defined.

(* ================================================================== *)
(** * The batch as a whole *)

Section BatchFacts.

Variable U : CaseTables.
Variable net : Type.
Variable url_ok : gostring -> bool.
Variable roundTrip : gostring -> net -> http_reply * net.
Variable unmarshalResponse : gostring -> res (list Product).
Variable unmarshalProduct : gostring -> res Product.
Variable sendSMS : gostring -> gostring -> gostring -> net -> option gostring * net.

Lemma grows_refl (w : world net) : grows w w.
Proof. split; exists []; now rewrite app_nil_r. Qed.

Lemma grows_trans (w1 w2 w3 : world net) : grows w1 w2 -> grows w2 w3 -> grows w1 w3.
Proof.
  intros [[p1 H1] [s1 H2]] [[p2 H3] [s2 H4]]. split.
  - exists (p1 ++ p2). now rewrite H3, H1, app_assoc.
  - exists (s1 ++ s2). now rewrite H4, H2, app_assoc.
Qed.

Lemma same_output_grows (w w' : world net) : same_output w w' -> grows w w'.
Proof. intros [H1 H2]. split; exists []; now rewrite app_nil_r. Qed.

Lemma sections_loop_output (afd : Product) (subscriptions : list gostring) :
  forall sections (w w' : world net) o,
  sections_loop U afd subscriptions sections w = (o, w') ->
  w_sent w' = w_sent w /\ exists printed, w_stdout w' = w_stdout w ++ printed.
Proof.
  induction subscriptions as [|sub rest IH]; intros sections w w' o H.
  - cbn in H. injection H as _ <-. split; [reflexivity|]. exists []. now rewrite app_nil_r.
  - cbn [sections_loop] in H. unfold mbind at 1, lift in H.
    destruct (GetDiscussionSection U afd sub) as [[section|err]| | |];
      try (injection H as _ <-; split; [reflexivity|exists []; now rewrite app_nil_r]).
    + apply IH in H. exact H.
    + unfold mbind at 1, Println in H. apply IH in H. cbn [w_sent w_stdout] in H.
      destruct H as [H1 [printed H2]]. split; [exact H1|].
      exists ([str "Missing section"] ++ printed). rewrite H2. now rewrite <- app_assoc.
Qed.

Lemma GetSubscribedSections_grows (s : User) (w w' : world net) (o : outcome (list gostring)) :
  GetSubscribedSections U url_ok roundTrip unmarshalResponse unmarshalProduct s w = (o, w') ->
  w_sent w' = w_sent w /\ grows w w'.
Proof.
  unfold GetSubscribedSections, mbind at 1.
  pose proof (GetAFD_output net url_ok roundTrip unmarshalResponse unmarshalProduct
                (NewNWSClient (LocationID s)) w) as Ho.
  destruct (GetAFD url_ok roundTrip unmarshalResponse unmarshalProduct
              (NewNWSClient (LocationID s)) w) as [[r| | |] w1]; cbn [snd] in Ho;
    try (intros H; injection H as _ <-; split; [apply Ho|now apply same_output_grows]).
  destruct r as [afd|err];
    [|intros H; injection H as _ <-; split; [apply Ho|now apply same_output_grows]].
  intros H. apply sections_loop_output in H. destruct H as [H1 [printed H2]].
  destruct Ho as [Ho1 Ho2]. split; [now rewrite H1|]. split.
  - exists printed. now rewrite H2, Ho1.
  - exists []. now rewrite H1, Ho2, app_nil_r.
Qed.

Lemma send_loop_grows (config : Config) (user : User) (sections : list gostring) :
  forall w : world net,
  exists w',
    send_loop sendSMS config user sections w = (Ret tt, w')
    /\ w_sent w' = w_sent w ++ map (message config user) sections
    /\ exists printed, w_stdout w' = w_stdout w ++ printed.
Proof.
  induction sections as [|section rest IH]; intros w.
  - exists w. split; [reflexivity|]. cbn [map]. rewrite app_nil_r. split; [reflexivity|].
    exists []. now rewrite app_nil_r.
  - cbn [send_loop]. unfold mbind at 1, SendSMS.
    destruct (sendSMS (TwillioFromPhone config) (Phone user) section (w_net w)) as [err n'].
    destruct err as [e|].
    + unfold mbind at 1, Println at 1. unfold mbind at 1, Println at 1.
      match goal with |- context [send_loop _ _ _ rest ?w1] =>
        destruct (IH w1) as (w' & H1 & H2 & printed & H3) end.
      exists w'. split; [exact H1|]. split.
      * rewrite H2. cbn [w_sent map]. now rewrite <- app_assoc.
      * exists ([str "ERROR"; e] ++ printed). rewrite H3. cbn [w_stdout].
        now rewrite <- !app_assoc.
    + match goal with |- context [send_loop _ _ _ rest ?w1] =>
        destruct (IH w1) as (w' & H1 & H2 & printed & H3) end.
      exists w'. split; [exact H1|]. split.
      * rewrite H2. cbn [w_sent map]. now rewrite <- app_assoc.
      * exists printed. exact H3.
Qed.

Lemma users_loop_grows (config : Config) (users : list User) :
  forall (w w' : world net) o,
  users_loop U url_ok roundTrip unmarshalResponse unmarshalProduct sendSMS config users w
  = (o, w') ->
  grows w w'.
Proof.
  induction users as [|user rest IH]; intros w w' o H.
  - cbn in H. injection H as _ <-. apply grows_refl.
  - cbn [users_loop] in H. unfold mbind at 1 in H.
    destruct (GetSubscribedSections U url_ok roundTrip unmarshalResponse unmarshalProduct user w)
      as [o1 w1] eqn:Eg.
    destruct (GetSubscribedSections_grows _ _ _ _ Eg) as [_ Hg].
    destruct o1 as [l| | |]; try (injection H as _ <-; exact Hg).
    unfold mbind at 1 in H.
    destruct (send_loop_grows config user l w1) as (w2 & Hsend & Hsent & printed & Hout).
    rewrite Hsend in H. apply IH in H.
    eapply grows_trans; [exact Hg|]. eapply grows_trans; [|exact H].
    split; [exists printed; exact Hout|exists (map (message config user) l); exact Hsent].
Qed.

Lemma sections_loop_panic (afd : Product) (sub : gostring) (after : list gostring)
      (before : list gostring) :
  (forall s, In s before -> exists r, GetDiscussionSection U afd s = Ret r) ->
  GetDiscussionSection U afd sub = Panic ->
  forall sections (w : world net),
  fst (sections_loop U afd (before ++ sub :: after) sections w) = Panic.
Proof.
  intros Hb Hp. induction before as [|s before IH]; intros sections w.
  - cbn [app sections_loop]. unfold mbind, lift. now rewrite Hp.
  - cbn [app sections_loop]. unfold mbind at 1, lift.
    destruct (Hb s (or_introl eq_refl)) as [r Hr]. rewrite Hr.
    assert (forall s0, In s0 before -> exists r0, GetDiscussionSection U afd s0 = Ret r0) as Hb'
      by (intros s0 H0; apply Hb; now right).
    destruct r as [section|err]; [apply (IH Hb')|].
    unfold mbind at 1, Println. apply (IH Hb').
Qed.

(** X15: one subscription whose pattern does not compile stops the whole
    batch: when the subscriptions before it are resolved and
    [GetDiscussionSection] panics on it, the batch panics at that
    subscriber, after the fetch, and nothing is sent to the subscriber or to
    those after it. *)
Theorem bad_subscription_stops_batch (config : Config) (user : User) (rest : list User)
        (w w1 : world net) (afd : Product) (before after : list gostring) (sub : gostring) :
  GetAFD url_ok roundTrip unmarshalResponse unmarshalProduct (NewNWSClient (LocationID user)) w
  = (Ret (Good afd), w1) ->
  Subscriptions user = before ++ sub :: after ->
  (forall s, In s before -> exists r, GetDiscussionSection U afd s = Ret r) ->
  GetDiscussionSection U afd sub = Panic ->
  fst (users_loop U url_ok roundTrip unmarshalResponse unmarshalProduct sendSMS
         config (user :: rest) w) = Panic
  /\ w_sent (snd (users_loop U url_ok roundTrip unmarshalResponse unmarshalProduct sendSMS
                    config (user :: rest) w)) = w_sent w.
Proof.
  intros Hf Hs Hb Hp.
  assert (fst (GetSubscribedSections U url_ok roundTrip unmarshalResponse unmarshalProduct
                 user w) = Panic) as Hpanic.
  { unfold GetSubscribedSections, mbind at 1. rewrite Hf, Hs.
    now apply sections_loop_panic. }
  cbn [users_loop]. unfold mbind at 1. unfold mbind at 2.
  destruct (GetSubscribedSections U url_ok roundTrip unmarshalResponse unmarshalProduct user w)
    as [o w2] eqn:Eg.
  destruct (GetSubscribedSections_grows _ _ _ _ Eg) as [Hsent _].
  cbn [fst] in Hpanic. subst o. cbn [fst snd]. split; [reflexivity|exact Hsent].
Qed.

(** X17: the deliveries to a subscriber stand whatever happens to the
    subscribers after it: once the subscriber is resolved, every string
    returned for it is handed to the provider, in order, right after what
    was sent before, however the rest of the batch ends. *)
Theorem deliveries_stand (config : Config) (user : User) (rest : list User)
        (w w1 : world net) (l : list gostring) :
  GetSubscribedSections U url_ok roundTrip unmarshalResponse unmarshalProduct user w
  = (Ret l, w1) ->
  exists later,
    w_sent (snd (users_loop U url_ok roundTrip unmarshalResponse unmarshalProduct sendSMS
                   config (user :: rest) w))
    = w_sent w ++ map (message config user) l ++ later.
Proof.
  intros H. cbn [users_loop]. unfold mbind at 1. rewrite H. unfold mbind at 1.
  destruct (GetSubscribedSections_grows _ _ _ _ H) as [Hs _].
  destruct (send_loop_grows config user l w1) as (w2 & Hsend & Hsent & _).
  rewrite Hsend.
  destruct (users_loop U url_ok roundTrip unmarshalResponse unmarshalProduct sendSMS
              config rest w2) as [o w'] eqn:E.
  destruct (users_loop_grows _ _ _ _ _ E) as [_ [later Hl]].
  exists later. cbn [snd]. rewrite Hl, Hsent, Hs. now rewrite <- app_assoc.
Qed.

End BatchFacts.

Lemma bad_subscription_stops_batch_witness :
  GetAFD demo_url_ok demo_roundTrip demo_unmarshalResponse demo_unmarshalProduct
    (NewNWSClient (LocationID pat)) demo_world
  = (Ret (Good demo_product), demo_world)
  /\ users_loop ascii_tables demo_url_ok demo_roundTrip demo_unmarshalResponse
       demo_unmarshalProduct demo_sendSMS demo_config [pat; bob] demo_world
     = (Panic, {| w_net := tt; w_stdout := [str "Missing section"]; w_sent := [] |})
  /\ fst (users_loop ascii_tables demo_url_ok demo_roundTrip demo_unmarshalResponse
            demo_unmarshalProduct demo_sendSMS demo_config [pat; bob] demo_world) = Panic
  /\ w_sent (snd (users_loop ascii_tables demo_url_ok demo_roundTrip demo_unmarshalResponse
                    demo_unmarshalProduct demo_sendSMS demo_config [pat; bob] demo_world))
     = w_sent demo_world.
Proof.
  split; [vm_compute; reflexivity|]. split; [vm_compute; reflexivity|].
  apply (bad_subscription_stops_batch ascii_tables unit demo_url_ok demo_roundTrip
           demo_unmarshalResponse demo_unmarshalProduct demo_sendSMS demo_config pat [bob]
           demo_world demo_world demo_product [str "climate"] [] (str "(")).
  - vm_compute. reflexivity.
  - reflexivity.
  - intros s [<-|[]]. eexists. vm_compute. reflexivity.
  - reflexivity.
Defined.

Lemma deliveries_stand_witness :
  GetSubscribedSections ascii_tables demo_url_ok demo_roundTrip demo_unmarshalResponse
    demo_unmarshalProduct bob demo_world
  = (Ret [[]; []; []; str "MARINE:" ++ newline :: newline :: str "Calm."],
     {| w_net := tt; w_stdout := [str "Missing section"]; w_sent := [] |})
  /\ exists later,
       w_sent (snd (users_loop ascii_tables demo_url_ok demo_roundTrip demo_unmarshalResponse
                      demo_unmarshalProduct demo_sendSMS demo_config [bob; ann] demo_world))
       = w_sent demo_world
         ++ map (message demo_config bob)
              [[]; []; []; str "MARINE:" ++ newline :: newline :: str "Calm."]
         ++ later.
Proof.
  split; [vm_compute; reflexivity|].
  apply (deliveries_stand ascii_tables unit demo_url_ok demo_roundTrip demo_unmarshalResponse
           demo_unmarshalProduct demo_sendSMS demo_config bob [ann] demo_world
           {| w_net := tt; w_stdout := [str "Missing section"]; w_sent := [] |}).
  vm_compute. reflexivity.
Defined.

(* ================================================================== *)
(** * The earlier normalizer: what each replacement computes *)

Lemma compile_insideWhitespaceRe : Compile (str "[\s\p{Zs}]{2,}") = Compiled insideWhitespaceRe.
Proof. vm_compute. reflexivity. Qed.

Lemma compile_newlineWhitespaceRe : Compile (str "[\n\t\r]") = Compiled newlineWhitespaceRe.
Proof. vm_compute. reflexivity. Qed.

Section EarlierPatternFacts.

Variable U : CaseTables.

Lemma atom_break (r : rune) : atom_match U break_class r = is_break r.
Proof.
  unfold is_break, is_nl, is_tab_cr, newline. simpl.
  rewrite orb_false_r, !in_range_single. now rewrite orb_assoc.
Qed.

Lemma expand_space (src : gostring) (c : caps) : expand (str " ") 0 src c = [space].
Proof. reflexivity. Qed.

(** *** [newlineWhitespaceRe] *)

Lemma match_newlineWhitespaceRe (p : nat) (s : gostring) :
  match_here U newlineWhitespaceRe p s
  = match s with
    | x :: _ => if is_break x then Some [Some (p, p + 1)] else None
    | [] => None
    end.
Proof.
  unfold match_here, newlineWhitespaceRe. cbn [re_tree re_ncap m].
  destruct s as [|x s]; [reflexivity|].
  rewrite atom_break. destruct (is_break x); [|reflexivity].
  simpl. now rewrite Nat.add_1_r.
Qed.

Lemma nonempty_newlineWhitespaceRe : nonempty_matches U newlineWhitespaceRe.
Proof.
  intros p s a H. rewrite match_newlineWhitespaceRe in H. destruct s as [|x s]; [discriminate|].
  destruct (is_break x); [|discriminate]. injection H as <-. exists 1. split; [lia|reflexivity].
Qed.

Lemma loop_newlineWhitespaceRe (rest : gostring) :
  forall fuel pre buf, List.length rest < fuel ->
  loop_at U fuel newlineWhitespaceRe (str "") pre rest buf = buf ++ strip_breaks rest.
Proof.
  induction rest as [|x rest IH]; intros [|fuel] pre buf Hf; try (simpl in Hf; lia).
  - simpl strip_breaks. apply loop_end. cbn [find_from]. now rewrite match_newlineWhitespaceRe.
  - simpl in Hf. unfold strip_breaks. cbn [filter]. fold (strip_breaks rest).
    destruct (is_break x) eqn:Ex; cbn [negb].
    + change (x :: rest) with ([x] ++ rest).
      rewrite (loop_match U fuel newlineWhitespaceRe (str "") pre [x] rest buf
                 [Some (List.length pre, List.length pre + 1)]).
      * rewrite expand_empty, app_nil_r. apply IH. lia.
      * rewrite match_newlineWhitespaceRe. cbn [app]. now rewrite Ex.
      * reflexivity.
      * discriminate.
    + rewrite loop_skip.
      * rewrite IH by lia. now rewrite <- app_assoc.
      * apply nonempty_newlineWhitespaceRe.
      * rewrite match_newlineWhitespaceRe. now rewrite Ex.
Qed.

Lemma replace_newlineWhitespaceRe (s : gostring) :
  ReplaceAllString U newlineWhitespaceRe s (str "") = strip_breaks s.
Proof.
  unfold ReplaceAllString.
  change (loop_at U (S (S (List.length s))) newlineWhitespaceRe (str "") [] s [] = strip_breaks s).
  rewrite loop_newlineWhitespaceRe by lia. reflexivity.
Qed.

(** *** [insideWhitespaceRe] *)

Lemma match_insideWhitespaceRe (p : nat) (s : gostring) :
  match_here U insideWhitespaceRe p s
  = if 2 <=? run_len is_space_sep s then Some [Some (p, p + run_len is_space_sep s)] else None.
Proof.
  unfold match_here, insideWhitespaceRe. cbn [re_tree re_ncap m].
  destruct (Nat.leb_spec 2 (run_len is_space_sep s)) as [H|H].
  - apply rep_greedy_run with (f := is_space_sep); auto using atom_ws.
  - apply rep_short_run with (f := is_space_sep); auto using atom_ws.
Qed.

Lemma nonempty_insideWhitespaceRe : nonempty_matches U insideWhitespaceRe.
Proof.
  intros p s a H. rewrite match_insideWhitespaceRe in H.
  destruct (Nat.leb_spec 2 (run_len is_space_sep s)) as [H2|H2]; [|discriminate].
  injection H as <-. exists (run_len is_space_sep s). split; [lia|reflexivity].
Qed.

Lemma squeeze_in_run (s : gostring) :
  squeeze true s = squeeze false (skipn (run_len is_space_sep s) s).
Proof.
  induction s as [|x s IH]; [reflexivity|].
  cbn [squeeze run_len]. destruct (is_space_sep x) eqn:E.
  - rewrite IH. reflexivity.
  - cbn [skipn squeeze]. now rewrite E.
Qed.

Lemma squeeze_long (s : gostring) :
  2 <= run_len is_space_sep s ->
  squeeze false s = space :: squeeze false (skipn (run_len is_space_sep s) s).
Proof.
  destruct s as [|x [|y t]]; simpl run_len; try lia.
  - destruct (is_space_sep x); simpl; lia.
  - intros H. destruct (is_space_sep x) eqn:Ex; [|lia].
    destruct (is_space_sep y) eqn:Ey; [|lia].
    cbn [squeeze]. rewrite Ex, Ey. cbn [skipn]. f_equal.
    now rewrite <- (squeeze_in_run t).
Qed.

Lemma squeeze_short (x : rune) (s : gostring) :
  run_len is_space_sep (x :: s) < 2 ->
  squeeze false (x :: s) = x :: squeeze false s.
Proof.
  cbn [run_len squeeze]. destruct (is_space_sep x); [|reflexivity].
  destruct s as [|y t]; [reflexivity|].
  cbn [run_len]. destruct (is_space_sep y); [lia|reflexivity].
Qed.

Lemma loop_insideWhitespaceRe (n : nat) :
  forall rest fuel pre buf, List.length rest <= n -> List.length rest < fuel ->
  loop_at U fuel insideWhitespaceRe (str " ") pre rest buf = buf ++ squeeze false rest.
Proof.
  induction n as [|n IH]; intros rest [|fuel] pre buf Hn Hf; try lia.
  - destruct rest; [|simpl in Hn; lia].
    cbn [squeeze]. apply loop_end. cbn [find_from]. now rewrite match_insideWhitespaceRe.
  - destruct rest as [|x s1].
    { cbn [squeeze]. apply loop_end. cbn [find_from]. now rewrite match_insideWhitespaceRe. }
    destruct (Nat.leb_spec 2 (run_len is_space_sep (x :: s1))) as [H|H].
    + rewrite (squeeze_long _ H).
      set (k := run_len is_space_sep (x :: s1)) in *.
      assert (k <= List.length (x :: s1)) as Hk by apply run_len_le.
      rewrite <- (firstn_skipn k (x :: s1)) at 1.
      rewrite (loop_match U fuel insideWhitespaceRe (str " ") pre (firstn k (x :: s1))
                 (skipn k (x :: s1)) buf [Some (List.length pre, List.length pre + k)]).
      * rewrite expand_space. rewrite IH by (rewrite length_skipn; lia).
        rewrite <- app_assoc. reflexivity.
      * rewrite firstn_skipn, match_insideWhitespaceRe. fold k.
        now rewrite (proj2 (Nat.leb_le 2 k) H).
      * cbn [nth]. rewrite length_firstn, Nat.min_l by exact Hk. reflexivity.
      * intros E. apply (f_equal (@List.length rune)) in E.
        rewrite length_firstn, Nat.min_l in E by exact Hk. simpl in E. lia.
    + rewrite (squeeze_short _ _ H), loop_skip.
      * simpl in Hn, Hf. rewrite IH by lia. now rewrite <- app_assoc.
      * apply nonempty_insideWhitespaceRe.
      * rewrite match_insideWhitespaceRe. now rewrite (proj2 (Nat.leb_gt 2 _) H).
Qed.

Lemma replace_insideWhitespaceRe (s : gostring) :
  ReplaceAllString U insideWhitespaceRe s (str " ") = squeeze false s.
Proof.
  unfold ReplaceAllString.
  change (loop_at U (S (S (List.length s))) insideWhitespaceRe (str " ") [] s []
          = squeeze false s).
  rewrite (loop_insideWhitespaceRe (List.length s)) by lia. reflexivity.
Qed.

(** The earlier [sanitizeString] computes [sanitize1]. *)
Lemma sanitizeString1_eq (s : gostring) : Part001.sanitizeString U s = Ret (sanitize1 s).
Proof.
  unfold Part001.sanitizeString, MustCompile.
  rewrite compile_leadingTrailingWhitespaceRe, compile_insideWhitespaceRe,
    compile_newlineWhitespaceRe.
  cbn [obind].
  rewrite replace_leadingTrailingWhitespaceRe, replace_insideWhitespaceRe,
    replace_newlineWhitespaceRe.
  reflexivity.
Qed.

End EarlierPatternFacts.

(* ================================================================== *)
(** * Properties of the earlier normalizer *)

Lemma is_break_is_sep (x : rune) : is_break x = true -> is_space_sep x = true.
Proof.
  unfold is_break. intros H. apply orb_true_iff in H as [H|H];
    [now apply is_nl_is_sep|now apply is_tab_cr_is_sep].
Qed.

Lemma space_is_sep : is_space_sep space = true.
Proof. reflexivity. Qed.

Lemma visible_squeeze (s : gostring) : forall f, visible (squeeze f s) = visible s.
Proof.
  induction s as [|x s IH]; intros f; [reflexivity|]. cbn [squeeze].
  destruct (is_space_sep x) eqn:Ex.
  - rewrite (visible_cons_sep x s Ex).
    destruct f; [apply IH|]. destruct s as [|y t]; [now apply visible_cons_sep|].
    destruct (is_space_sep y) eqn:Ey.
    + rewrite (visible_cons_sep space _ space_is_sep). apply IH.
    + rewrite (visible_cons_sep x _ Ex). apply IH.
  - apply visible_cons, IH.
Qed.

Lemma visible_strip_breaks (s : gostring) : visible (strip_breaks s) = visible s.
Proof.
  unfold strip_breaks. induction s as [|x s IH]; [reflexivity|]. cbn [filter].
  destruct (is_break x) eqn:E; cbn [negb].
  - now rewrite (visible_cons_sep x s (is_break_is_sep _ E)).
  - now apply visible_cons.
Qed.

Lemma visible_sanitize1 (s : gostring) : visible (sanitize1 s) = visible s.
Proof.
  unfold sanitize1, trim.
  now rewrite visible_strip_breaks, visible_squeeze, visible_rtrim, visible_ltrim.
Qed.

Lemma no_double_sep_cons (x : rune) (s : gostring) :
  no_double_sep (x :: s)
  = (negb (is_space_sep x) || head_not_space_sep s) && no_double_sep s.
Proof.
  cbn [no_double_sep]. f_equal. destruct s as [|y t]; cbn [head_not_space_sep].
  - now rewrite andb_false_r, orb_true_r.
  - now rewrite negb_andb.
Qed.

Lemma squeeze_no_double (s : gostring) :
  forall f, no_double_sep (squeeze f s) = true
            /\ (f = true -> head_not_space_sep (squeeze f s) = true).
Proof.
  induction s as [|x s IH]; intros f; [split; reflexivity|].
  cbn [squeeze]. destruct (is_space_sep x) eqn:Ex.
  - destruct f; [apply IH|]. split; [|discriminate].
    destruct s as [|y t]; [cbn; now rewrite andb_false_r|].
    destruct (is_space_sep y) eqn:Ey.
    + rewrite no_double_sep_cons. destruct (IH true) as [IH1 IH2].
      now rewrite IH1, (IH2 eq_refl), orb_true_r.
    + rewrite no_double_sep_cons. destruct (IH false) as [IH1 _]. rewrite IH1.
      cbn [squeeze]. rewrite Ey. cbn [head_not_space_sep]. rewrite Ey.
      now rewrite orb_true_r.
  - rewrite no_double_sep_cons, Ex. cbn [negb orb andb head_not_space_sep].
    split; [apply IH|intros _; now rewrite Ex].
Qed.

Lemma strip_breaks_head (s : gostring) :
  head_not_space_sep s = true -> head_not_space_sep (strip_breaks s) = true.
Proof.
  destruct s as [|x s]; [reflexivity|]. unfold strip_breaks. cbn [head_not_space_sep filter].
  intros H. destruct (is_break x) eqn:E; [|exact H].
  apply negb_true_iff in H. now rewrite (is_break_is_sep _ E) in H.
Qed.

Lemma strip_breaks_no_double (s : gostring) :
  no_double_sep s = true -> no_double_sep (strip_breaks s) = true.
Proof.
  induction s as [|x s IH]; intros H; [reflexivity|].
  rewrite no_double_sep_cons in H. apply andb_true_iff in H as [H1 H2].
  unfold strip_breaks. cbn [filter]. fold (strip_breaks s).
  destruct (is_break x) eqn:E; cbn [negb]; [now apply IH|].
  rewrite no_double_sep_cons, (IH H2), andb_true_r.
  apply orb_true_iff in H1 as [H1|H1]; [now rewrite H1|].
  now rewrite (strip_breaks_head _ H1), orb_true_r.
Qed.

Lemma squeeze_id (s : gostring) : no_double_sep s = true -> squeeze false s = s.
Proof.
  induction s as [|x s IH]; intros H; [reflexivity|].
  rewrite no_double_sep_cons in H. apply andb_true_iff in H as [H1 H2].
  cbn [squeeze]. rewrite (IH H2). destruct (is_space_sep x) eqn:Ex; [|reflexivity].
  cbn [negb orb] in H1. destruct s as [|y t]; [reflexivity|].
  cbn [head_not_space_sep] in H1. apply negb_true_iff in H1. now rewrite H1.
Qed.

Lemma strip_breaks_id (s : gostring) : no_break s = true -> strip_breaks s = s.
Proof.
  unfold no_break, strip_breaks. induction s as [|x s IH]; [reflexivity|].
  cbn [forallb filter]. intros H. apply andb_true_iff in H as [H1 H2].
  rewrite H1. now rewrite (IH H2).
Qed.

Lemma strip_breaks_clean (s : gostring) : no_break (strip_breaks s) = true.
Proof.
  unfold no_break, strip_breaks. apply forallb_forall. intros r Hr.
  apply filter_In in Hr. tauto.
Qed.

Lemma squeeze_head (s : gostring) :
  head_not_space_sep s = true -> head_not_space_sep (squeeze false s) = true.
Proof.
  destruct s as [|x s]; [reflexivity|]. cbn [head_not_space_sep squeeze]. intros H.
  apply negb_true_iff in H. rewrite H. cbn [head_not_space_sep]. now rewrite H.
Qed.

Lemma squeeze_no_space_tail (s : gostring) :
  forall f, no_space_tail s = true -> no_space_tail (squeeze f s) = true.
Proof.
  induction s as [|x s IH]; intros f H; [reflexivity|].
  pose proof (no_space_tail_tl _ _ H) as Ht.
  assert (forall z g, is_space_sep z = is_space_sep x ->
                      no_space_tail (z :: squeeze g s) = true) as Hkeep.
  { intros z g Hz. cbn [no_space_tail]. rewrite (IH g Ht), andb_true_r.
    apply negb_true_iff. cbn [no_space_tail] in H. apply andb_true_iff in H as [H _].
    apply negb_true_iff in H. cbn [forallb] in H |- *. rewrite Hz.
    destruct (is_space_sep x); [|reflexivity]. cbn [andb] in H |- *.
    destruct (forallb is_space_sep (squeeze g s)) eqn:E; [|reflexivity].
    rewrite <- H. symmetry. apply (blank_same_visible s (squeeze g s)); [|exact E].
    apply visible_squeeze. }
  cbn [squeeze]. destruct (is_space_sep x) eqn:Ex.
  - destruct f; [now apply IH|].
    destruct s as [|y t].
    + cbn in H. rewrite Ex in H. discriminate H.
    + destruct (is_space_sep y) eqn:Ey.
      * apply Hkeep. reflexivity.
      * apply (Hkeep x false). exact Ex.
  - apply (Hkeep x false). exact Ex.
Qed.

Lemma strip_breaks_no_space_tail (s : gostring) :
  no_space_tail s = true -> no_space_tail (strip_breaks s) = true.
Proof.
  induction s as [|x s IH]; intros H; [reflexivity|].
  pose proof (IH (no_space_tail_tl _ _ H)) as Ht.
  unfold strip_breaks. cbn [filter]. destruct (is_break x); cbn [negb]; [exact Ht|].
  apply (no_space_tail_cons x s); [exact H| |exact Ht].
  apply blank_cons, blank_same_visible, visible_strip_breaks.
Qed.

Lemma sanitize1_shape (s : gostring) :
  head_not_space_sep (sanitize1 s) = true
  /\ no_space_tail (sanitize1 s) = true
  /\ no_double_sep (sanitize1 s) = true
  /\ no_break (sanitize1 s) = true.
Proof.
  unfold sanitize1. repeat split.
  - apply strip_breaks_head, squeeze_head. unfold trim. apply rtrim_head, ltrim_head.
  - apply strip_breaks_no_space_tail, squeeze_no_space_tail. unfold trim.
    apply rtrim_no_space_tail.
  - apply strip_breaks_no_double, (squeeze_no_double _ false).
  - apply strip_breaks_clean.
Qed.

Lemma sanitize1_fixed (s : gostring) :
  head_not_space_sep s = true -> no_space_tail s = true -> no_double_sep s = true ->
  no_break s = true -> sanitize1 s = s.
Proof.
  intros Hh Ht Hd Hb. unfold sanitize1.
  rewrite (trim_id _ Hh Ht), (squeeze_id _ Hd). now apply strip_breaks_id.
Qed.

(** X18: the earlier [sanitizeString] always returns, and what it returns
    neither begins nor ends with white space, has no two white-space runes
    in a row, and has no newline, tab or carriage return in it. *)
Theorem earlier_sanitizeString_shape (U : CaseTables) (s : gostring) :
  exists out,
    Part001.sanitizeString U s = Ret out
    /\ trimmed out = true /\ no_double_sep out = true /\ no_break out = true.
Proof.
  exists (sanitize1 s). split; [apply sanitizeString1_eq|].
  destruct (sanitize1_shape s) as (Hh & Ht & Hd & Hb). repeat split; try assumption.
  unfold trimmed. rewrite Hh. now apply no_space_tail_rev.
Qed.

(** X19: the earlier [sanitizeString] is idempotent on every input: a
    second pass changes nothing. *)
Theorem earlier_sanitizeString_idempotent (U : CaseTables) (x : gostring) :
  (y <- Part001.sanitizeString U x ;; Part001.sanitizeString U y)
  = Part001.sanitizeString U x.
Proof.
  rewrite sanitizeString1_eq. cbn [obind]. rewrite sanitizeString1_eq. f_equal.
  destruct (sanitize1_shape x) as (Hh & Ht & Hd & Hb). now apply sanitize1_fixed.
Qed.

(** X20: the earlier [sanitizeString] changes white space only: the runes
    of the input outside [[\s\p{Zs}]] are the runes of the output outside
    that class, in the same order. *)
Theorem earlier_sanitizeString_keeps_visible (U : CaseTables) (s : gostring) :
  exists out, Part001.sanitizeString U s = Ret out /\ visible out = visible s.
Proof. exists (sanitize1 s). split; [apply sanitizeString1_eq|apply visible_sanitize1]. Qed.

(* ================================================================== *)
(** * The earlier section extractor *)

Lemma compile_section1 (sectionName : gostring) :
  Compile (Part001.section_pattern (Part001.reTerm_of sectionName))
  = Compiled (section_re1 (Part001.reTerm_of sectionName)).
Proof.
  unfold Part001.reTerm_of.
  destruct (gostring_eqb sectionName (str "synopsis")); [vm_compute; reflexivity|].
  destruct (gostring_eqb sectionName (str "marine")); [vm_compute; reflexivity|].
  destruct (gostring_eqb sectionName (str "aviation")); vm_compute; reflexivity.
Qed.

Section EarlierSectionFacts.

Variable U : CaseTables.

Lemma atom_perl_space (r : rune) : atom_match U space_class r = is_perl_space r.
Proof. simpl. now rewrite orb_false_r. Qed.

Lemma atom_not_amp (r : rune) : atom_match U not_amp_class r = is_not_amp r.
Proof.
  unfold is_not_amp, amp. simpl. rewrite orb_false_r, in_range_single.
  now destruct (rune_eqb r 38%N).
Qed.

Lemma m_exact (hdr : gostring) (k : nat -> gostring -> caps -> option caps) (c : caps) :
  forall p s,
  m U (cat_list (map lit hdr)) p s c k
  = if starts_with hdr s then k (p + List.length hdr) (skipn (List.length hdr) s) c else None.
Proof.
  induction hdr as [|r0 hdr IH]; intros p s.
  - cbn. now rewrite Nat.add_0_r.
  - cbn [map cat_list fold_right m lit starts_with List.length].
    destruct s as [|x s]; [reflexivity|].
    rewrite atom_lit. cbn [skipn]. destruct (rune_eqb x r0); [|reflexivity].
    cbn [andb]. unfold cat_list in IH. rewrite IH. now rewrite Nat.add_succ_r.
Qed.

Lemma rep_at_most_0 (a : atom) (p : nat) (s : gostring) (k : nat -> gostring -> option caps) :
  rep U a true 0 (Some 0) p s k = k p s.
Proof. destruct s as [|x s]; simpl; [|rewrite andb_false_r]; now destruct (k p _). Qed.

Lemma rep_optional (a : atom) (p : nat) (s : gostring) (k : nat -> gostring -> option caps) :
  rep U a true 0 (Some 1) p s k
  = match s with
    | x :: s' => if atom_match U a x then or_else (k (S p) s') (k p s) else k p s
    | [] => k p []
    end.
Proof.
  destruct s as [|x s].
  - simpl. now destruct (k p []).
  - cbn [rep hi_allows hi_pred pred]. rewrite andb_true_r.
    destruct (atom_match U a x).
    + rewrite rep_at_most_0. unfold or_else. reflexivity.
    + now destruct (k p (x :: s)).
Qed.

Ltac caps_eq :=
  repeat match goal with
         | |- Some _ = Some _ => f_equal
         | |- _ :: _ = _ :: _ => f_equal
         | |- (_, _) = (_, _) => f_equal
         end; try reflexivity; try lia.

Lemma match_section1 (reTerm : gostring) (p : nat) (s : gostring) :
  match_here U (section_re1 reTerm) p s
  = if starts_with (header1 reTerm) s
    then Some (caps1 (List.length (header1 reTerm)) p (skipn (List.length (header1 reTerm)) s))
    else None.
Proof.
  unfold match_here, section_re1. cbn [re_tree re_ncap m]. rewrite m_exact.
  destruct (starts_with (header1 reTerm) s); [|reflexivity].
  set (h := List.length (header1 reTerm)). set (s1 := skipn h s).
  assert (forall p2 s2,
             rep U not_amp_class true 0 None p2 s2
               (fun p' _ =>
                  Some (set_cap 0 (p, p')
                          (set_cap 2 (p2, p') (set_cap 1 (p, p + h) (repeat None 3)))))
             = Some [Some (p, p2 + run_len is_not_amp s2); Some (p, p + h);
                     Some (p2, p2 + run_len is_not_amp s2)]) as Hbody.
  { intros p2 s2. apply rep_greedy_run with (f := is_not_amp);
      [apply atom_not_amp|lia|reflexivity]. }
  rewrite rep_optional. unfold caps1, space_len.
  destruct s1 as [|x s1'].
  - rewrite Hbody. cbn [skipn run_len]. caps_eq.
  - rewrite atom_perl_space. destruct (is_perl_space x).
    + rewrite Hbody. cbn [or_else skipn]. caps_eq.
    + rewrite Hbody. cbn [skipn]. caps_eq.
Qed.

Lemma find_section1 (reTerm : gostring) (s : gostring) :
  forall p,
  find_from U (section_re1 reTerm) p s
  = match index_of (header1 reTerm) s with
    | Some i =>
        Some (caps1 (List.length (header1 reTerm)) (p + i)
                (skipn (i + List.length (header1 reTerm)) s))
    | None => None
    end.
Proof.
  induction s as [|x s IH]; intros p.
  - cbn [find_from index_of]. rewrite match_section1.
    destruct (starts_with (header1 reTerm) []); [|reflexivity].
    now rewrite Nat.add_0_r.
  - cbn [find_from index_of]. rewrite match_section1.
    destruct (starts_with (header1 reTerm) (x :: s)).
    + now rewrite Nat.add_0_r.
    + rewrite IH. destruct (index_of (header1 reTerm) s) as [i|]; [|reflexivity].
      cbn [option_map Nat.add skipn]. now rewrite Nat.add_succ_r.
Qed.

(** The earlier [GetDiscussionSection], for every name and every text. *)
Lemma GetDiscussionSection1_eq (s : Product) (sectionName : gostring) :
  let name := ToLower U sectionName in
  let hdr := header1 (Part001.reTerm_of name) in
  Part001.GetDiscussionSection U s sectionName
  = match index_of hdr (ProductText s) with
    | Some i =>
        Ret (Good (formatDiscussionItem U name
                     (sanitize1 (body1 (skipn (i + List.length hdr) (ProductText s))))))
    | None => Ret (Bad (not_found_message name))
    end.
Proof.
  intros name hdr. unfold Part001.GetDiscussionSection. fold name.
  unfold MustCompile. rewrite compile_section1. cbn [obind].
  unfold FindStringSubmatch, doExecute. cbn [skipn]. rewrite find_section1. fold hdr.
  destruct (index_of hdr (ProductText s)) as [i|]; [|reflexivity].
  unfold caps1. cbn [map List.length Nat.ltb Nat.leb nth cap_text Nat.add].
  rewrite sanitizeString1_eq. cbn [obind]. do 4 f_equal.
  unfold body1, slice.
  set (s1 := skipn (i + List.length hdr) (ProductText s)).
  set (w := space_len s1).
  replace (skipn (i + List.length hdr + w) (ProductText s)) with (skipn w s1)
    by (unfold s1; rewrite skipn_skipn; f_equal; lia).
  f_equal. lia.
Qed.

Lemma earlier_returns (s : Product) (sectionName : gostring) :
  exists r, Part001.GetDiscussionSection U s sectionName = Ret r.
Proof. rewrite GetDiscussionSection1_eq. destruct (index_of _ (ProductText s)); eauto. Qed.

Lemma run_len_no_amp (s : gostring) : no_amp (firstn (run_len is_not_amp s) s) = true.
Proof. unfold no_amp. apply run_len_firstn. lia. Qed.

Lemma no_amp_of_visible (s t : gostring) :
  visible t = visible s -> no_amp s = true -> no_amp t = true.
Proof.
  unfold no_amp. intros Hv Hs. rewrite forallb_forall in *. intros r Hr.
  destruct (is_space_sep r) eqn:E.
  - unfold is_not_amp, rune_eqb. destruct (N.eqb_spec r amp) as [->|]; [discriminate E|reflexivity].
  - apply Hs. assert (In r (visible t)) as Hin
      by (unfold visible; apply filter_In; split; [exact Hr|now rewrite E]).
    rewrite Hv in Hin. unfold visible in Hin. apply filter_In in Hin. tauto.
Qed.

End EarlierSectionFacts.

(** X21: the earlier [GetDiscussionSection], for every name and every
    text: the header searched for is a dot, the term of the [switch] and
    three dots, in upper case as written; the section found is the first
    occurrence of the header; its body is what follows the header, after one
    optional white-space rune, up to the first ampersand or to the end of
    the text; the result is the upper-cased name, a blank line and the
    earlier [sanitizeString] of that body.  No terminator is asked for. *)
Theorem earlier_section_described (U : CaseTables) (s : Product) (sectionName : gostring) :
  let name := ToLower U sectionName in
  let hdr := header1 (Part001.reTerm_of name) in
  Part001.GetDiscussionSection U s sectionName
  = match index_of hdr (ProductText s) with
    | Some i =>
        section <- Part001.sanitizeString U (body1 (skipn (i + List.length hdr) (ProductText s))) ;;
        Ret (Good (formatDiscussionItem U name section))
    | None => Ret (Bad (not_found_message name))
    end.
Proof.
  cbv zeta. rewrite GetDiscussionSection1_eq.
  destruct (index_of _ (ProductText s)); [|reflexivity].
  now rewrite sanitizeString1_eq.
Qed.

(** X22: the earlier [GetDiscussionSection] returns on every section name
    and every product: the name does not reach the pattern, so that no name
    makes [regexp.MustCompile] panic. *)
Theorem earlier_section_always_returns (U : CaseTables) (s : Product) (sectionName : gostring) :
  exists r, Part001.GetDiscussionSection U s sectionName = Ret r.
Proof. apply earlier_returns. Qed.

(** X23: a name that is none of [synopsis], [marine], [aviation] is not
    refused: the term stays empty, and the section returned under that name
    is what follows the first four dots in a row of the text. *)
Theorem earlier_unknown_name_takes_dots (U : CaseTables) (s : Product) (sectionName : gostring)
        (i : nat) :
  Part001.reTerm_of (ToLower U sectionName) = [] ->
  index_of (str "....") (ProductText s) = Some i ->
  Part001.GetDiscussionSection U s sectionName
  = (section <- Part001.sanitizeString U (body1 (skipn (i + 4) (ProductText s))) ;;
     Ret (Good (formatDiscussionItem U (ToLower U sectionName) section))).
Proof.
  intros Ht Hi. rewrite GetDiscussionSection1_eq. cbv zeta. rewrite Ht.
  change (header1 []) with (str "...."). rewrite Hi. cbn [List.length].
  now rewrite sanitizeString1_eq.
Qed.

Lemma earlier_unknown_name_takes_dots_witness :
  Part001.reTerm_of (ToLower ascii_tables (str "Climate")) = []
  /\ index_of (str "....") (str "Highs 60....70 in the valleys & hills") = Some 8
  /\ Part001.GetDiscussionSection ascii_tables
       (product_of_text (str "Highs 60....70 in the valleys & hills")) (str "Climate")
     = Ret (Good (str "CLIMATE:" ++ newline :: newline :: str "70 in the valleys")).
Proof.
  split; [reflexivity|]. split; [reflexivity|].
  apply (earlier_unknown_name_takes_dots ascii_tables
           (product_of_text (str "Highs 60....70 in the valleys & hills")) (str "Climate") 8);
    reflexivity.
Defined.

(** X24: what the earlier [GetDiscussionSection] returns after the heading
    has no ampersand, no newline, tab or carriage return and no two
    white-space runes in a row, and neither begins nor ends with white
    space. *)
Theorem earlier_section_text_clean (U : CaseTables) (s : Product) (sectionName out : gostring) :
  Part001.GetDiscussionSection U s sectionName = Ret (Good out) ->
  exists body,
    out = formatDiscussionItem U (ToLower U sectionName) body
    /\ no_amp body = true /\ no_break body = true
    /\ no_double_sep body = true /\ trimmed body = true.
Proof.
  rewrite GetDiscussionSection1_eq. cbv zeta.
  destruct (index_of _ (ProductText s)) as [i|]; [|discriminate].
  intros H. injection H as <-.
  set (raw := body1 _).
  exists (sanitize1 raw). split; [reflexivity|].
  destruct (sanitize1_shape raw) as (Hh & Ht & Hd & Hb).
  repeat split; try assumption.
  - apply (no_amp_of_visible raw); [apply visible_sanitize1|]. unfold raw, body1.
    apply run_len_no_amp.
  - unfold trimmed. rewrite Hh. now apply no_space_tail_rev.
Qed.

Lemma earlier_section_text_clean_witness :
  Part001.GetDiscussionSection ascii_tables
    (product_of_text (str ".MARINE... Seas  2 ft & rising.&&")) (str "marine")
  = Ret (Good (str "MARINE:" ++ newline :: newline :: str "Seas 2 ft"))
  /\ exists body,
       str "MARINE:" ++ newline :: newline :: str "Seas 2 ft"
       = formatDiscussionItem ascii_tables (ToLower ascii_tables (str "marine")) body
       /\ no_amp body = true /\ no_break body = true
       /\ no_double_sep body = true /\ trimmed body = true.
Proof.
  split; [vm_compute; reflexivity|].
  apply (earlier_section_text_clean ascii_tables
           (product_of_text (str ".MARINE... Seas  2 ft & rising.&&")) (str "marine")).
  vm_compute. reflexivity.
Defined.

(* ================================================================== *)
(** * Answers of the service, and the first [main] *)

Section ServiceFacts.

Variable U : CaseTables.
Variable net : Type.
Variable url_ok : gostring -> bool.
Variable roundTrip : gostring -> net -> http_reply * net.
Variable unmarshalResponse : gostring -> res (list Product).
Variable unmarshalProduct : gostring -> res Product.
Variable sendSMS : gostring -> gostring -> gostring -> net -> option gostring * net.

Lemma world_eta (w w1 : world net) :
  same_output w w1 -> w1 = after_request w (w_net w1).
Proof. destruct w1 as [n o s]. intros [H1 H2]. cbn in *. unfold after_request. now subst. Qed.

(** X25: when the service answers the listing request of a subscriber's
    office with a status other than 200, the batch ends there through
    [log.Fatal], with the body of the answer as the message; nothing is
    printed or sent for that subscriber or those after it. *)
Theorem refused_listing_is_fatal (config : Config) (user : User) (rest : list User)
        (w : world net) (status : N) (body : gostring) (n1 : net) :
  url_ok (listing_uri (NewNWSClient (LocationID user))) = true ->
  roundTrip (listing_uri (NewNWSClient (LocationID user))) (w_net w) = (Reply status body, n1) ->
  status <> 200%N ->
  users_loop U url_ok roundTrip unmarshalResponse unmarshalProduct sendSMS
    config (user :: rest) w
  = (Fatal body, after_request w n1).
Proof.
  intros Hu Hr Hs. cbn [users_loop].
  unfold mbind at 1, GetSubscribedSections, mbind at 1, GetAFD, mbind at 1, GetProducts,
    mbind at 1, newRequest.
  fold (listing_uri (NewNWSClient (LocationID user))). rewrite Hu. cbn [mret].
  unfold mbind at 1, doRequest. rewrite Hr.
  apply N.eqb_neq in Hs. rewrite Hs. reflexivity.
Qed.

(** X26: the first [main] prints the text of the product [GetAFD] returns
    for the office PHI, on one line, and nothing else; when [GetAFD] returns
    an error it ends through [log.Fatal] with that error and prints
    nothing. *)
Theorem first_main_prints_product (w w1 : world net) (r : res Product) :
  GetAFD url_ok roundTrip unmarshalResponse unmarshalProduct (NewNWSClient (str "PHI")) w
  = (Ret r, w1) ->
  Part000.main url_ok roundTrip unmarshalResponse unmarshalProduct w
  = match r with
    | Good afd =>
        (Ret tt, {| w_net := w_net w1; w_stdout := w_stdout w ++ [ProductText afd];
                    w_sent := w_sent w |})
    | Bad err => (Fatal err, after_request w (w_net w1))
    end.
Proof.
  intros H. unfold Part000.main, mbind. rewrite H.
  pose proof (GetAFD_output net url_ok roundTrip unmarshalResponse unmarshalProduct
                (NewNWSClient (str "PHI")) w) as Ho.
  rewrite H in Ho. cbn [snd] in Ho. destruct r as [afd|err].
  - unfold Println. destruct Ho as [H1 H2]. now rewrite H1, H2.
  - unfold log_Fatal. now rewrite <- (world_eta _ _ Ho).
Qed.

End ServiceFacts.

Lemma refused_listing_is_fatal_witness :
  demo_url_ok (listing_uri (NewNWSClient (LocationID ann))) = true
  /\ demo_roundTrip (listing_uri (NewNWSClient (LocationID ann))) (w_net demo_world)
     = (Reply 404 (str "Not Found"), tt)
  /\ 404%N <> 200%N
  /\ users_loop ascii_tables demo_url_ok demo_roundTrip demo_unmarshalResponse
       demo_unmarshalProduct demo_sendSMS demo_config [ann; bob] demo_world
     = (Fatal (str "Not Found"), after_request demo_world tt).
Proof.
  split; [reflexivity|]. split; [vm_compute; reflexivity|]. split; [discriminate|].
  apply (refused_listing_is_fatal ascii_tables unit demo_url_ok demo_roundTrip
           demo_unmarshalResponse demo_unmarshalProduct demo_sendSMS demo_config ann [bob]
           demo_world 404%N (str "Not Found") tt);
    [reflexivity|vm_compute; reflexivity|discriminate].
Defined.

Lemma first_main_prints_product_witness :
  GetAFD demo_url_ok demo_roundTrip demo_unmarshalResponse demo_unmarshalProduct
    (NewNWSClient (str "PHI")) demo_world
  = (Ret (Good demo_product), demo_world)
  /\ Part000.main demo_url_ok demo_roundTrip demo_unmarshalResponse demo_unmarshalProduct
       demo_world
     = (Ret tt, {| w_net := tt; w_stdout := [str ".SYNOPSIS...Rain.&&.MARINE...Calm.&&"];
                   w_sent := [] |}).
Proof.
  split; [vm_compute; reflexivity|].
  apply (first_main_prints_product unit demo_url_ok demo_roundTrip demo_unmarshalResponse
           demo_unmarshalProduct demo_world demo_world (Good demo_product)).
  vm_compute. reflexivity.
Defined.

(* ================================================================== *)
(** * The earlier resolver and [main] *)

Section EarlierProgramFacts.

Variable U : CaseTables.
Variable net : Type.
Variable url_ok : gostring -> bool.
Variable roundTrip : gostring -> net -> http_reply * net.
Variable unmarshalResponse : gostring -> res (list Product).
Variable unmarshalProduct : gostring -> res Product.

Lemma sections_loop1_eq (afd : Product) (subscriptions : list gostring) :
  forall sections (w : world net),
  Part001.sections_loop U afd subscriptions sections w
  = (Ret (sections ++ map (entry1 U afd) subscriptions),
     {| w_net := w_net w;
        w_stdout := w_stdout w
                    ++ repeat (str "Missing section") (misses1 U afd subscriptions);
        w_sent := w_sent w |}).
Proof.
  induction subscriptions as [|sub rest IH]; intros sections w.
  - destruct w as [n o s]. cbn. now rewrite !app_nil_r.
  - cbn [Part001.sections_loop]. unfold mbind at 1, lift.
    unfold misses1. cbn [map filter]. unfold entry1 at 1, is_miss1 at 1.
    destruct (earlier_returns U afd sub) as [r Hr]. rewrite Hr.
    destruct r as [section|err].
    + rewrite IH. fold (misses1 U afd rest). now rewrite <- app_assoc.
    + unfold mbind at 1, Println. rewrite IH. cbn [w_net w_stdout w_sent List.length repeat].
      fold (misses1 U afd rest). now rewrite <- !app_assoc.
Qed.

(** X27: the earlier [main] looks at the first subscriber only.  When the
    product of that subscriber's office is fetched it returns, having
    printed [Missing section] once for every subscription that is not found
    and then one line with the strings of the subscriber between brackets:
    as many empty strings as there are subscriptions, then the entry of each
    subscription in order.  It sends nothing. *)
Theorem earlier_main_prints_sections (user1 : Part001.User) (rest : list Part001.User)
        (w w1 : world net) (afd : Product) :
  GetAFD url_ok roundTrip unmarshalResponse unmarshalProduct
    (NewNWSClient (Part001.LocationID user1)) w
  = (Ret (Good afd), w1) ->
  Part001.main U url_ok roundTrip unmarshalResponse unmarshalProduct (Good (user1 :: rest)) w
  = (Ret tt,
     {| w_net := w_net w1;
        w_stdout :=
          w_stdout w
          ++ repeat (str "Missing section") (misses1 U afd (Part001.Subscriptions user1))
          ++ [Part001.format_strings
                (repeat [] (List.length (Part001.Subscriptions user1))
                 ++ map (entry1 U afd) (Part001.Subscriptions user1))];
        w_sent := w_sent w |}).
Proof.
  intros H. unfold Part001.main, mbind at 1, Part001.GetSubscribedSections, mbind at 1.
  rewrite H, sections_loop1_eq. unfold Println. cbn [w_net w_stdout w_sent].
  pose proof (GetAFD_output net url_ok roundTrip unmarshalResponse unmarshalProduct
                (NewNWSClient (Part001.LocationID user1)) w) as [H1 H2].
  rewrite H in H1, H2. cbn [snd] in H1, H2. rewrite H1, H2. now rewrite <- app_assoc.
Qed.

End EarlierProgramFacts.

Lemma earlier_main_prints_sections_witness :
  GetAFD demo_url_ok demo_roundTrip demo_unmarshalResponse demo_unmarshalProduct
    (NewNWSClient (Part001.LocationID bob1)) demo_world
  = (Ret (Good demo_product), demo_world)
  /\ Part001.main ascii_tables demo_url_ok demo_roundTrip demo_unmarshalResponse
       demo_unmarshalProduct (Good [bob1]) demo_world
     = (Ret tt,
        {| w_net := tt;
           w_stdout := [str "Missing section";
                        str "[   MARINE:" ++ newline :: newline :: str "Calm.]"];
           w_sent := [] |}).
Proof.
  split; [vm_compute; reflexivity|].
  apply (earlier_main_prints_sections ascii_tables unit demo_url_ok demo_roundTrip
           demo_unmarshalResponse demo_unmarshalProduct bob1 [] demo_world demo_world
           demo_product).
  vm_compute. reflexivity.
Defined.
